(** * A single-instrument limit order book: shallow embedding and properties

    Source: [src/Orderbook/orderbook.cpp].

    The embedding follows the C++ text function by function.

    - [uint64_t] values are integers in [Z]; every arithmetic operation of
      the source on them is written with its wrap-around modulo [2^64].
    - A [double] is a number or NaN.  Every finite double is an integer
      multiple of [2^-1074] and is represented by that integer (the two
      zeros compare equal in C++ and are one number; an infinity compares
      like a number beyond the finite range and is represented by such an
      integer).  [<] and [!=] are the C++ operators: with NaN on either side
      [<] is false and [!=] is true.
    - [unordered_map<uint64_t, unique_ptr<OrderTracker>>] is a finite map
      ([gmap]).  [std::map<double, unique_ptr<LevelManager>>] is a finite map
      with the operations of the ordered map written out: [begin()] and
      [rbegin()] are the first and the last entry in key order, and [find(k)]
      is, as the library implements it, the first entry whose key is not
      less than [k], if [k] is not less than that key.  So [find(NaN)]
      returns the first entry of a map, and every [find] in a map whose only
      key is NaN returns that entry.
    - [std::cout] is a list of tokens, one per [<<] of the source.
    - The [while] loop of [execute_matching] is a step function iterated
      with fuel; running out of fuel is [None].
    - Two kinds of runs of the public operations are considered: those in
      which every price given to the book is a number ([reachable]), and
      those with any prices, NaN included ([obtainable]).  The book does
      not check the prices it is given. *)

From stdpp Require Import gmap list strings sorting.

Local Open Scope Z_scope.

(** ** Machine integers *)

Definition u64_modulus : Z := 2 ^ 64.

Definition is_u64 (z : Z) : Prop := 0 ≤ z < u64_modulus.

Definition u64_add (a b : Z) : Z := (a + b) mod u64_modulus.

Definition u64_sub (a b : Z) : Z := (a - b) mod u64_modulus.

(** ** double *)

Inductive double : Type :=
| Num (z : Z)
| NaN.

#[global] Instance double_eq_dec : EqDecision double.
Proof. solve_decision. Defined.

#[global] Instance double_countable : Countable double.
Proof.
  refine (inj_countable'
            (λ d, match d with Num z => Some z | NaN => None end)
            (λ o, match o with Some z => Num z | None => NaN end) _).
  by intros [].
Defined.

(** [a < b] of C++. *)
Definition dlt (a b : double) : Prop :=
  match a, b with
  | Num x, Num y => x < y
  | _, _ => False
  end.

#[global] Instance dlt_dec : RelDecision dlt.
Proof. intros [x|] [y|]; simpl; apply _. Defined.

(** [a != b] of C++. *)
Definition dne (a b : double) : Prop :=
  match a, b with
  | Num x, Num y => x ≠ y
  | _, _ => True
  end.

#[global] Instance dne_dec : RelDecision dne.
Proof. intros [x|] [y|]; simpl; apply _. Defined.

(** [a <= b] of C++. *)
Definition dle (a b : double) : Prop :=
  match a, b with
  | Num x, Num y => x ≤ y
  | _, _ => False
  end.

#[global] Instance dle_dec : RelDecision dle.
Proof. intros [x|] [y|]; simpl; apply _. Defined.

Definition not_nan (d : double) : Prop := d ≠ NaN.

(** [dbl m e] is the finite double [m * 2^e], in units of [2^-1074]. *)
Definition dbl (m e : Z) : double := Num (m * 2 ^ (e + 1074)).

(** ** Data *)

Record Order : Type := mkOrder {
  order_id : Z;
  is_buy : bool;
  price : double;
  quantity : Z;
  timestamp_ns : Z
}.

Record LevelManager : Type := mkLevel {
  price_point : double;
  order_queue : list Z;
  aggregate_volume : Z
}.

(** What is streamed to [std::cout]. *)
Inductive Token : Type :=
| Text (s : string)
| U64 (n : Z)
| Dbl (p : double)
| Newline.

Record OrderBook : Type := mkBook {
  bid_levels : gmap double LevelManager;
  ask_levels : gmap double LevelManager;
  active_orders : gmap Z Order;
  cout : list Token
}.

Definition empty_book : OrderBook := mkBook ∅ ∅ ∅ [].

#[global] Instance Order_eq_dec : EqDecision Order.
Proof. solve_decision. Defined.

#[global] Instance LevelManager_eq_dec : EqDecision LevelManager.
Proof. solve_decision. Defined.

#[global] Instance Token_eq_dec : EqDecision Token.
Proof. solve_decision. Defined.

#[global] Instance OrderBook_eq_dec : EqDecision OrderBook.
Proof. solve_decision. Defined.

Definition set_quantity (o : Order) (q : Z) : Order :=
  mkOrder (order_id o) (is_buy o) (price o) q (timestamp_ns o).

(** ** LevelManager *)

Definition new_level (p : double) : LevelManager := mkLevel p [] 0.

Definition push_order (lv : LevelManager) (id qty : Z) : LevelManager :=
  mkLevel (price_point lv) (order_queue lv ++ [id])
          (u64_add (aggregate_volume lv) qty).

(** [order_queue.erase(find(begin, end, order_id))]: the first occurrence. *)
Fixpoint erase_first (id : Z) (q : list Z) : list Z :=
  match q with
  | [] => []
  | x :: q' => if bool_decide (x = id) then q' else x :: erase_first id q'
  end.

Definition remove_order (lv : LevelManager) (id qty : Z)
  : bool * LevelManager :=
  if bool_decide (id ∈ order_queue lv)
  then (true, mkLevel (price_point lv) (erase_first id (order_queue lv))
                      (u64_sub (aggregate_volume lv) qty))
  else (false, lv).

Definition update_volume (lv : LevelManager) (old_qty new_qty : Z)
  : LevelManager :=
  mkLevel (price_point lv) (order_queue lv)
          (u64_add (u64_sub (aggregate_volume lv) old_qty) new_qty).

Definition get_volume (lv : LevelManager) : Z := aggregate_volume lv.
Definition get_price (lv : LevelManager) : double := price_point lv.
Definition is_empty (lv : LevelManager) : bool :=
  match order_queue lv with [] => true | _ => false end.
Definition get_orders (lv : LevelManager) : list Z := order_queue lv.

(** ** The ordered map *)

(** The order in which the entries of a map follow each other. Among
    numbers it is the order of the keys. A NaN key has no place of its own
    among other keys: [find] and [operator[]] put it into an empty map only
    (lemma [obtainable_inv]), where it is the only key as long as it
    stays. *)
Definition key_le (e e' : double * LevelManager) : Prop :=
  match e.1, e'.1 with
  | NaN, _ => True
  | Num _, NaN => False
  | Num x, Num y => x ≤ y
  end.

#[global] Instance key_le_dec : RelDecision key_le.
Proof.
  intros [[x|] v] [[y|] v']; unfold key_le; simpl; apply _.
Defined.

(** The entries of a map from [begin()] to [end()]. *)
Definition map_entries (m : gmap double LevelManager)
  : list (double * LevelManager) :=
  merge_sort key_le (map_to_list m).

(** [m.begin()], [None] when [m.empty()]. *)
Definition map_begin (m : gmap double LevelManager)
  : option (double * LevelManager) :=
  head (map_entries m).

(** [m.rbegin()], [None] when [m.empty()]. *)
Definition map_rbegin (m : gmap double LevelManager)
  : option (double * LevelManager) :=
  last (map_entries m).

(** [lower_bound(k)]: the first entry whose key is not less than [k]. *)
Fixpoint lower_bound (iter : list (double * LevelManager)) (k : double)
  : option (double * LevelManager) :=
  match iter with
  | [] => None
  | e :: iter' => if bool_decide (dlt e.1 k) then lower_bound iter' k
                  else Some e
  end.

(** [m.find(k)]: [j = lower_bound(k)], and [end()] when [j] is [end()] or
    [k < j->first]. [None] is [end()]. *)
Definition map_find (m : gmap double LevelManager) (k : double)
  : option (double * LevelManager) :=
  match lower_bound (map_entries m) k with
  | Some e => if bool_decide (dlt k e.1) then None else Some e
  | None => None
  end.

(** ** OrderBook: private helpers *)

Definition fetch_side (st : OrderBook) (buy_side : bool)
  : gmap double LevelManager :=
  if buy_side then bid_levels st else ask_levels st.

Definition set_side (st : OrderBook) (buy_side : bool)
  (side : gmap double LevelManager) : OrderBook :=
  if buy_side
  then mkBook side (ask_levels st) (active_orders st) (cout st)
  else mkBook (bid_levels st) side (active_orders st) (cout st).

Definition set_orders (st : OrderBook) (reg : gmap Z Order) : OrderBook :=
  mkBook (bid_levels st) (ask_levels st) reg (cout st).

Definition print (st : OrderBook) (line : list Token) : OrderBook :=
  mkBook (bid_levels st) (ask_levels st) (active_orders st) (cout st ++ line).

(** The side after [get_or_create_level], and the level it returns with
    the key under which the level is held. [side[price] = ...] is reached
    when [find] found nothing and adds the key. *)
Definition get_or_create_level (side : gmap double LevelManager) (p : double)
  : gmap double LevelManager * double * LevelManager :=
  match map_find side p with
  | None => (<[p := new_level p]> side, p, new_level p)
  | Some (k, lv) => (side, k, lv)
  end.

Definition cleanup_level (side : gmap double LevelManager) (p : double)
  : gmap double LevelManager :=
  match map_find side p with
  | Some (k, lv) => if is_empty lv then delete k side else side
  | None => side
  end.

(** ** cancel_order *)

Definition cancel_order (st : OrderBook) (id : Z) : bool * OrderBook :=
  match active_orders st !! id with
  | None => (false, st)
  | Some ord =>
      let side := fetch_side st (is_buy ord) in
      let side' :=
        match map_find side (price ord) with
        | Some (k, lv) =>
            cleanup_level
              (<[k := (remove_order lv id (quantity ord)).2]> side)
              (price ord)
        | None => side
        end in
      (true,
       set_orders (set_side st (is_buy ord) side')
                  (delete id (active_orders st)))
  end.

(** ** The matching engine *)

(** The line printed for one match. *)
Definition trade_line (bid_id : Z) (bid_price : double) (ask_id : Z)
  (ask_price : double) : list Token :=
  [ Text "Executed Bid Order of Id: "; U64 bid_id;
    Text " and price: "; Dbl bid_price;
    Text " for Ask order of Id: "; U64 ask_id;
    Text " and price: "; Dbl ask_price; Newline ].

(** [find(price)] and, on the level found, [update_volume(match_qty, 0)]. *)
Definition adjust_level (side : gmap double LevelManager) (p : double)
  (match_qty : Z) : gmap double LevelManager :=
  match map_find side p with
  | Some (k, lv) => <[k := update_volume lv match_qty 0]> side
  | None => side
  end.

(** [bid_order] and [ask_order] are references into the registry: the two
    decrements are written through the registry, one after the other.  The
    two tests of the last lines read the quantities left by the decrements;
    when the two identifiers are equal the second test of the source reads a
    destroyed object, which no state built by the public operations does. *)
Definition process_match (st : OrderBook) (bid_id ask_id : Z) : OrderBook :=
  match active_orders st !! bid_id, active_orders st !! ask_id with
  | Some bid_order, Some ask_order =>
      let match_qty := Z.min (quantity bid_order) (quantity ask_order) in
      let st := print st (trade_line bid_id (price bid_order)
                                     ask_id (price ask_order)) in
      let reg1 :=
        <[bid_id := set_quantity bid_order
                      (u64_sub (quantity bid_order) match_qty)]>
          (active_orders st) in
      let reg2 :=
        match reg1 !! ask_id with
        | Some a => <[ask_id := set_quantity a (u64_sub (quantity a) match_qty)]> reg1
        | None => reg1
        end in
      let bid_left := default 0 (quantity <$> reg2 !! bid_id) in
      let ask_left := default 0 (quantity <$> reg2 !! ask_id) in
      let st := set_orders st reg2 in
      let st := set_side st true
                  (adjust_level (bid_levels st) (price bid_order) match_qty) in
      let st := set_side st false
                  (adjust_level (ask_levels st) (price ask_order) match_qty) in
      let st := if bool_decide (bid_left = 0)
                then (cancel_order st bid_id).2 else st in
      let st := if bool_decide (ask_left = 0)
                then (cancel_order st ask_id).2 else st in
      st
  | _, _ => st
  end.

(** One evaluation of the loop condition and body of [execute_matching]:
    [None] when the loop is left, [Some st'] after one iteration. *)
Definition match_step (st : OrderBook) : option OrderBook :=
  match map_rbegin (bid_levels st), map_begin (ask_levels st) with
  | Some (_, bid_level), Some (_, ask_level) =>
      if bool_decide (dlt (get_price bid_level) (get_price ask_level))
      then None
      else
        match get_orders bid_level, get_orders ask_level with
        | bid_id :: _, ask_id :: _ => Some (process_match st bid_id ask_id)
        | _, _ => None
        end
  | _, _ => None
  end.

(** [execute_matching]: [None] is "still looping when the fuel ran out". *)
Fixpoint execute_matching (fuel : nat) (st : OrderBook) : option OrderBook :=
  match match_step st with
  | None => Some st
  | Some st' =>
      match fuel with
      | O => None
      | S fuel' => execute_matching fuel' st'
      end
  end.

(** ** Public operations *)

(** [add_order] up to, and without, the call of [execute_matching]. *)
Definition enqueue (st : OrderBook) (order : Order) : OrderBook :=
  let side := fetch_side st (is_buy order) in
  let '(side1, k, level) := get_or_create_level side (price order) in
  let side2 :=
    <[k := push_order level (order_id order) (quantity order)]> side1 in
  set_orders (set_side st (is_buy order) side2)
             (<[order_id order := order]> (active_orders st)).

Definition add_order (fuel : nat) (st : OrderBook) (order : Order)
  : option OrderBook :=
  match active_orders st !! order_id order with
  | Some _ => Some st
  | None => execute_matching fuel (enqueue st order)
  end.

Definition amend_order (fuel : nat) (st : OrderBook)
  (id : Z) (new_price : double) (new_quantity : Z)
  : option (bool * OrderBook) :=
  match active_orders st !! id with
  | None => Some (false, st)
  | Some ord =>
      if bool_decide (dne (price ord) new_price) then
        let modified_order :=
          mkOrder (order_id ord) (is_buy ord) new_price new_quantity
                  (timestamp_ns ord) in
        st' ← add_order fuel (cancel_order st id).2 modified_order;
        Some (true, st')
      else
        let side := fetch_side st (is_buy ord) in
        match map_find side (price ord) with
        | Some (k, lv) =>
            Some (true,
                  set_orders
                    (set_side st (is_buy ord)
                       (<[k :=
                            update_volume lv (quantity ord) new_quantity]> side))
                    (<[id := set_quantity ord new_quantity]> (active_orders st)))
        | None => Some (true, st)
        end
  end.

(** ** Books of the demo *)

Definition p50_25 : double := dbl 201 (-2).
Definition p50_50 : double := dbl 101 (-1).
Definition p49_75 : double := dbl 199 (-2).

Definition buy1 : Order := mkOrder 1 true p50_25 100 1000000000.
Definition buy2 : Order := mkOrder 2 true p50_50 200 1000000001.
Definition sell3 : Order := mkOrder 3 false p50_25 50 1000000006.

(** Bids [id=1, 100 @ 50.25] and [id=2, 200 @ 50.50], no asks. *)
Definition book_bids : OrderBook :=
  mkBook (<[p50_25 := mkLevel p50_25 [1] 100]>
            (<[p50_50 := mkLevel p50_50 [2] 200]> ∅))
         ∅
         (<[1 := buy1]> (<[2 := buy2]> ∅))
         [].

(** [book_bids] after the sell [id=3, 50 @ 50.25] was filled by [id=2]. *)
Definition book_after_sell : OrderBook :=
  mkBook (<[p50_25 := mkLevel p50_25 [1] 100]>
            (<[p50_50 := mkLevel p50_50 [2] 150]> ∅))
         ∅
         (<[1 := buy1]> (<[2 := set_quantity buy2 150]> ∅))
         (trade_line 2 p50_50 3 p50_25).

(** One bid at 50.25 and one ask at 50.50. *)
Definition book_two_sided : OrderBook :=
  mkBook (<[p50_25 := mkLevel p50_25 [1] 100]> ∅)
         (<[p50_50 := mkLevel p50_50 [4] 70]> ∅)
         (<[1 := buy1]> (<[4 := mkOrder 4 false p50_50 70 1000000002]> ∅))
         [].

(** Two bids of [2^63] each at one price. *)
Definition book_wrapped : OrderBook :=
  mkBook (<[p50_25 := mkLevel p50_25 [1; 2] 0]> ∅)
         ∅
         (<[1 := mkOrder 1 true p50_25 (2 ^ 63) 0]>
            (<[2 := mkOrder 2 true p50_25 (2 ^ 63) 1]> ∅))
         [].

(** ** Books with an order whose price is NaN *)

Definition p50_00 : double := dbl 50 0.
Definition p49_00 : double := dbl 49 0.
Definition p60_00 : double := dbl 60 0.

Definition bid50 : Order := mkOrder 1 true p50_00 10 0.
Definition bidNaN : Order := mkOrder 2 true NaN 10 1.
Definition bid49 : Order := mkOrder 3 true p49_00 10 2.

(** After [add_order] of [bid50], [bidNaN] and [bid49], in this order:
    [find(NaN)] returned the level of 50, the only one then, and [bidNaN]
    was queued there. *)
Definition book_nan_guest : OrderBook :=
  mkBook (<[p49_00 := mkLevel p49_00 [3] 10]>
            (<[p50_00 := mkLevel p50_00 [1; 2] 20]> ∅))
         ∅
         (<[1 := bid50]> (<[2 := bidNaN]> (<[3 := bid49]> ∅)))
         [].

(** [book_nan_guest] after [cancel_order(2)]: [find(NaN)] returned the level
    of 49, now the first one, where identifier 2 is not queued. *)
Definition book_nan_stale : OrderBook :=
  mkBook (<[p49_00 := mkLevel p49_00 [3] 10]>
            (<[p50_00 := mkLevel p50_00 [1; 2] 20]> ∅))
         ∅
         (<[1 := bid50]> (<[3 := bid49]> ∅))
         [].

(** [book_nan_guest] after [amend_order(2, NaN, 0)]: the price of the order
    differs from itself, the order was cancelled as in [book_nan_stale] and
    added again, and [find(NaN)] returned the level of 49. *)
Definition book_nan_moved : OrderBook :=
  mkBook (<[p49_00 := mkLevel p49_00 [3; 2] 10]>
            (<[p50_00 := mkLevel p50_00 [1; 2] 20]> ∅))
         ∅
         (<[1 := bid50]> (<[2 := set_quantity bidNaN 0]> (<[3 := bid49]> ∅)))
         [].

Definition sell50 : Order := mkOrder 4 false p50_00 20 3.

(** [book_nan_stale] after [add_order] of a new order [id=2, 5 @ 50]: the
    identifier is twice in the queue of the level of 50. *)
Definition bid50_again : Order := mkOrder 2 true p50_00 5 4.

Definition book_nan_twice : OrderBook :=
  mkBook (<[p49_00 := mkLevel p49_00 [3] 10]>
            (<[p50_00 := mkLevel p50_00 [1; 2; 2] 25]> ∅))
         ∅
         (<[1 := bid50]> (<[2 := bid50_again]> (<[3 := bid49]> ∅)))
         [].

(** [book_nan_stale] after [sell50] was queued and matched with the bid 1:
    the head of the best bid level is the identifier 2, which is not in the
    registry. *)
Definition book_nan_spin : OrderBook :=
  mkBook (<[p49_00 := mkLevel p49_00 [3] 10]>
            (<[p50_00 := mkLevel p50_00 [2] 10]> ∅))
         (<[p50_00 := mkLevel p50_00 [4] 10]> ∅)
         (<[3 := bid49]> (<[4 := set_quantity sell50 10]> ∅))
         (trade_line 1 p50_00 4 p50_00).

(** After [add_order] of [bid50], [bidNaN] and the sell [id=9, 5 @ 60]. *)
Definition sell60 : Order := mkOrder 9 false p60_00 5 2.

Definition book_nan_two_sided : OrderBook :=
  mkBook (<[p50_00 := mkLevel p50_00 [1; 2] 20]> ∅)
         (<[p60_00 := mkLevel p60_00 [9] 5]> ∅)
         (<[1 := bid50]> (<[2 := bidNaN]> (<[9 := sell60]> ∅)))
         [].

(** ** Runs of the public operations *)

Inductive Op : Type :=
| AddOrder (order : Order)
| CancelOrder (id : Z)
| AmendOrder (id : Z) (new_price : double) (new_quantity : Z).

(** The integer arguments are values of [uint64_t], and the price is a
    number: a call with a NaN price is not a valid one. *)
Definition valid_order (o : Order) : Prop :=
  is_u64 (order_id o) ∧ is_u64 (quantity o) ∧ is_u64 (timestamp_ns o) ∧
  not_nan (price o).

Definition valid_op (op : Op) : Prop :=
  match op with
  | AddOrder o => valid_order o
  | CancelOrder id => is_u64 id
  | AmendOrder id p q => is_u64 id ∧ is_u64 q ∧ not_nan p
  end.

(** The arguments are values of their C++ types; the price is any
    [double], NaN included. *)
Definition typed_op (op : Op) : Prop :=
  match op with
  | AddOrder o =>
      is_u64 (order_id o) ∧ is_u64 (quantity o) ∧ is_u64 (timestamp_ns o)
  | CancelOrder id => is_u64 id
  | AmendOrder id p q => is_u64 id ∧ is_u64 q
  end.

Definition run_op (fuel : nat) (op : Op) (st : OrderBook) : option OrderBook :=
  match op with
  | AddOrder o => add_order fuel st o
  | CancelOrder id => Some (cancel_order st id).2
  | AmendOrder id p q => snd <$> amend_order fuel st id p q
  end.

(** A sequence of calls, each run to its end. *)
Fixpoint run_ops (fuel : nat) (ops : list Op) (st : OrderBook)
  : option OrderBook :=
  match ops with
  | [] => Some st
  | op :: ops' => st' ← run_op fuel op st; run_ops fuel ops' st'
  end.

(** The books a caller obtains with valid calls: the empty book, and the
    result of any completed public operation, called with a price that is a
    number, on such a book. *)
Inductive reachable : OrderBook → Prop :=
| reach_empty : reachable empty_book
| reach_op st op fuel st' :
    reachable st → valid_op op → run_op fuel op st = Some st' →
    reachable st'.

(** The books a caller can obtain at all, with any prices. *)
Inductive obtainable : OrderBook → Prop :=
| obtain_empty : obtainable empty_book
| obtain_op st op fuel st' :
    obtainable st → typed_op op → run_op fuel op st = Some st' →
    obtainable st'.

(** The states at which the matching loop started by an insertion evaluates
    its condition. *)
Inductive loop_state (st0 : OrderBook) : OrderBook → Prop :=
| loop_enter : loop_state st0 st0
| loop_iter st st' :
    loop_state st0 st → match_step st = Some st' → loop_state st0 st'.

(** ** Observations on a book *)

(** The identifiers resting at price [p] on a side, oldest first. *)
Definition level_queue (st : OrderBook) (buy_side : bool) (p : double)
  : list Z :=
  match fetch_side st buy_side !! p with
  | Some lv => order_queue lv
  | None => []
  end.

Definition qty_of (reg : gmap Z Order) (id : Z) : Z :=
  default 0 (quantity <$> reg !! id).

(** The sum, in [Z], of the remaining quantities of the orders of a queue. *)
Definition sum_qty (reg : gmap Z Order) (q : list Z) : Z :=
  foldr (λ id acc, qty_of reg id + acc) 0 q.

(** Registry and levels agree, and every level is keyed by a number. *)
Record consistent (st : OrderBook) : Prop := mkConsistent {
  cons_key : ∀ b p lv, fetch_side st b !! p = Some lv → not_nan p;
  cons_reg : ∀ id o,
    active_orders st !! id = Some o → order_id o = id ∧ is_u64 (quantity o);
  cons_level : ∀ b p lv,
    fetch_side st b !! p = Some lv →
    price_point lv = p ∧ order_queue lv ≠ [] ∧ NoDup (order_queue lv) ∧
    aggregate_volume lv
      = sum_qty (active_orders st) (order_queue lv) mod u64_modulus;
  cons_queue : ∀ b p lv id,
    fetch_side st b !! p = Some lv → id ∈ order_queue lv →
    ∃ o, active_orders st !! id = Some o ∧ is_buy o = b ∧ price o = p;
  cons_order : ∀ id o,
    active_orders st !! id = Some o →
    ∃ lv, fetch_side st (is_buy o) !! price o = Some lv ∧ id ∈ order_queue lv
}.

(** A side whose keys are numbers, or whose only key is NaN. *)
Definition shaped (m : gmap double LevelManager) : Prop :=
  m !! NaN = None ∨ ∃ lv, m = {[NaN := lv]}.

(** What holds of a book whatever the prices it was given: the sides are
    [shaped]; a level has the price it is indexed under and a queue that is
    not empty; and an order of the registry whose price is a number is in
    the queue of the level that [find] returns for its price. *)
Record sound (st : OrderBook) : Prop := mkSound {
  sound_shape : ∀ b, shaped (fetch_side st b);
  sound_level : ∀ b p lv,
    fetch_side st b !! p = Some lv →
    price_point lv = p ∧ order_queue lv ≠ [];
  sound_order : ∀ id o,
    active_orders st !! id = Some o → not_nan (price o) →
    ∃ k lv, map_find (fetch_side st (is_buy o)) (price o) = Some (k, lv) ∧
            id ∈ order_queue lv
}.

(** No bid level is priced at or above an ask level. *)
Definition uncrossed (st : OrderBook) : Prop :=
  ∀ pb lb pa la,
    bid_levels st !! pb = Some lb → ask_levels st !! pa = Some la →
    dlt pb pa.



(** The numbers a printed line carries. *)
Definition is_number (t : Token) : bool :=
  match t with U64 _ | Dbl _ => true | _ => false end.

Definition payload (line : list Token) : list Token :=
  List.filter is_number line.

(** The level of a cancelled order, after [remove_order] found it. *)
Definition cancelled_level (lv : LevelManager) (id qty : Z) : LevelManager :=
  mkLevel (price_point lv) (erase_first id (order_queue lv))
          (u64_sub (aggregate_volume lv) qty).

(** A side after one of its levels was rewritten and then cleaned up. *)
Definition evict_or_keep (side : gmap double LevelManager) (p : double)
  (lv : LevelManager) : gmap double LevelManager :=
  if is_empty lv then delete p side else <[p := lv]> side.

(** The book of [process_match] after the two decrements and the two
    [update_volume], before the filled orders are removed. *)
Definition matched_book (st : OrderBook) (bid_id ask_id : Z)
  (bid_order ask_order : Order) : OrderBook :=
  let match_qty := Z.min (quantity bid_order) (quantity ask_order) in
  mkBook
    (adjust_level (bid_levels st) (price bid_order) match_qty)
    (adjust_level (ask_levels st) (price ask_order) match_qty)
    (<[ask_id := set_quantity ask_order
                   (u64_sub (quantity ask_order) match_qty)]>
       (<[bid_id := set_quantity bid_order
                      (u64_sub (quantity bid_order) match_qty)]>
          (active_orders st)))
    (cout st ++ trade_line bid_id (price bid_order) ask_id (price ask_order)).

(** What an operation printed. *)
Definition emitted (st st' : OrderBook) : list Token :=
  drop (length (cout st)) (cout st').

(** The five values a trade notification carries according to the
    specification. *)
Definition specified_notification
  (bid_id ask_id : Z) (bid_price ask_price : double) (match_qty : Z)
  : list Token :=
  [U64 bid_id; U64 ask_id; Dbl bid_price; Dbl ask_price; U64 match_qty].

(** A price-changing amendment in the words of the specification: cancel,
    then insert an order with the same identifier, the new price and the new
    quantity. *)
Definition cancel_then_add (fuel : nat) (st : OrderBook)
  (id : Z) (new_price : double) (new_quantity : Z)
  : option (bool * OrderBook) :=
  match active_orders st !! id with
  | None => Some (false, st)
  | Some ord =>
      let '(_, st1) := cancel_order st id in
      st2 ← add_order fuel st1
              (mkOrder id (is_buy ord) new_price new_quantity
                       (timestamp_ns ord));
      Some (true, st2)
  end.

(** The order [o] does not cross the book: the best price of the opposite
    side, if there is one, is out of reach of the price of [o]. *)
Definition rests (st : OrderBook) (o : Order) : Prop :=
  if is_buy o
  then match map_begin (ask_levels st) with
       | Some (pa, _) => dlt (price o) pa
       | None => True
       end
  else match map_rbegin (bid_levels st) with
       | Some (pb, _) => dlt pb (price o)
       | None => True
       end.

Definition p51_00 : double := dbl 51 0.
Definition sell2001 : Order := mkOrder 2001 false p51_00 80 1000000003.

(** [o'] is the order [o] with no more quantity left than [o] has. *)
Definition filled_from (o o' : Order) : Prop :=
  order_id o' = order_id o ∧ is_buy o' = is_buy o ∧ price o' = price o ∧
  timestamp_ns o' = timestamp_ns o ∧ 0 ≤ quantity o' ≤ quantity o.

(** ** get_snapshot *)

Record PriceLevel : Type := mkPriceLevel {
  level_price : double;
  total_quantity : Z
}.

#[global] Instance PriceLevel_eq_dec : EqDecision PriceLevel.
Proof. solve_decision. Defined.

(** What [emplace_back] appends for the level an iterator points to. *)
Definition level_entry (e : double * LevelManager) : PriceLevel :=
  mkPriceLevel (get_price e.2) (get_volume e.2).

(** [for (iter = ...; iter != end && out.size() < depth; ++iter)
    out.emplace_back(...)], over the entries still to visit. *)
Fixpoint snapshot_loop (depth : nat) (iter : list (double * LevelManager))
  (out : list PriceLevel) : list PriceLevel :=
  match iter with
  | [] => out
  | e :: iter' =>
      if bool_decide (length out < depth)%nat
      then snapshot_loop depth iter' (out ++ [level_entry e])
      else out
  end.

(** [get_snapshot(depth, bids, asks)]: the two vectors after the call. The
    bid side is walked from [rbegin()], the ask side from [begin()]; both
    vectors are cleared first. [depth] is a [size_t] that is only compared
    with the size of a vector: a natural number. *)
Definition get_snapshot (st : OrderBook) (depth : nat)
  (bids asks : list PriceLevel) : list PriceLevel * list PriceLevel :=
  let bids := @nil PriceLevel in
  let asks := @nil PriceLevel in
  (snapshot_loop depth (reverse (map_entries (bid_levels st))) bids,
   snapshot_loop depth (map_entries (ask_levels st)) asks).

(** * Properties *)

(** A closed decidable statement is settled by evaluating its decision. *)
Ltac by_eval := apply (bool_decide_unpack _); vm_compute; exact I.

(** ** Machine arithmetic *)

Lemma u64_modulus_pos : 0 < u64_modulus.
Proof. reflexivity. Qed.

Lemma u64_sub_exact a b : is_u64 a → 0 ≤ b ≤ a → u64_sub a b = a - b.
Proof.
  unfold is_u64, u64_sub. intros Ha Hb.
  apply Z.mod_small. lia.
Qed.

Lemma u64_sub_range a b : is_u64 (u64_sub a b).
Proof. unfold is_u64, u64_sub. apply Z.mod_pos_bound, u64_modulus_pos. Qed.

Lemma mod_congr_add a b c :
  a = b mod u64_modulus → u64_add a c = (b + c) mod u64_modulus.
Proof. intros ->. unfold u64_add. apply Zplus_mod_idemp_l. Qed.

Lemma mod_congr_sub a b c :
  a = b mod u64_modulus → u64_sub a c = (b - c) mod u64_modulus.
Proof. intros ->. unfold u64_sub. apply Zminus_mod_idemp_l. Qed.

(** ** Comparing doubles *)

Lemma not_nan_Finite d : not_nan d → ∃ z, d = Num z.
Proof. destruct d as [z|]; [by exists z | done]. Qed.

Lemma dlt_not_nan a b : dlt a b → not_nan a ∧ not_nan b.
Proof. by destruct a, b. Qed.

Lemma dlt_irrefl a : ¬ dlt a a.
Proof. destruct a; simpl; lia. Qed.

Lemma dlt_trans a b c : dlt a b → dlt b c → dlt a c.
Proof. destruct a, b, c; simpl; lia || done. Qed.

Lemma dlt_asym a b : dlt a b → ¬ dlt b a.
Proof. destruct a, b; simpl; lia || done. Qed.

Lemma dlt_le_trans a b c : not_nan b → dlt a b → ¬ dlt c b → not_nan c → dlt a c.
Proof. destruct a, b, c; simpl; lia || done. Qed.

Lemma le_dlt_trans a b c : not_nan a → not_nan b → ¬ dlt b a → dlt b c → dlt a c.
Proof. destruct a, b, c; simpl; lia || done. Qed.

Lemma dlt_total a b : not_nan a → not_nan b → dlt a b ∨ a = b ∨ dlt b a.
Proof.
  destruct a as [x|], b as [y|]; simpl; try done. intros _ _.
  destruct (Z.lt_trichotomy x y) as [?|[->|?]]; auto.
Qed.

Lemma dle_antisym a b : not_nan a → not_nan b → ¬ dlt a b → ¬ dlt b a → a = b.
Proof. intros Ha Hb. destruct (dlt_total a b Ha Hb) as [?|[?|?]]; done. Qed.

Lemma dne_number a b : not_nan a → not_nan b → dne a b ↔ a ≠ b.
Proof.
  destruct a as [x|], b as [y|]; simpl; try done. intros _ _.
  split; [congruence|]. intros H ->. done.
Qed.

Lemma dle_iff a b : dle a b ↔ not_nan a ∧ not_nan b ∧ ¬ dlt b a.
Proof.
  destruct a as [x|], b as [y|]; simpl; unfold not_nan;
    (split; [intros ?|intros (? & ? & ?)]); try done;
    repeat split; try done; lia.
Qed.

Lemma dne_refl a : not_nan a → ¬ dne a a.
Proof. intros Ha. rewrite dne_number by done. auto. Qed.

Lemma dne_NaN_l b : dne NaN b.
Proof. done. Qed.

(** Comparisons of numbers are comparisons of integers. *)
Ltac dbl_lia :=
  unfold not_nan in *;
  repeat match goal with d : double |- _ => destruct d end;
  cbn [dlt dne] in *; try done; try congruence; try lia.

(** ** The ordered map *)

#[global] Instance key_le_total : Total key_le.
Proof. intros [[x|] ?] [[y|] ?]; unfold key_le; simpl; lia || tauto. Qed.

#[global] Instance key_le_trans : Transitive key_le.
Proof.
  intros [[x|] ?] [[y|] ?] [[z|] ?]; unfold key_le; simpl; try done; lia.
Qed.

Lemma map_entries_perm m : map_entries m ≡ₚ map_to_list m.
Proof. apply merge_sort_Permutation. Qed.

Lemma elem_of_map_entries m k v : (k, v) ∈ map_entries m ↔ m !! k = Some v.
Proof. by rewrite map_entries_perm, elem_of_map_to_list. Qed.

Lemma length_map_entries m : length (map_entries m) = size m.
Proof. by rewrite map_entries_perm, length_map_to_list. Qed.

Lemma map_entries_key_le m : StronglySorted key_le (map_entries m).
Proof. apply StronglySorted_merge_sort; apply _. Qed.

Lemma map_entries_NoDup m : NoDup (map_entries m).*1.
Proof. rewrite map_entries_perm. apply NoDup_fst_map_to_list. Qed.

Lemma map_entries_nil m : map_entries m = [] ↔ m = ∅.
Proof.
  split.
  - intros H. apply map_to_list_empty_iff, Permutation_nil_r.
    rewrite <- H. symmetry. apply map_entries_perm.
  - intros ->. apply Permutation_nil_r. rewrite map_entries_perm.
    by rewrite map_to_list_empty.
Qed.

Lemma map_entries_singleton k v : map_entries {[k := v]} = [(k, v)].
Proof.
  apply Permutation_singleton_r.
  by rewrite map_entries_perm, map_to_list_singleton.
Qed.

(** The entries of a map whose keys are numbers are in ascending order of
    their keys. *)
Lemma map_entries_sorted m :
  m !! NaN = None → StronglySorted (λ e e', dlt e.1 e'.1) (map_entries m).
Proof.
  intros Hm.
  assert (Hn : ∀ e, e ∈ map_entries m → not_nan e.1).
  { intros [k v] He%elem_of_map_entries. simpl. intros ->. congruence. }
  pose proof (map_entries_NoDup m) as Hnd.
  pose proof (map_entries_key_le m) as Hs.
  induction Hs as [|e l Hs IH Hall]; [constructor|].
  simpl in Hnd. apply NoDup_cons in Hnd as [He Hnd].
  constructor; [apply IH; [|done]; intros; apply Hn; by right|].
  apply Forall_forall. intros e' He'.
  rewrite Forall_forall in Hall. specialize (Hall _ He').
  assert (Hne : e.1 ≠ e'.1).
  { intros Heq. apply He. rewrite Heq. apply list_elem_of_fmap. by exists e'. }
  pose proof (Hn e (list_elem_of_here _ _)) as H1.
  pose proof (Hn e' (list_elem_of_further _ _ _ He')) as H2.
  destruct e as [[x|] ?], e' as [[y|] ?]; unfold key_le in Hall; simpl in *;
    try done.
  assert (x ≠ y) by congruence. lia.
Qed.

(** In key order no key is less than an earlier one. *)
Lemma key_le_not_dlt e e' : key_le e e' → ¬ dlt e'.1 e.1.
Proof.
  destruct e as [[x|] ?], e' as [[y|] ?]; unfold key_le; simpl; lia || tauto.
Qed.

Lemma map_begin_Some m k lv :
  map_begin m = Some (k, lv) →
  m !! k = Some lv ∧ ∀ k' lv', m !! k' = Some lv' → ¬ dlt k' k.
Proof.
  unfold map_begin. intros H.
  pose proof (map_entries_key_le m) as Hs.
  assert (Hel : ∀ k' v', m !! k' = Some v' → (k', v') ∈ map_entries m)
    by (intros; by apply elem_of_map_entries).
  destruct (map_entries m) as [|e l] eqn:Hl; [done|]. injection H as ->.
  split; [apply elem_of_map_entries; rewrite Hl; left|].
  intros k' lv' [[= -> ->]|Hin]%Hel%elem_of_cons; [apply dlt_irrefl|].
  apply StronglySorted_cons in Hs as [Hall _]. rewrite Forall_forall in Hall.
  apply (key_le_not_dlt _ _ (Hall _ Hin)).
Qed.

Lemma map_begin_None m : map_begin m = None → m = ∅.
Proof.
  unfold map_begin. intros H. apply map_entries_nil.
  by destruct (map_entries m).
Qed.

Lemma map_rbegin_Some m k lv :
  map_rbegin m = Some (k, lv) →
  m !! k = Some lv ∧ ∀ k' lv', m !! k' = Some lv' → ¬ dlt k k'.
Proof.
  unfold map_rbegin. intros H.
  pose proof (map_entries_key_le m) as Hs.
  assert (Hel : ∀ k' v', m !! k' = Some v' → (k', v') ∈ map_entries m)
    by (intros; by apply elem_of_map_entries).
  apply last_Some in H as [l' Hl].
  split.
  { apply elem_of_map_entries. rewrite Hl. apply elem_of_app. right.
    by apply list_elem_of_singleton. }
  intros k' lv' Hin%Hel. rewrite Hl in Hin, Hs.
  apply elem_of_app in Hin as [Hin|[= -> ->]%list_elem_of_singleton];
    [|apply dlt_irrefl].
  apply (key_le_not_dlt (k', lv') (k, lv)).
  apply (StronglySorted_app_1_elem_of _ _ _ _ _ Hs Hin (list_elem_of_here _ _)).
Qed.

Lemma map_rbegin_None m : map_rbegin m = None → m = ∅.
Proof.
  unfold map_rbegin. intros H. apply map_entries_nil.
  by apply last_None in H.
Qed.

Lemma map_begin_is_Some m : m ≠ ∅ → is_Some (map_begin m).
Proof.
  intros Hne. destruct (map_begin m) eqn:H; [done|].
  by apply map_begin_None in H.
Qed.

Lemma map_rbegin_is_Some m : m ≠ ∅ → is_Some (map_rbegin m).
Proof.
  intros Hne. destruct (map_rbegin m) eqn:H; [done|].
  by apply map_rbegin_None in H.
Qed.

(** A map whose keys are numbers has one entry with the least key and one
    with the greatest. *)
Lemma map_begin_min m k v :
  m !! NaN = None → m !! k = Some v →
  (∀ k' v', m !! k' = Some v' → ¬ dlt k' k) →
  map_begin m = Some (k, v).
Proof.
  intros Hn Hk Hmin.
  destruct (map_begin_is_Some m) as [[k0 v0] H0];
    [intros ->; by rewrite lookup_empty in Hk|].
  rewrite H0. apply map_begin_Some in H0 as [Hk0 Hmin0].
  assert (k0 = k) as ->.
  { apply dle_antisym; [intros ->; congruence | intros ->; congruence
                        | by eapply Hmin | by eapply Hmin0]. }
  by simplify_eq.
Qed.

Lemma map_rbegin_max m k v :
  m !! NaN = None → m !! k = Some v →
  (∀ k' v', m !! k' = Some v' → ¬ dlt k k') →
  map_rbegin m = Some (k, v).
Proof.
  intros Hn Hk Hmax.
  destruct (map_rbegin_is_Some m) as [[k0 v0] H0];
    [intros ->; by rewrite lookup_empty in Hk|].
  rewrite H0. apply map_rbegin_Some in H0 as [Hk0 Hmax0].
  assert (k0 = k) as ->.
  { apply dle_antisym; [intros ->; congruence | intros ->; congruence
                        | by eapply Hmax0 | by eapply Hmax]. }
  by simplify_eq.
Qed.

(** *** find *)

Lemma lower_bound_elem_of l k e : lower_bound l k = Some e → e ∈ l.
Proof.
  induction l as [|x l IH]; simpl; [done|].
  case_bool_decide; [by right; apply IH | intros [= ->]; left].
Qed.

(** What [find] returns is an entry of the map. *)
Lemma map_find_Some m k k' lv :
  map_find m k = Some (k', lv) → m !! k' = Some lv.
Proof.
  unfold map_find. destruct (lower_bound _ _) as [e|] eqn:He; [|done].
  case_bool_decide; [done|]. intros [= ->].
  by apply lower_bound_elem_of, elem_of_map_entries in He.
Qed.

(** [find] of a key that is in the map does not return [end()]. *)
Lemma map_find_is_Some m k : is_Some (m !! k) → is_Some (map_find m k).
Proof.
  intros [v Hv]. unfold map_find.
  pose proof (map_entries_key_le m) as Hs.
  apply elem_of_map_entries in Hv. revert Hs Hv.
  induction (map_entries m) as [|e l IH]; intros Hs Hv;
    [by apply not_elem_of_nil in Hv|].
  apply StronglySorted_cons in Hs as [Hall Hs]. rewrite Forall_forall in Hall.
  simpl. case_bool_decide as Hlt.
  - apply IH; [done|]. apply elem_of_cons in Hv as [<-|Hv]; [|done].
    by apply dlt_irrefl in Hlt.
  - case_bool_decide as Hgt; [|done]. exfalso.
    apply elem_of_cons in Hv as [<-|Hv]; [by apply dlt_irrefl in Hgt|].
    by apply (key_le_not_dlt _ _ (Hall _ Hv)).
Qed.

Lemma lower_bound_number (l : list (double * LevelManager)) k :
  StronglySorted key_le l → (∀ e, e ∈ l → not_nan e.1) → not_nan k →
  match lower_bound l k with
  | Some e => e ∈ l ∧ (dlt k e.1 → ∀ e', e' ∈ l → e'.1 ≠ k) ∧
              (¬ dlt k e.1 → e.1 = k)
  | None => ∀ e', e' ∈ l → e'.1 ≠ k
  end.
Proof.
  intros Hs Hn Hk. induction Hs as [|e l Hs IH Hall]; simpl.
  - by intros e' ?%not_elem_of_nil.
  - rewrite Forall_forall in Hall.
    assert (Hn' : ∀ e0, e0 ∈ l → not_nan e0.1) by (intros; apply Hn; by right).
    specialize (IH Hn'). case_bool_decide as Hlt.
    + assert (He : e.1 ≠ k) by (intros <-; by apply dlt_irrefl in Hlt).
      destruct (lower_bound l k) as [e0|].
      * destruct IH as (Hin & Hgt & Heq). split; [by right|]. split; [|done].
        intros Hd e' [->|He']%elem_of_cons; [done | by apply Hgt].
      * intros e' [->|He']%elem_of_cons; [done | by apply IH].
    + split; [left|]. split.
      * intros Hgt e' [->|He']%elem_of_cons.
        { intros <-. by apply dlt_irrefl in Hgt. }
        intros <-. by apply (key_le_not_dlt _ _ (Hall _ He')).
      * intros Hge. apply dle_antisym; [apply Hn; left|done..].
Qed.

(** In a map whose keys are numbers, [find] of a number is the lookup. *)
Lemma map_find_number m k :
  m !! NaN = None → not_nan k → map_find m k = pair k <$> m !! k.
Proof.
  intros Hm Hk. unfold map_find.
  assert (Hn : ∀ e, e ∈ map_entries m → not_nan e.1).
  { intros [k' v] He%elem_of_map_entries. simpl. intros ->. congruence. }
  pose proof (lower_bound_number (map_entries m) k (map_entries_key_le m)
                Hn Hk) as H.
  assert (Hnone : (∀ e', e' ∈ map_entries m → e'.1 ≠ k) → m !! k = None).
  { intros Hall. destruct (m !! k) as [v|] eqn:Hv; [|done].
    apply elem_of_map_entries in Hv. by destruct (Hall _ Hv). }
  destruct (lower_bound (map_entries m) k) as [[k' v]|].
  - destruct H as (Hin & Hgt & Heq). simpl in *. case_bool_decide as Hd.
    + by rewrite Hnone by auto.
    + specialize (Heq Hd). subst k'. apply elem_of_map_entries in Hin.
      by rewrite Hin.
  - by rewrite Hnone.
Qed.

(** [find(NaN)] returns the first entry. *)
Lemma map_find_NaN m : map_find m NaN = map_begin m.
Proof.
  unfold map_find, map_begin. destruct (map_entries m) as [|[k v] l]; [done|].
  simpl. rewrite bool_decide_eq_false_2 by (destruct k; simpl; tauto).
  by rewrite bool_decide_eq_false_2 by (simpl; tauto).
Qed.

(** In a map whose only key is NaN every [find] returns that entry. *)
Lemma map_find_singleton_NaN lv k : map_find {[NaN := lv]} k = Some (NaN, lv).
Proof.
  unfold map_find. rewrite map_entries_singleton. simpl.
  rewrite bool_decide_eq_false_2 by (simpl; tauto).
  rewrite bool_decide_eq_false_2; [done | destruct k; simpl; tauto].
Qed.

Lemma map_find_lookup m k lv :
  m !! NaN = None → m !! k = Some lv → map_find m k = Some (k, lv).
Proof.
  intros Hn Hk. rewrite map_find_number, Hk; [done..|].
  intros ->. congruence.
Qed.

Lemma map_find_empty k : map_find ∅ k = None.
Proof. unfold map_find. by rewrite (proj2 (map_entries_nil ∅)). Qed.
(** ** Queues *)

Lemma erase_first_notin id q : id ∉ q → erase_first id q = q.
Proof.
  induction q as [|x q IH]; simpl; [done|].
  intros [Hx Hq]%not_elem_of_cons. case_bool_decide; [congruence|].
  by rewrite IH.
Qed.


Lemma erase_first_sublist id q : erase_first id q `sublist_of` q.
Proof.
  induction q as [|x q IH]; simpl; [done|].
  case_bool_decide; [by apply sublist_cons | by apply sublist_skip].
Qed.

Lemma elem_of_erase_first id q x :
  NoDup q → x ∈ erase_first id q ↔ x ∈ q ∧ x ≠ id.
Proof.
  induction q as [|y q IH]; simpl; intros Hnd.
  - split; [by intros ?%not_elem_of_nil | by intros [?%not_elem_of_nil _]].
  - apply NoDup_cons in Hnd as [Hy Hnd]. case_bool_decide as Heq.
    + subst y. rewrite elem_of_cons. split.
      * intros Hx. split; [by right|]. by intros ->.
      * by intros [[->|Hx] Hne].
    + rewrite !elem_of_cons, (IH Hnd). split.
      * intros [->|[Hx Hne]]; [split; [by left|done] | split; [by right|done]].
      * intros [[->|Hx] Hne]; [by left | by right].
Qed.

Lemma NoDup_erase_first id q : NoDup q → NoDup (erase_first id q).
Proof. intros Hnd. eapply sublist_NoDup; [done | apply erase_first_sublist]. Qed.

Lemma sum_qty_app reg q1 q2 :
  sum_qty reg (q1 ++ q2) = sum_qty reg q1 + sum_qty reg q2.
Proof.
  induction q1 as [|x q1 IH]; simpl; [done|].
  fold (sum_qty reg (q1 ++ q2)) (sum_qty reg q1). lia.
Qed.

Lemma sum_qty_cons reg x q :
  sum_qty reg (x :: q) = qty_of reg x + sum_qty reg q.
Proof. done. Qed.

Lemma sum_qty_agree reg reg' q :
  (∀ x, x ∈ q → qty_of reg' x = qty_of reg x) →
  sum_qty reg' q = sum_qty reg q.
Proof.
  induction q as [|x q IH]; intros H; [done|].
  rewrite !sum_qty_cons, H, IH; [done| |by left].
  intros y Hy. apply H. by right.
Qed.

Lemma sum_qty_erase reg id q :
  NoDup q → id ∈ q →
  sum_qty reg (erase_first id q) = sum_qty reg q - qty_of reg id.
Proof.
  induction q as [|x q IH]; intros Hnd Hin; [by apply not_elem_of_nil in Hin|].
  apply NoDup_cons in Hnd as [Hx Hnd]. simpl erase_first.
  case_bool_decide as Heq.
  - subst x. rewrite sum_qty_cons. lia.
  - apply elem_of_cons in Hin as [->|Hin]; [done|].
    rewrite !sum_qty_cons, IH by done. lia.
Qed.

Lemma sum_qty_update reg id o q :
  NoDup q → id ∈ q →
  sum_qty (<[id := o]> reg) q = sum_qty reg q - qty_of reg id + quantity o.
Proof.
  induction q as [|x q IH]; intros Hnd Hin; [by apply not_elem_of_nil in Hin|].
  apply NoDup_cons in Hnd as [Hx Hnd]. rewrite !sum_qty_cons.
  apply elem_of_cons in Hin as [->|Hin].
  - rewrite (sum_qty_agree reg (<[x := o]> reg) q).
    + unfold qty_of at 1. rewrite lookup_insert_eq. simpl. lia.
    + intros y Hy. unfold qty_of. rewrite lookup_insert_ne; [done|].
      by intros ->.
  - rewrite IH by done. unfold qty_of at 1.
    rewrite lookup_insert_ne by (by intros ->).
    fold (qty_of reg x). lia.
Qed.

Lemma qty_of_insert_ne reg id o x :
  x ≠ id → qty_of (<[id := o]> reg) x = qty_of reg x.
Proof. intros H. unfold qty_of. by rewrite lookup_insert_ne. Qed.

Lemma qty_of_delete_ne reg id x :
  x ≠ id → qty_of (delete id reg) x = qty_of reg x.
Proof. intros H. unfold qty_of. by rewrite lookup_delete_ne. Qed.

Lemma sum_qty_insert_notin reg id o q :
  id ∉ q → sum_qty (<[id := o]> reg) q = sum_qty reg q.
Proof.
  intros H. apply sum_qty_agree. intros x Hx.
  apply qty_of_insert_ne. by intros ->.
Qed.

Lemma sum_qty_delete_notin reg id q :
  id ∉ q → sum_qty (delete id reg) q = sum_qty reg q.
Proof.
  intros H. apply sum_qty_agree. intros x Hx.
  apply qty_of_delete_ne. by intros ->.
Qed.

(** ** Reading a book after an update *)

Lemma fetch_side_set_side st b b' side :
  fetch_side (set_side st b side) b' = if bool_decide (b = b') then side
                                       else fetch_side st b'.
Proof. by destruct b, b'. Qed.

Lemma fetch_side_set_orders st reg b :
  fetch_side (set_orders st reg) b = fetch_side st b.
Proof. by destruct b. Qed.

Lemma fetch_side_print st line b : fetch_side (print st line) b = fetch_side st b.
Proof. by destruct b. Qed.

Lemma active_orders_set_side st b side :
  active_orders (set_side st b side) = active_orders st.
Proof. by destruct b. Qed.

Lemma cout_set_side st b side : cout (set_side st b side) = cout st.
Proof. by destruct b. Qed.

Lemma set_side_fetch_side st b : set_side st b (fetch_side st b) = st.
Proof. by destruct st, b. Qed.

(** Consistency does not look at the output. *)
Lemma consistent_ext st st' :
  (∀ b, fetch_side st' b = fetch_side st b) →
  active_orders st' = active_orders st →
  consistent st → consistent st'.
Proof.
  intros Hs Hr [H0 H1 H2 H3 H4]. split.
  - intros b p lv. rewrite Hs. apply H0.
  - intros id o. rewrite Hr. apply H1.
  - intros b p lv. rewrite Hs, Hr. apply H2.
  - intros b p lv id. rewrite Hs, Hr. apply H3.
  - intros id o. rewrite Hr. intros Ho. rewrite Hs. by apply H4.
Qed.

Lemma consistent_empty : consistent empty_book.
Proof.
  split.
  - intros [] p lv H; simpl in H; by rewrite lookup_empty in H.
  - intros id o H. simpl in H. by rewrite lookup_empty in H.
  - intros [] p lv H; simpl in H; by rewrite lookup_empty in H.
  - intros [] p lv id H; simpl in H; by rewrite lookup_empty in H.
  - intros id o H. simpl in H. by rewrite lookup_empty in H.
Qed.

(** In a consistent book an identifier rests in one level only. *)
Lemma consistent_where st b p lv id o :
  consistent st → fetch_side st b !! p = Some lv → id ∈ order_queue lv →
  active_orders st !! id = Some o → b = is_buy o ∧ p = price o.
Proof.
  intros Hc Hlv Hin Ho.
  destruct (cons_queue _ Hc _ _ _ _ Hlv Hin) as (o' & Ho' & <- & <-).
  by simplify_eq.
Qed.

(** In a consistent book every [find] of a number is a lookup. *)
Lemma consistent_nan_free st b : consistent st → fetch_side st b !! NaN = None.
Proof.
  intros Hc. destruct (fetch_side st b !! NaN) as [lv|] eqn:H; [|done].
  by destruct (cons_key _ Hc _ _ _ H).
Qed.

Lemma consistent_find st b p :
  consistent st → not_nan p →
  map_find (fetch_side st b) p = pair p <$> fetch_side st b !! p.
Proof. intros Hc Hp. by apply map_find_number; [apply consistent_nan_free|]. Qed.

Lemma consistent_price st id o :
  consistent st → active_orders st !! id = Some o → not_nan (price o).
Proof.
  intros Hc Ho. destruct (cons_order _ Hc _ _ Ho) as (lv & Hlv & _).
  by apply (cons_key _ Hc _ _ _ Hlv).
Qed.

(** ** cancel_order *)

Lemma cleanup_level_insert side p lv :
  side !! NaN = None → not_nan p →
  cleanup_level (<[p := lv]> side) p = evict_or_keep side p lv.
Proof.
  intros Hn Hp. unfold cleanup_level, evict_or_keep.
  rewrite map_find_number, lookup_insert_eq;
    [|by rewrite lookup_insert_ne|done]. simpl.
  destruct (is_empty lv); [apply delete_insert_eq | done].
Qed.

Lemma evict_or_keep_lookup side p lv p' :
  evict_or_keep side p lv !! p' =
    if bool_decide (p = p')
    then (if is_empty lv then None else Some lv)
    else side !! p'.
Proof.
  unfold evict_or_keep. case_bool_decide as Hp.
  - subst p'. destruct (is_empty lv);
      [apply lookup_delete_eq | apply lookup_insert_eq].
  - destruct (is_empty lv);
      [by apply lookup_delete_ne | by apply lookup_insert_ne].
Qed.

Lemma cancel_order_unknown st id :
  active_orders st !! id = None → cancel_order st id = (false, st).
Proof. intros H. unfold cancel_order. by rewrite H. Qed.

Lemma cancel_order_found st id o lv :
  fetch_side st (is_buy o) !! NaN = None →
  active_orders st !! id = Some o →
  fetch_side st (is_buy o) !! price o = Some lv →
  id ∈ order_queue lv →
  cancel_order st id =
    (true,
     set_orders
       (set_side st (is_buy o)
          (evict_or_keep (fetch_side st (is_buy o)) (price o)
             (cancelled_level lv id (quantity o))))
       (delete id (active_orders st))).
Proof.
  intros Hn Ho Hlv Hin. unfold cancel_order. rewrite Ho. cbv zeta.
  assert (Hp : not_nan (price o)) by (intros Hp; rewrite Hp in Hlv; congruence).
  rewrite (map_find_lookup _ _ _ Hn Hlv).
  rewrite cleanup_level_insert by done.
  unfold remove_order. by rewrite bool_decide_eq_true_2.
Qed.

Lemma cancel_order_active st id o lv :
  consistent st →
  active_orders st !! id = Some o →
  fetch_side st (is_buy o) !! price o = Some lv →
  id ∈ order_queue lv →
  cancel_order st id =
    (true,
     set_orders
       (set_side st (is_buy o)
          (evict_or_keep (fetch_side st (is_buy o)) (price o)
             (cancelled_level lv id (quantity o))))
       (delete id (active_orders st))).
Proof. intros Hc. by apply cancel_order_found, consistent_nan_free. Qed.

Lemma cancel_order_cout st id : cout (cancel_order st id).2 = cout st.
Proof.
  unfold cancel_order. destruct (active_orders st !! id) as [o|]; [|done].
  cbn [snd]. rewrite <- (cout_set_side st (is_buy o) (fetch_side st (is_buy o))).
  by destruct (is_buy o).
Qed.

Lemma is_empty_nil lv : is_empty lv = true ↔ order_queue lv = [].
Proof. unfold is_empty. by destruct (order_queue lv). Qed.

Lemma consistent_cancel st id :
  consistent st → consistent (cancel_order st id).2.
Proof.
  intros Hc. destruct (active_orders st !! id) as [o|] eqn:Ho;
    [|by rewrite cancel_order_unknown].
  destruct (cons_order _ Hc _ _ Ho) as (lv & Hlv & Hin).
  destruct (cons_level _ Hc _ _ _ Hlv) as (Hpp & Hne & Hnd & Hagg).
  rewrite (cancel_order_active _ _ _ _ Hc Ho Hlv Hin). cbn [snd].
  set (lv' := cancelled_level lv id (quantity o)).
  set (st' := set_orders _ _).
  assert (Hreg : active_orders st' = delete id (active_orders st)) by done.
  assert (Hside : ∀ b p, fetch_side st' b !! p =
            if bool_decide (is_buy o = b)
            then (if bool_decide (price o = p)
                  then (if is_empty lv' then None else Some lv')
                  else fetch_side st b !! p)
            else fetch_side st b !! p).
  { intros b p. unfold st'. rewrite fetch_side_set_orders, fetch_side_set_side.
    case_bool_decide as Hb; [|done]. subst b. apply evict_or_keep_lookup. }
  assert (Hkeep : ∀ b p lv0, fetch_side st' b !! p = Some lv0 →
            (b = is_buy o ∧ p = price o ∧ lv0 = lv' ∧ order_queue lv' ≠ []) ∨
            ((b, p) ≠ (is_buy o, price o) ∧ fetch_side st b !! p = Some lv0)).
  { intros b p lv0. rewrite Hside. repeat case_bool_decide; subst.
    - destruct (is_empty lv') eqn:He; [done|]. intros [= <-]. left.
      repeat split; try done. intros Hq. apply is_empty_nil in Hq. congruence.
    - intros Hl. right. split; [congruence|done].
    - intros Hl. right. split; [congruence|done]. }
  assert (Hother : ∀ b p lv0, (b, p) ≠ (is_buy o, price o) →
            fetch_side st b !! p = Some lv0 → id ∉ order_queue lv0).
  { intros b p lv0 Hne' Hlv0 Hin0.
    destruct (consistent_where _ _ _ _ _ _ Hc Hlv0 Hin0 Ho) as [-> ->]. done. }
  split.
  - intros b p lv0 Hlv0.
    destruct (Hkeep _ _ _ Hlv0) as [(-> & -> & -> & Hq)|[Hne' Hold]];
      by eapply (cons_key _ Hc).
  - intros id' o'. rewrite Hreg. intros [_ H]%lookup_delete_Some.
    by apply (cons_reg _ Hc).
  - intros b p lv0 Hlv0. rewrite Hreg.
    destruct (Hkeep _ _ _ Hlv0) as [(-> & -> & -> & Hq)|[Hne' Hold]].
    + repeat split; [done|done|by apply NoDup_erase_first|].
      unfold lv' at 1. cbn [aggregate_volume cancelled_level].
      rewrite (mod_congr_sub _ _ _ Hagg). f_equal.
      unfold lv'. cbn [order_queue cancelled_level].
      rewrite sum_qty_delete_notin.
      * rewrite sum_qty_erase by done. unfold qty_of. by rewrite Ho.
      * rewrite elem_of_erase_first by done. by intros [_ ?].
    + destruct (cons_level _ Hc _ _ _ Hold) as (? & ? & ? & Ha).
      repeat split; try done. rewrite Ha. f_equal. symmetry.
      apply sum_qty_delete_notin. by eapply Hother.
  - intros b p lv0 id' Hlv0 Hin'. rewrite Hreg.
    destruct (Hkeep _ _ _ Hlv0) as [(-> & -> & -> & Hq)|[Hne' Hold]].
    + unfold lv' in Hin'. cbn [order_queue cancelled_level] in Hin'.
      apply elem_of_erase_first in Hin' as [Hin' Hid]; [|done].
      destruct (cons_queue _ Hc _ _ _ _ Hlv Hin') as (o' & Ho' & ? & ?).
      exists o'. by rewrite lookup_delete_ne.
    + destruct (cons_queue _ Hc _ _ _ _ Hold Hin') as (o' & Ho' & ? & ?).
      exists o'. rewrite lookup_delete_ne; [done|].
      intros <-. by eapply Hother.
  - intros id' o'. rewrite Hreg. intros [Hid Ho']%lookup_delete_Some.
    destruct (cons_order _ Hc _ _ Ho') as (lv0 & Hlv0 & Hin0).
    destruct (decide ((is_buy o', price o') = (is_buy o, price o)))
      as [[= Hb Hp]|Hne'].
    + rewrite Hb, Hp in *. assert (lv0 = lv) as -> by congruence.
      assert (Hin1 : id' ∈ order_queue lv').
      { unfold lv'. cbn [order_queue cancelled_level].
        apply elem_of_erase_first; [done|]. split; [done|congruence]. }
      exists lv'. split; [|done]. rewrite Hside.
      rewrite !bool_decide_eq_true_2 by done.
      destruct (is_empty lv') eqn:He; [|done].
      apply is_empty_nil in He. rewrite He in Hin1.
      by apply not_elem_of_nil in Hin1.
    + exists lv0. split; [|done]. rewrite Hside.
      repeat case_bool_decide; try done. congruence.
Qed.

(** ** Changing the quantity of a resting order in place *)

Lemma update_volume_mod lv old_qty new_qty s :
  aggregate_volume lv = s mod u64_modulus →
  aggregate_volume (update_volume lv old_qty new_qty)
    = (s - old_qty + new_qty) mod u64_modulus.
Proof.
  intros Ha. cbn [update_volume aggregate_volume].
  by rewrite (mod_congr_add _ (s - old_qty) _ (mod_congr_sub _ _ _ Ha)).
Qed.

(** A book [st'] that differs from a consistent [st] by the quantity of the
    order [id] and by the aggregate of its level is consistent. *)
Lemma consistent_requantify st st' id o lv lv' nq :
  consistent st →
  active_orders st !! id = Some o →
  fetch_side st (is_buy o) !! price o = Some lv →
  is_u64 nq →
  price_point lv' = price_point lv →
  order_queue lv' = order_queue lv →
  aggregate_volume lv'
    = (sum_qty (active_orders st) (order_queue lv) - quantity o + nq)
        mod u64_modulus →
  (∀ b, fetch_side st' b =
          if bool_decide (is_buy o = b)
          then <[price o := lv']> (fetch_side st b) else fetch_side st b) →
  active_orders st' = <[id := set_quantity o nq]> (active_orders st) →
  consistent st'.
Proof.
  intros Hc Ho Hlv Hnq Hpp Hq Hagg Hside Hreg.
  destruct (cons_order _ Hc _ _ Ho) as (lv0 & Hlv0 & Hin).
  assert (lv0 = lv) as -> by congruence.
  destruct (cons_level _ Hc _ _ _ Hlv) as (Hp & Hne & Hnd & _).
  assert (Hkeep : ∀ b p l, fetch_side st' b !! p = Some l →
            (b = is_buy o ∧ p = price o ∧ l = lv') ∨
            ((b, p) ≠ (is_buy o, price o) ∧ fetch_side st b !! p = Some l)).
  { intros b p l. rewrite Hside. case_bool_decide as Hb.
    - subst b. intros [[<- <-]|[Hpn Hl]]%lookup_insert_Some; [by left|].
      right. split; [congruence|done].
    - intros Hl. right. split; [congruence|done]. }
  assert (Hother : ∀ b p l, (b, p) ≠ (is_buy o, price o) →
            fetch_side st b !! p = Some l → id ∉ order_queue l).
  { intros b p l Hne' Hl Hin0.
    destruct (consistent_where _ _ _ _ _ _ Hc Hl Hin0 Ho) as [-> ->]. done. }
  split.
  - intros b p l Hl.
    destruct (Hkeep _ _ _ Hl) as [(-> & -> & ->)|[Hne' Hold]];
      by eapply (cons_key _ Hc).
  - intros id' o'. rewrite Hreg.
    intros [[<- <-]|[Hid Ho']]%lookup_insert_Some.
    + split; [apply (cons_reg _ Hc _ _ Ho) | done].
    + by apply (cons_reg _ Hc).
  - intros b p l Hl. rewrite Hreg.
    destruct (Hkeep _ _ _ Hl) as [(-> & -> & ->)|[Hne' Hold]].
    + rewrite Hpp, Hq. repeat split; try done.
      rewrite Hagg. f_equal. rewrite sum_qty_update by done.
      unfold qty_of. by rewrite Ho.
    + destruct (cons_level _ Hc _ _ _ Hold) as (? & ? & ? & Ha).
      repeat split; try done. rewrite Ha. f_equal. symmetry.
      apply sum_qty_insert_notin. by eapply Hother.
  - intros b p l id' Hl Hin'. rewrite Hreg.
    assert (∃ o', active_orders st !! id' = Some o' ∧ is_buy o' = b ∧
                  price o' = p) as (o' & Ho' & Hb' & Hp').
    { destruct (Hkeep _ _ _ Hl) as [(-> & -> & ->)|[Hne' Hold]].
      - rewrite Hq in Hin'. by apply (cons_queue _ Hc _ _ _ _ Hlv).
      - by apply (cons_queue _ Hc _ _ _ _ Hold). }
    destruct (decide (id' = id)) as [->|Hid].
    + exists (set_quantity o nq). rewrite lookup_insert_eq.
      assert (o' = o) as -> by congruence. done.
    + exists o'. by rewrite lookup_insert_ne.
  - intros id' o'. rewrite Hreg.
    assert (Hl' : fetch_side st' (is_buy o) !! price o = Some lv').
    { rewrite Hside, bool_decide_eq_true_2 by done. apply lookup_insert_eq. }
    intros [[<- <-]|[Hid Ho']]%lookup_insert_Some.
    + exists lv'. split; [done|]. by rewrite Hq.
    + destruct (cons_order _ Hc _ _ Ho') as (l & Hl & Hinl).
      destruct (decide ((is_buy o', price o') = (is_buy o, price o)))
        as [[= Hb Hp']|Hne'].
      * rewrite Hb, Hp' in *. assert (l = lv) as -> by congruence.
        exists lv'. split; [done|]. by rewrite Hq.
      * exists l. split; [|done]. rewrite Hside. case_bool_decide; [|done].
        rewrite lookup_insert_ne; [done|]. congruence.
Qed.

(** ** Enqueueing a new order *)

Lemma enqueue_side st o b :
  consistent st → not_nan (price o) →
  fetch_side (enqueue st o) b =
    if bool_decide (is_buy o = b)
    then <[price o :=
             push_order (default (new_level (price o))
                                 (fetch_side st b !! price o))
                        (order_id o) (quantity o)]> (fetch_side st b)
    else fetch_side st b.
Proof.
  intros Hc Hp. unfold enqueue, get_or_create_level.
  rewrite consistent_find by done.
  case_bool_decide as Hb.
  - subst b. destruct (fetch_side st (is_buy o) !! price o) eqn:Hl;
      cbn [fmap option_fmap option_map];
      rewrite fetch_side_set_orders, fetch_side_set_side,
        bool_decide_eq_true_2 by done; simpl; [done|].
    apply insert_insert_eq.
  - destruct (fetch_side st (is_buy o) !! price o);
      cbn [fmap option_fmap option_map];
      by rewrite fetch_side_set_orders, fetch_side_set_side,
        bool_decide_eq_false_2.
Qed.

Lemma enqueue_orders st o :
  active_orders (enqueue st o) = <[order_id o := o]> (active_orders st).
Proof.
  unfold enqueue, get_or_create_level.
  by destruct (map_find _ _) as [[??]|], (is_buy o).
Qed.

Lemma enqueue_cout st o : cout (enqueue st o) = cout st.
Proof.
  unfold enqueue, get_or_create_level.
  by destruct (map_find _ _) as [[??]|], (is_buy o).
Qed.

Lemma consistent_fresh st b p lv id :
  consistent st → active_orders st !! id = None →
  fetch_side st b !! p = Some lv → id ∉ order_queue lv.
Proof.
  intros Hc Hid Hlv Hin.
  destruct (cons_queue _ Hc _ _ _ _ Hlv Hin) as (o & Ho & _). congruence.
Qed.

Lemma consistent_enqueue st o :
  consistent st → active_orders st !! order_id o = None →
  is_u64 (quantity o) → not_nan (price o) → consistent (enqueue st o).
Proof.
  intros Hc Hid Hq Hnum.
  set (lv0 := default (new_level (price o))
                (fetch_side st (is_buy o) !! price o)).
  set (lv' := push_order lv0 (order_id o) (quantity o)).
  assert (Hlv0 : price_point lv0 = price o ∧ NoDup (order_queue lv0) ∧
            (order_id o ∉ order_queue lv0) ∧
            aggregate_volume lv0 = sum_qty (active_orders st) (order_queue lv0)
                                     mod u64_modulus ∧
            ∀ x, x ∈ order_queue lv0 →
                 fetch_side st (is_buy o) !! price o = Some lv0).
  { unfold lv0. destruct (fetch_side st (is_buy o) !! price o) as [l|] eqn:Hl.
    - destruct (cons_level _ Hc _ _ _ Hl) as (? & ? & ? & ?). simpl.
      repeat split; try done. by eapply consistent_fresh.
    - simpl. repeat split; try done; [apply NoDup_nil_2|apply not_elem_of_nil|].
      by intros x ?%not_elem_of_nil. }
  destruct Hlv0 as (Hpp & Hnd & Hnotin & Hagg & Hwas).
  assert (Hkeep : ∀ b p l, fetch_side (enqueue st o) b !! p = Some l →
            (b = is_buy o ∧ p = price o ∧ l = lv') ∨
            ((b, p) ≠ (is_buy o, price o) ∧ fetch_side st b !! p = Some l)).
  { intros b p l. rewrite enqueue_side by done. case_bool_decide as Hb.
    - subst b. intros [[<- <-]|[Hpn Hl]]%lookup_insert_Some; [by left|].
      right. split; [congruence|done].
    - intros Hl. right. split; [congruence|done]. }
  split.
  - intros b p l Hl.
    destruct (Hkeep _ _ _ Hl) as [(-> & -> & ->)|[Hne' Hold]];
      [done | by eapply (cons_key _ Hc)].
  - intros id' o'. rewrite enqueue_orders.
    intros [[<- <-]|[Hne Ho']]%lookup_insert_Some; [done|].
    by apply (cons_reg _ Hc).
  - intros b p l Hl. rewrite enqueue_orders.
    destruct (Hkeep _ _ _ Hl) as [(-> & -> & ->)|[Hne' Hold]].
    + unfold lv'. cbn [push_order price_point order_queue aggregate_volume].
      repeat split; [done|by destruct (order_queue lv0)| |].
      * apply NoDup_app. repeat split; [done| |apply NoDup_singleton].
        intros x Hx ->%list_elem_of_singleton. done.
      * rewrite (mod_congr_add _ _ _ Hagg). f_equal.
        rewrite sum_qty_app, sum_qty_insert_notin by done.
        rewrite sum_qty_cons. unfold qty_of. rewrite lookup_insert_eq.
        simpl. lia.
    + destruct (cons_level _ Hc _ _ _ Hold) as (? & ? & ? & Ha).
      repeat split; try done. rewrite Ha. f_equal. symmetry.
      apply sum_qty_insert_notin. by eapply consistent_fresh.
  - intros b p l id' Hl Hin'. rewrite enqueue_orders.
    destruct (Hkeep _ _ _ Hl) as [(-> & -> & ->)|[Hne' Hold]].
    + unfold lv' in Hin'. cbn [push_order order_queue] in Hin'.
      apply elem_of_app in Hin' as [Hin'| ->%list_elem_of_singleton].
      * destruct (cons_queue _ Hc _ _ _ _ (Hwas _ Hin') Hin')
          as (o' & Ho' & ? & ?).
        exists o'. rewrite lookup_insert_ne; [done|]. congruence.
      * exists o. by rewrite lookup_insert_eq.
    + destruct (cons_queue _ Hc _ _ _ _ Hold Hin') as (o' & Ho' & ? & ?).
      exists o'. rewrite lookup_insert_ne; [done|]. congruence.
  - intros id' o'. rewrite enqueue_orders.
    assert (Hl' : fetch_side (enqueue st o) (is_buy o) !! price o = Some lv').
    { rewrite enqueue_side, bool_decide_eq_true_2 by done.
      apply lookup_insert_eq. }
    intros [[<- <-]|[Hne Ho']]%lookup_insert_Some.
    + exists lv'. split; [done|]. unfold lv'. cbn [push_order order_queue].
      apply elem_of_app. right. by apply list_elem_of_singleton.
    + destruct (cons_order _ Hc _ _ Ho') as (l & Hl & Hinl).
      destruct (decide ((is_buy o', price o') = (is_buy o, price o)))
        as [[= Hb Hp']|Hne'].
      * rewrite Hb, Hp' in *. exists lv'. split; [done|].
        unfold lv', lv0. rewrite Hl. cbn [push_order order_queue default].
        apply elem_of_app. by left.
      * exists l. split; [|done]. rewrite enqueue_side by done.
        case_bool_decide; [|done].
        rewrite lookup_insert_ne; [done|]. congruence.
Qed.

(** ** process_match *)

Lemma process_match_unfold st bid_id ask_id bo ao :
  active_orders st !! bid_id = Some bo →
  active_orders st !! ask_id = Some ao →
  bid_id ≠ ask_id →
  process_match st bid_id ask_id =
    let m := Z.min (quantity bo) (quantity ao) in
    let mid := matched_book st bid_id ask_id bo ao in
    let st3 := if bool_decide (u64_sub (quantity bo) m = 0)
               then (cancel_order mid bid_id).2 else mid in
    if bool_decide (u64_sub (quantity ao) m = 0)
    then (cancel_order st3 ask_id).2 else st3.
Proof.
  intros Hb Ha Hne. unfold process_match. rewrite Hb, Ha. cbn zeta.
  cbn [print active_orders]. rewrite lookup_insert_ne, Ha by done.
  rewrite lookup_insert_eq.
  rewrite lookup_insert_ne, lookup_insert_eq by done.
  reflexivity.
Qed.

Lemma process_match_missing st bid_id ask_id :
  active_orders st !! bid_id = None ∨ active_orders st !! ask_id = None →
  process_match st bid_id ask_id = st.
Proof.
  unfold process_match. intros [->| ->]; [done|].
  by destruct (active_orders st !! bid_id).
Qed.

Lemma cancel_order_orders st id :
  active_orders (cancel_order st id).2 = delete id (active_orders st).
Proof.
  unfold cancel_order. destruct (active_orders st !! id) as [o|] eqn:Ho.
  - by destruct (is_buy o).
  - simpl. symmetry. by apply delete_id.
Qed.

Section match_one.
Variables (st : OrderBook) (bid_id ask_id : Z) (bo ao : Order).
Variables (bl al : LevelManager).
Hypothesis Hc : consistent st.
Hypothesis Hbl : bid_levels st !! price bo = Some bl.
Hypothesis Hal : ask_levels st !! price ao = Some al.
Hypothesis Hbo : active_orders st !! bid_id = Some bo.
Hypothesis Hao : active_orders st !! ask_id = Some ao.
Hypothesis Hbuy : is_buy bo = true.
Hypothesis Hsell : is_buy ao = false.

Let m := Z.min (quantity bo) (quantity ao).

Lemma match_ids_differ : bid_id ≠ ask_id.
Proof using Hbo Hao Hbuy Hsell. intros ->. congruence. Qed.

Lemma match_qty_bounds :
  0 ≤ m ≤ quantity bo ∧ 0 ≤ m ≤ quantity ao.
Proof using Hc Hbo Hao.
  destruct (cons_reg _ Hc _ _ Hbo) as [_ Hqb].
  destruct (cons_reg _ Hc _ _ Hao) as [_ Hqa].
  unfold is_u64 in *. unfold m. lia.
Qed.

Lemma consistent_matched_book :
  consistent (matched_book st bid_id ask_id bo ao).
Proof using All.
  destruct (cons_reg _ Hc _ _ Hbo) as [_ Hqb].
  destruct (cons_reg _ Hc _ _ Hao) as [_ Hqa].
  destruct match_qty_bounds as [Hmb Hma].
  destruct (cons_level _ Hc true _ _ Hbl) as (_ & _ & _ & Haggb).
  destruct (cons_level _ Hc false _ _ Hal) as (_ & _ & _ & Hagga).
  pose proof match_ids_differ as Hne.
  set (reg1 := <[bid_id := set_quantity bo (u64_sub (quantity bo) m)]>
                 (active_orders st)).
  set (st1 := mkBook (adjust_level (bid_levels st) (price bo) m)
                     (ask_levels st) reg1 (cout st)).
  assert (Hc1 : consistent st1).
  { apply (consistent_requantify st st1 bid_id bo bl
             (update_volume bl m 0) (u64_sub (quantity bo) m)); try done.
    - by rewrite Hbuy.
    - apply u64_sub_range.
    - rewrite (update_volume_mod _ _ _ _ Haggb). f_equal.
      rewrite u64_sub_exact by done. lia.
    - intros []; rewrite Hbuy; simpl; [|done].
      unfold adjust_level.
      by rewrite (map_find_lookup (bid_levels st) _ _
                  (consistent_nan_free _ true Hc) Hbl). }
  apply (consistent_requantify st1 _ ask_id ao al
           (update_volume al m 0) (u64_sub (quantity ao) m)); try done.
  - simpl. unfold reg1. by rewrite lookup_insert_ne.
  - by rewrite Hsell.
  - apply u64_sub_range.
  - rewrite (update_volume_mod _ _ _ _ Hagga).
    cbn [active_orders st1]. unfold reg1. rewrite sum_qty_insert_notin.
    + rewrite u64_sub_exact by done. f_equal. lia.
    + intros Hin.
      destruct (consistent_where st false _ _ _ _ Hc Hal Hin Hbo). congruence.
  - intros []; rewrite Hsell; simpl; [done|].
    unfold adjust_level.
    by rewrite (map_find_lookup (ask_levels st) _ _
                (consistent_nan_free _ false Hc) Hal).
Qed.

Lemma consistent_process_match :
  consistent (process_match st bid_id ask_id).
Proof using All.
  rewrite (process_match_unfold _ _ _ _ _ Hbo Hao match_ids_differ).
  cbn zeta. pose proof consistent_matched_book as Hmid.
  repeat case_bool_decide; repeat apply consistent_cancel; done.
Qed.

Lemma process_match_orders :
  ∃ gone_bid gone_ask : bool,
    (gone_bid = true ∨ gone_ask = true) ∧
    (gone_bid = true ↔ quantity bo ≤ quantity ao) ∧
    (gone_ask = true ↔ quantity ao ≤ quantity bo) ∧
    active_orders (process_match st bid_id ask_id) =
      (if gone_ask then delete ask_id else id)
        ((if gone_bid then delete bid_id else id)
           (active_orders (matched_book st bid_id ask_id bo ao))).
Proof using All.
  destruct (cons_reg _ Hc _ _ Hbo) as [_ Hqb].
  destruct (cons_reg _ Hc _ _ Hao) as [_ Hqa].
  destruct match_qty_bounds as [Hmb Hma].
  rewrite (process_match_unfold _ _ _ _ _ Hbo Hao match_ids_differ).
  cbn zeta. fold m. rewrite !u64_sub_exact by done.
  exists (bool_decide (quantity bo - m = 0)),
         (bool_decide (quantity ao - m = 0)).
  rewrite !bool_decide_eq_true. unfold m.
  split; [lia|]. split; [lia|]. split; [lia|].
  repeat case_bool_decide; by rewrite ?cancel_order_orders.
Qed.

Lemma process_match_size :
  (size (active_orders (process_match st bid_id ask_id))
     < size (active_orders st))%nat.
Proof using All.
  destruct process_match_orders as (gb & ga & Hone & _ & _ & ->).
  pose proof match_ids_differ as Hne.
  set (reg2 := active_orders (matched_book st bid_id ask_id bo ao)).
  assert (Hsz : size reg2 = size (active_orders st)).
  { unfold reg2, matched_book. cbn [active_orders].
    rewrite !map_size_insert_Some; [done|by eexists|].
    rewrite lookup_insert_ne by done. by eexists. }
  assert (Hb2 : is_Some (reg2 !! bid_id)).
  { unfold reg2, matched_book. cbn [active_orders].
    rewrite lookup_insert_ne, lookup_insert_eq by done. by eexists. }
  assert (Ha2 : is_Some (reg2 !! ask_id)).
  { unfold reg2, matched_book. cbn [active_orders].
    rewrite lookup_insert_eq. by eexists. }
  rewrite <- Hsz.
  destruct gb, ga; simpl.
  - eapply Nat.le_lt_trans;
      [apply map_subseteq_size, delete_subseteq
      |by apply map_subset_size, delete_subset].
  - by apply map_subset_size, delete_subset.
  - by apply map_subset_size, delete_subset.
  - by destruct Hone.
Qed.
End match_one.

(** ** One iteration of the matching loop *)

Lemma match_step_Some st st' :
  consistent st → match_step st = Some st' →
  ∃ pb bl bid bq pa al ask aq bo ao,
    map_rbegin (bid_levels st) = Some (pb, bl) ∧ order_queue bl = bid :: bq ∧
    map_begin (ask_levels st) = Some (pa, al) ∧ order_queue al = ask :: aq ∧
    bid_levels st !! pb = Some bl ∧ ask_levels st !! pa = Some al ∧
    active_orders st !! bid = Some bo ∧ is_buy bo = true ∧ price bo = pb ∧
    active_orders st !! ask = Some ao ∧ is_buy ao = false ∧ price ao = pa ∧
    ¬ dlt pb pa ∧ st' = process_match st bid ask.
Proof.
  intros Hc. unfold match_step.
  destruct (map_rbegin (bid_levels st)) as [[pb bl]|] eqn:Hb; [|done].
  destruct (map_begin (ask_levels st)) as [[pa al]|] eqn:Ha; [|done].
  destruct (map_rbegin_Some _ _ _ Hb) as [Hbl _].
  destruct (map_begin_Some _ _ _ Ha) as [Hal _].
  destruct (cons_level _ Hc true _ _ Hbl) as (Hpb & _).
  destruct (cons_level _ Hc false _ _ Hal) as (Hpa & _).
  unfold get_price, get_orders. rewrite Hpb, Hpa.
  case_bool_decide as Hlt; [done|].
  destruct (order_queue bl) as [|bid bq] eqn:Hbq; [done|].
  destruct (order_queue al) as [|ask aq] eqn:Haq; [done|].
  intros [= <-].
  destruct (cons_queue _ Hc true pb bl bid) as (bo & Hbo & ? & ?);
    [done|rewrite Hbq; by left|].
  destruct (cons_queue _ Hc false pa al ask) as (ao & Hao & ? & ?);
    [done|rewrite Haq; by left|].
  exists pb, bl, bid, bq, pa, al, ask, aq, bo, ao.
  repeat split; done.
Qed.

(** Why the loop stops: a side is empty, or the best prices do not cross.
    The guard on an empty queue never fires in a consistent book. *)
Lemma match_step_None st :
  consistent st → match_step st = None →
  bid_levels st = ∅ ∨ ask_levels st = ∅ ∨
  ∃ pb bl pa al,
    map_rbegin (bid_levels st) = Some (pb, bl) ∧
    map_begin (ask_levels st) = Some (pa, al) ∧
    dlt (get_price bl) (get_price al) ∧ dlt pb pa.
Proof.
  intros Hc. unfold match_step.
  destruct (map_rbegin (bid_levels st)) as [[pb bl]|] eqn:Hb;
    [|intros _; left; by apply map_rbegin_None].
  destruct (map_begin (ask_levels st)) as [[pa al]|] eqn:Ha;
    [|intros _; right; left; by apply map_begin_None].
  destruct (map_rbegin_Some _ _ _ Hb) as [Hbl _].
  destruct (map_begin_Some _ _ _ Ha) as [Hal _].
  destruct (cons_level _ Hc true _ _ Hbl) as (Hpb & Hbne & _).
  destruct (cons_level _ Hc false _ _ Hal) as (Hpa & Hane & _).
  case_bool_decide as Hlt.
  - intros _. right. right. exists pb, bl, pa, al.
    repeat split; try done. unfold get_price in Hlt. by rewrite Hpb, Hpa in Hlt.
  - unfold get_orders.
    destruct (order_queue bl); [done|]. by destruct (order_queue al).
Qed.

Lemma match_step_None_uncrossed st :
  consistent st → match_step st = None → uncrossed st.
Proof.
  intros Hc Hstep pb lb pa la Hlb Hla.
  destruct (match_step_None _ Hc Hstep)
    as [He|[He|(pb' & bl & pa' & al & Hb & Ha & _ & Hlt)]].
  - rewrite He in Hlb. by rewrite lookup_empty in Hlb.
  - rewrite He in Hla. by rewrite lookup_empty in Hla.
  - destruct (map_rbegin_Some _ _ _ Hb) as [_ Hmax].
    destruct (map_begin_Some _ _ _ Ha) as [_ Hmin].
    specialize (Hmax _ _ Hlb). specialize (Hmin _ _ Hla).
    pose proof (cons_key _ Hc true _ _ Hlb).
    pose proof (cons_key _ Hc false _ _ Hla).
    clear -Hmax Hmin Hlt H H0. dbl_lia.
Qed.

Lemma match_step_consistent st st' :
  consistent st → match_step st = Some st' →
  consistent st' ∧ (size (active_orders st') < size (active_orders st))%nat.
Proof.
  intros Hc Hstep.
  destruct (match_step_Some _ _ Hc Hstep)
    as (pb & bl & bid & bq & pa & al & ask & aq & bo & ao & _ & _ & _ & _ &
        Hbl & Hal & Hbo & Hbuy & Hpb & Hao & Hsell & Hpa & _ & ->).
  subst pb pa. split.
  - by eapply consistent_process_match.
  - by eapply process_match_size.
Qed.

(** ** The matching loop *)

Lemma loop_state_trans st0 st1 st2 :
  loop_state st0 st1 → loop_state st1 st2 → loop_state st0 st2.
Proof.
  intros H01 H12. induction H12 as [|st st' _ IH Hstep]; [done|].
  by eapply loop_iter.
Qed.

Lemma loop_state_consistent st0 st :
  consistent st0 → loop_state st0 st → consistent st.
Proof.
  intros Hc Hl. induction Hl as [|st st' _ IH Hstep]; [done|].
  by apply (match_step_consistent st st').
Qed.

Lemma execute_matching_inv fuel st st' :
  consistent st → execute_matching fuel st = Some st' →
  consistent st' ∧ match_step st' = None ∧ loop_state st st'.
Proof.
  revert st. induction fuel as [|fuel IH]; intros st Hc; simpl.
  - destruct (match_step st) eqn:Hstep; [done|]. intros [= <-].
    split; [done|]. split; [done|constructor].
  - destruct (match_step st) as [st1|] eqn:Hstep.
    + intros Hrun. destruct (match_step_consistent _ _ Hc Hstep) as [Hc1 _].
      destruct (IH _ Hc1 Hrun) as (? & ? & Hl). split; [done|]. split; [done|].
      eapply loop_state_trans; [|exact Hl].
      eapply loop_iter; [constructor|done].
    + intros [= <-]. split; [done|]. split; [done|constructor].
Qed.

Lemma execute_matching_terminates fuel st :
  consistent st → (size (active_orders st) ≤ fuel)%nat →
  is_Some (execute_matching fuel st).
Proof.
  revert st. induction fuel as [|fuel IH]; intros st Hc Hsz; simpl.
  - destruct (match_step st) as [st1|] eqn:Hstep; [|by eexists].
    destruct (match_step_consistent _ _ Hc Hstep) as [_ Hlt]. lia.
  - destruct (match_step st) as [st1|] eqn:Hstep; [|by eexists].
    destruct (match_step_consistent _ _ Hc Hstep) as [Hc1 Hlt].
    apply IH; [done|lia].
Qed.

(** More fuel does not change the result. *)
Lemma execute_matching_fuel fuel fuel' st st' :
  execute_matching fuel st = Some st' → (fuel ≤ fuel')%nat →
  execute_matching fuel' st = Some st'.
Proof.
  revert fuel' st. induction fuel as [|fuel IH]; intros fuel' st; simpl.
  - destruct (match_step st) eqn:Hstep; [done|]. intros [= <-] _.
    destruct fuel'; simpl; by rewrite Hstep.
  - destruct (match_step st) as [st1|] eqn:Hstep.
    + intros Hrun Hle. destruct fuel' as [|fuel']; [lia|]. simpl.
      rewrite Hstep. apply IH; [done|lia].
    + intros [= <-] _. destruct fuel'; simpl; by rewrite Hstep.
Qed.

Lemma execute_matching_step fuel st st1 :
  match_step st = Some st1 →
  execute_matching fuel st =
    match fuel with O => None | S fuel' => execute_matching fuel' st1 end.
Proof. intros H. destruct fuel; simpl; by rewrite H. Qed.

Lemma add_order_fresh fuel st o :
  active_orders st !! order_id o = None →
  add_order fuel st o = execute_matching fuel (enqueue st o).
Proof. intros H. unfold add_order. by rewrite H. Qed.

(** An iteration that leaves the book as it was is repeated for ever. *)
Lemma execute_matching_stuck fuel st :
  match_step st = Some st → execute_matching fuel st = None.
Proof. intros H. induction fuel as [|fuel IH]; simpl; by rewrite H. Qed.

(** ** The public operations keep the book consistent and uncrossed *)

Lemma cleanup_level_sub side p p' lv :
  cleanup_level side p !! p' = Some lv → side !! p' = Some lv.
Proof.
  unfold cleanup_level. destruct (map_find side p) as [[k l]|]; [|done].
  destruct (is_empty l); [|done]. by intros [_ ?]%lookup_delete_Some.
Qed.

Lemma cancel_order_side_sub st id b p lv :
  fetch_side (cancel_order st id).2 b !! p = Some lv →
  is_Some (fetch_side st b !! p).
Proof.
  unfold cancel_order. destruct (active_orders st !! id) as [o|]; [|by eexists].
  cbn [snd]. rewrite fetch_side_set_orders, fetch_side_set_side.
  case_bool_decide as Hb; [|by eexists]. subst b.
  destruct (map_find _ _) as [[k l]|] eqn:Hl; [|by eexists].
  apply map_find_Some in Hl.
  intros [[<- _]|[_ ?]]%cleanup_level_sub%lookup_insert_Some; by eexists.
Qed.

Lemma uncrossed_cancel st id :
  uncrossed st → uncrossed (cancel_order st id).2.
Proof.
  intros Hu pb lb pa la Hlb Hla.
  destruct (cancel_order_side_sub st id true _ _ Hlb) as [lb' Hlb'].
  destruct (cancel_order_side_sub st id false _ _ Hla) as [la' Hla'].
  by eapply Hu.
Qed.

Lemma add_order_inv fuel st o st' :
  consistent st → uncrossed st → is_u64 (quantity o) → not_nan (price o) →
  add_order fuel st o = Some st' → consistent st' ∧ uncrossed st'.
Proof.
  intros Hc Hu Hq Hn. unfold add_order.
  destruct (active_orders st !! order_id o) eqn:Hid.
  - by intros [= <-].
  - intros Hrun.
    destruct (execute_matching_inv _ _ _
                (consistent_enqueue _ _ Hc Hid Hq Hn) Hrun)
      as (Hc' & Hstop & _).
    split; [done|]. by apply match_step_None_uncrossed.
Qed.

Lemma amend_order_inv fuel st id p q r st' :
  consistent st → uncrossed st → is_u64 q → not_nan p →
  amend_order fuel st id p q = Some (r, st') → consistent st' ∧ uncrossed st'.
Proof.
  intros Hc Hu Hq Hn. unfold amend_order.
  destruct (active_orders st !! id) as [o|] eqn:Ho; [|by intros [= _ <-]].
  case_bool_decide as Hp.
  - destruct (add_order _ _ _) as [st1|] eqn:Hadd; [|done].
    simpl. intros [= _ <-].
    eapply add_order_inv; [apply consistent_cancel, Hc
                          |apply uncrossed_cancel, Hu| | |exact Hadd];
      done.
  - destruct (cons_order _ Hc _ _ Ho) as (lv & Hlv & Hin).
    rewrite (map_find_lookup _ _ _ (consistent_nan_free _ _ Hc) Hlv).
    intros [= _ <-].
    destruct (cons_level _ Hc _ _ _ Hlv) as (_ & _ & _ & Hagg). split.
    + eapply (consistent_requantify st _ id o lv
                (update_volume lv (quantity o) q) q); try done.
      * by apply update_volume_mod.
      * intros b. rewrite fetch_side_set_orders, fetch_side_set_side.
        by case_bool_decide; subst.
    + intros pb lb pa la Hlb Hla.
      assert (Hsub : ∀ b p' l,
                fetch_side (set_orders
                  (set_side st (is_buy o)
                     (<[price o := update_volume lv (quantity o) q]>
                        (fetch_side st (is_buy o))))
                  (<[id := set_quantity o q]> (active_orders st))) b !! p'
                  = Some l → is_Some (fetch_side st b !! p')).
      { intros b p' l. rewrite fetch_side_set_orders, fetch_side_set_side.
        case_bool_decide as Hb; [|by eexists]. subst b.
        intros [[<- _]|[_ Hl]]%lookup_insert_Some; by eexists. }
      destruct (Hsub true _ _ Hlb) as [lb' Hlb'].
      destruct (Hsub false _ _ Hla) as [la' Hla'].
      by eapply Hu.
Qed.

Lemma run_op_inv fuel op st st' :
  consistent st → uncrossed st → valid_op op →
  run_op fuel op st = Some st' → consistent st' ∧ uncrossed st'.
Proof.
  intros Hc Hu Hv. destruct op as [o|id|id p q]; simpl.
  - destruct Hv as (_ & Hq & _ & Hn). by apply add_order_inv.
  - intros [= <-]. split; [by apply consistent_cancel|by apply uncrossed_cancel].
  - destruct Hv as (_ & Hq & Hn).
    destruct (amend_order fuel st id p q) as [[r st1]|] eqn:Ham; [|done].
    simpl. intros [= <-]. by eapply amend_order_inv.
Qed.

Lemma reachable_inv st : reachable st → consistent st ∧ uncrossed st.
Proof.
  induction 1 as [|st op fuel st' _ [Hc Hu] Hv Hrun].
  - split; [apply consistent_empty|].
    intros pb lb pa la H. simpl in H. by rewrite lookup_empty in H.
  - by eapply run_op_inv.
Qed.

Lemma reachable_consistent st : reachable st → consistent st.
Proof. intros H. by apply reachable_inv. Qed.

(** ** The books of the demo are reachable *)

Lemma reachable_book_bids : reachable book_bids.
Proof.
  apply (reach_op (default empty_book (add_order 0 empty_book buy1))
                  (AddOrder buy2) 0).
  - apply (reach_op empty_book (AddOrder buy1) 0); [constructor| |].
    + by vm_compute.
    + by_eval.
  - by vm_compute.
  - by_eval.
Qed.

Lemma reachable_book_after_sell : reachable book_after_sell.
Proof.
  apply (reach_op book_bids (AddOrder sell3) 1);
    [apply reachable_book_bids|by vm_compute|by_eval].
Qed.

Lemma reachable_book_two_sided : reachable book_two_sided.
Proof.
  apply (reach_op (default empty_book (add_order 0 empty_book buy1))
                  (AddOrder (mkOrder 4 false p50_50 70 1000000002)) 0).
  - apply (reach_op empty_book (AddOrder buy1) 0);
      [constructor|by vm_compute|by_eval].
  - by vm_compute.
  - by_eval.
Qed.

Lemma reachable_book_wrapped : reachable book_wrapped.
Proof.
  apply (reach_op
           (default empty_book
              (add_order 0 empty_book (mkOrder 1 true p50_25 (2 ^ 63) 0)))
           (AddOrder (mkOrder 2 true p50_25 (2 ^ 63) 1)) 0).
  - apply (reach_op empty_book (AddOrder (mkOrder 1 true p50_25 (2 ^ 63) 0)) 0);
      [constructor|by vm_compute|by_eval].
  - by vm_compute.
  - by_eval.
Qed.

(** * Books built with any prices *)

(** ** find in a shaped side *)

Lemma shaped_empty : shaped ∅.
Proof. left. apply lookup_empty. Qed.

(** A shaped side with a key that is a number has no key NaN. *)
Lemma shaped_key m k v : shaped m → m !! k = Some v → not_nan k → m !! NaN = None.
Proof.
  intros [Hn|[lv ->]] Hk Hnum; [done|].
  apply lookup_singleton_Some in Hk as [<- _]. done.
Qed.

Lemma shaped_delete m k : shaped m → shaped (delete k m).
Proof.
  intros [Hn|[lv ->]].
  - left. apply lookup_delete_None. by right.
  - destruct (decide (k = NaN)) as [->|Hk].
    + rewrite delete_singleton_eq. apply shaped_empty.
    + right. exists lv. by apply delete_singleton_ne.
Qed.

(** [find] looks at the keys only: after the level of a key was replaced,
    every [find] returns the entry of the key it returned before. *)
Lemma map_find_update m p k X X' q :
  shaped m → map_find m p = Some (k, X) →
  map_find (<[k := X']> m) q =
    (λ e, if decide (e.1 = k) then (k, X') else e) <$> map_find m q.
Proof.
  intros [Hn|[lv ->]] Hf.
  - pose proof (map_find_Some _ _ _ _ Hf) as Hk.
    assert (Hkn : not_nan k) by (intros ->; congruence).
    assert (Hn' : <[k := X']> m !! NaN = None) by by rewrite lookup_insert_ne.
    destruct q as [z|].
    + rewrite !map_find_number by done.
      destruct (decide (Num z = k)) as [<-|Hne].
      * rewrite lookup_insert_eq, Hk. simpl. by rewrite decide_True.
      * rewrite lookup_insert_ne by done.
        destruct (m !! Num z); simpl; [|done]. by rewrite decide_False.
    + rewrite !map_find_NaN.
      destruct (map_begin_is_Some m) as [[k0 v0] H0];
        [intros ->; by rewrite lookup_empty in Hk|].
      rewrite H0. simpl. apply map_begin_Some in H0 as [Hk0 Hmin].
      assert (Hmin' : ∀ k' v', <[k := X']> m !! k' = Some v' → ¬ dlt k' k0).
      { intros k' v' [[<- _]|[_ H']]%lookup_insert_Some; by eapply Hmin. }
      destruct (decide (k0 = k)) as [->|Hne].
      * apply map_begin_min; [done|apply lookup_insert_eq|done].
      * apply map_begin_min; [done|by rewrite lookup_insert_ne|done].
  - rewrite map_find_singleton_NaN in Hf. injection Hf as <- <-.
    rewrite insert_singleton_eq, !map_find_singleton_NaN.
    cbn [fmap option_fmap option_map fst]. by rewrite decide_True.
Qed.

Lemma shaped_update m p k X X' :
  shaped m → map_find m p = Some (k, X) → shaped (<[k := X']> m).
Proof.
  intros Hs Hf. pose proof (map_find_Some _ _ _ _ Hf) as Hk.
  destruct Hs as [Hn|[lv ->]].
  - left. rewrite lookup_insert_ne; [done|]. intros ->. congruence.
  - apply lookup_singleton_Some in Hk as [<- _].
    right. exists X'. apply insert_singleton_eq.
Qed.

(** [operator[]] after a [find] that found nothing: the new key is a number
    added to keys that are numbers, or NaN added to an empty side. *)
Lemma map_find_new m p X' :
  shaped m → map_find m p = None →
  m !! p = None ∧ shaped (<[p := X']> m) ∧
  map_find (<[p := X']> m) p = Some (p, X') ∧
  ∀ q e, not_nan q → map_find m q = Some e →
         map_find (<[p := X']> m) q = Some e.
Proof.
  intros [Hn|[lv ->]] Hf; [|by rewrite map_find_singleton_NaN in Hf].
  destruct p as [z|].
  - rewrite map_find_number in Hf by done.
    assert (Hp : m !! Num z = None) by by destruct (m !! Num z).
    assert (Hn' : <[Num z := X']> m !! NaN = None)
      by by rewrite lookup_insert_ne.
    split; [done|]. split; [by left|]. split.
    + by rewrite map_find_number, lookup_insert_eq.
    + intros q e Hq. rewrite !map_find_number by done.
      destruct (decide (q = Num z)) as [->|Hne]; [by rewrite Hp|].
      by rewrite lookup_insert_ne.
  - rewrite map_find_NaN in Hf. apply map_begin_None in Hf as ->.
    split; [apply lookup_empty|]. rewrite insert_empty.
    split; [right; by eexists|]. split; [apply map_find_singleton_NaN|].
    intros q e _. by rewrite map_find_empty.
Qed.

Lemma map_find_delete m k q e :
  shaped m → not_nan q → map_find m q = Some e → e.1 ≠ k →
  map_find (delete k m) q = Some e.
Proof.
  intros [Hn|[lv ->]] Hq.
  - assert (Hn' : delete k m !! NaN = None)
      by (apply lookup_delete_None; by right).
    rewrite !map_find_number by done.
    destruct (m !! q) as [v|] eqn:Hv; [|done]. simpl. intros [= <-] Hne.
    simpl in Hne. by rewrite lookup_delete_ne, Hv.
  - rewrite map_find_singleton_NaN. intros [= <-] Hne. simpl in Hne.
    rewrite delete_singleton_ne by done. apply map_find_singleton_NaN.
Qed.

Lemma elem_of_erase_first_ne id q x :
  x ∈ q → x ≠ id → x ∈ erase_first id q.
Proof.
  induction q as [|y q IH]; simpl; [done|].
  intros [->|Hx]%elem_of_cons Hne.
  - rewrite bool_decide_eq_false_2 by done. left.
  - case_bool_decide; [done|]. right. by apply IH.
Qed.

(** [cancel_order] of an order that is in the queue of the level that
    [find] returns for its price. *)
Lemma cancel_order_at st id o k lv :
  shaped (fetch_side st (is_buy o)) →
  active_orders st !! id = Some o →
  map_find (fetch_side st (is_buy o)) (price o) = Some (k, lv) →
  id ∈ order_queue lv →
  cancel_order st id =
    (true,
     set_orders
       (set_side st (is_buy o)
          (evict_or_keep (fetch_side st (is_buy o)) k
             (cancelled_level lv id (quantity o))))
       (delete id (active_orders st))).
Proof.
  intros Hsh Ho Hf Hin. unfold cancel_order. rewrite Ho. cbv zeta. rewrite Hf.
  unfold cleanup_level.
  rewrite (map_find_update _ _ _ _ _ _ Hsh Hf), Hf.
  cbn [fmap option_fmap option_map fst]. rewrite decide_True by done.
  unfold remove_order. rewrite bool_decide_eq_true_2 by done. cbn [snd].
  unfold evict_or_keep, cancelled_level.
  by destruct (is_empty _); rewrite ?delete_insert_eq.
Qed.

(** ** Updates of a book that keep it sound *)

Lemma sound_empty : sound empty_book.
Proof.
  split.
  - intros []; apply shaped_empty.
  - intros [] p lv H; simpl in H; by rewrite lookup_empty in H.
  - intros id o H. simpl in H. by rewrite lookup_empty in H.
Qed.

(** The sides stay, and the registry keeps, for every identifier it has, the
    side and the price. *)
Lemma sound_same_sides st st' :
  sound st → (∀ b, fetch_side st' b = fetch_side st b) →
  (∀ id o', active_orders st' !! id = Some o' → not_nan (price o') →
     ∃ k Y, map_find (fetch_side st (is_buy o')) (price o') = Some (k, Y) ∧
            id ∈ order_queue Y) →
  sound st'.
Proof.
  intros Hs Hside Hreg. split.
  - intros b. rewrite Hside. apply (sound_shape _ Hs).
  - intros b p lv. rewrite Hside. apply (sound_level _ Hs).
  - intros id o' Ho' Hn. rewrite Hside. by apply Hreg.
Qed.

(** The level that a [find] returned is replaced by one with the same price
    and a queue that is not empty. *)
Lemma sound_update st st' b p k X X' :
  sound st → map_find (fetch_side st b) p = Some (k, X) →
  price_point X' = price_point X → order_queue X' ≠ [] →
  (∀ b', fetch_side st' b' =
         if bool_decide (b = b') then <[k := X']> (fetch_side st b)
         else fetch_side st b') →
  (∀ id o', active_orders st' !! id = Some o' → not_nan (price o') →
     ∃ k' Y, map_find (fetch_side st (is_buy o')) (price o') = Some (k', Y) ∧
             if bool_decide ((is_buy o', k') = (b, k))
             then id ∈ order_queue X' else id ∈ order_queue Y) →
  sound st'.
Proof.
  intros Hs Hf Hpp Hne Hside Hreg.
  pose proof (sound_shape _ Hs b) as Hsh.
  pose proof (map_find_Some _ _ _ _ Hf) as Hk.
  split.
  - intros b'. rewrite Hside. case_bool_decide as Hb;
      [by eapply shaped_update | apply (sound_shape _ Hs)].
  - intros b' p' lv. rewrite Hside. case_bool_decide as Hb;
      [|apply (sound_level _ Hs)].
    intros [[<- <-]|[Hne' Hl]]%lookup_insert_Some.
    + split; [|done]. rewrite Hpp. by destruct (sound_level _ Hs _ _ _ Hk).
    + by apply (sound_level _ Hs b).
  - intros id o' Ho' Hn. destruct (Hreg _ _ Ho' Hn) as (k' & Y & HfY & Hin).
    rewrite Hside. destruct (decide (b = is_buy o')) as [Hb|Hb];
      [rewrite bool_decide_eq_true_2 by done
      |rewrite bool_decide_eq_false_2 by done].
    + rewrite <- Hb in HfY.
      rewrite (map_find_update _ _ _ _ X' _ Hsh Hf), HfY. simpl.
      destruct (decide (k' = k)) as [->|Hkk].
      * exists k, X'. split; [done|].
        rewrite bool_decide_eq_true_2 in Hin; [done|congruence].
      * exists k', Y. split; [done|].
        rewrite bool_decide_eq_false_2 in Hin; [done|congruence].
    + exists k', Y. split; [done|].
      rewrite bool_decide_eq_false_2 in Hin; [done|]. congruence.
Qed.

(** A level whose queue holds none of the remaining orders is erased. *)
Lemma sound_remove st st' b k X :
  sound st → fetch_side st b !! k = Some X →
  (∀ b', fetch_side st' b' =
         if bool_decide (b = b') then delete k (fetch_side st b)
         else fetch_side st b') →
  (∀ id o', active_orders st' !! id = Some o' → not_nan (price o') →
     ∃ k' Y, map_find (fetch_side st (is_buy o')) (price o') = Some (k', Y) ∧
             id ∈ order_queue Y ∧ (is_buy o', k') ≠ (b, k)) →
  sound st'.
Proof.
  intros Hs Hk Hside Hreg. split.
  - intros b'. rewrite Hside. case_bool_decide;
      [apply shaped_delete|]; apply (sound_shape _ Hs).
  - intros b' p' lv. rewrite Hside. case_bool_decide as Hb;
      [|apply (sound_level _ Hs)].
    intros [_ Hl]%lookup_delete_Some. by apply (sound_level _ Hs b).
  - intros id o' Ho' Hn.
    destruct (Hreg _ _ Ho' Hn) as (k' & Y & HfY & Hin & Hne).
    exists k', Y. split; [|done]. rewrite Hside. case_bool_decide as Hb; [|done].
    rewrite <- Hb in HfY.
    apply map_find_delete; [apply (sound_shape _ Hs)|done..|].
    simpl. intros ->. apply Hne. by rewrite Hb.
Qed.

(** A level is added under a price for which [find] found nothing. *)
Lemma sound_insert st st' b p X' :
  sound st → map_find (fetch_side st b) p = None →
  price_point X' = p → order_queue X' ≠ [] →
  (∀ b', fetch_side st' b' =
         if bool_decide (b = b') then <[p := X']> (fetch_side st b)
         else fetch_side st b') →
  (∀ id o', active_orders st' !! id = Some o' → not_nan (price o') →
     (∃ k' Y, map_find (fetch_side st (is_buy o')) (price o') = Some (k', Y) ∧
              id ∈ order_queue Y) ∨
     (is_buy o' = b ∧ price o' = p ∧ id ∈ order_queue X')) →
  sound st'.
Proof.
  intros Hs Hf Hpp Hne Hside Hreg.
  destruct (map_find_new _ _ X' (sound_shape _ Hs b) Hf)
    as (Hnone & Hsh & Hself & Hkeep).
  split.
  - intros b'. rewrite Hside. case_bool_decide; [done|apply (sound_shape _ Hs)].
  - intros b' p' lv. rewrite Hside. case_bool_decide as Hb;
      [|apply (sound_level _ Hs)].
    intros [[<- <-]|[Hne' Hl]]%lookup_insert_Some; [done|].
    by apply (sound_level _ Hs b).
  - intros id o' Ho' Hn. rewrite Hside.
    destruct (Hreg _ _ Ho' Hn) as [(k' & Y & HfY & Hin)|(Hb & Hp & Hin)].
    + exists k', Y. split; [|done]. case_bool_decide as Hb; [|done].
      rewrite <- Hb in HfY. by apply Hkeep.
    + rewrite bool_decide_eq_true_2 by done. exists p, X'.
      split; [|done]. by rewrite Hp.
Qed.

(** ** The operations keep a book sound *)

Lemma sound_level_eq st b k k' X Y :
  fetch_side st b !! k = Some X → fetch_side st b !! k' = Some Y →
  k' = k → Y = X.
Proof. intros H1 H2 ->. congruence. Qed.

Lemma enqueue_sound st o :
  sound st → active_orders st !! order_id o = None → sound (enqueue st o).
Proof.
  intros Hs Hid. unfold enqueue, get_or_create_level.
  destruct (map_find (fetch_side st (is_buy o)) (price o)) as [[k X]|] eqn:Hf.
  - pose proof (map_find_Some _ _ _ _ Hf) as Hk.
    apply (sound_update st _ (is_buy o) (price o) k X
             (push_order X (order_id o) (quantity o)) Hs Hf); [done| | |].
    + cbn [push_order order_queue]. by destruct (order_queue X).
    + intros b'. by rewrite fetch_side_set_orders, fetch_side_set_side.
    + intros id o'. cbn [set_orders active_orders].
      intros [[<- <-]|[Hne Ho']]%lookup_insert_Some Hn.
      * exists k, X. split; [done|]. rewrite bool_decide_eq_true_2 by done.
        cbn [push_order order_queue]. apply elem_of_app. right.
        by apply list_elem_of_singleton.
      * rewrite ?active_orders_set_side in Ho'.
        destruct (sound_order _ Hs _ _ Ho' Hn) as (k' & Y & HfY & Hin).
        exists k', Y. split; [done|]. case_bool_decide as Heq; [|done].
        injection Heq as Hb ->. rewrite Hb in HfY.
        apply map_find_Some in HfY. assert (Y = X) as -> by congruence.
        cbn [push_order order_queue]. apply elem_of_app. by left.
  - apply (sound_insert st _ (is_buy o) (price o)
             (push_order (new_level (price o)) (order_id o) (quantity o))
             Hs Hf); [done|done| |].
    + intros b'. rewrite fetch_side_set_orders, fetch_side_set_side.
      case_bool_decide; [|done]. apply insert_insert_eq.
    + intros id o'. cbn [set_orders active_orders].
      intros [[<- <-]|[Hne Ho']]%lookup_insert_Some Hn.
      * right. split; [done|]. split; [done|].
        apply list_elem_of_singleton. reflexivity.
      * left. rewrite ?active_orders_set_side in Ho'.
        by apply (sound_order _ Hs).
Qed.

Lemma cancel_order_sound st id : sound st → sound (cancel_order st id).2.
Proof.
  intros Hs. unfold cancel_order.
  destruct (active_orders st !! id) as [o|] eqn:Ho; [|done]. cbn [snd].
  assert (Hreg : ∀ id' o', delete id (active_orders st) !! id' = Some o' →
            not_nan (price o') →
            id' ≠ id ∧
            ∃ k' Y, map_find (fetch_side st (is_buy o')) (price o')
                      = Some (k', Y) ∧ id' ∈ order_queue Y).
  { intros id' o' [Hne Ho']%lookup_delete_Some Hn. split; [done|].
    by apply (sound_order _ Hs). }
  destruct (map_find (fetch_side st (is_buy o)) (price o)) as [[k X]|] eqn:Hf.
  2:{ apply (sound_same_sides st); [done| |].
      - intros b. rewrite fetch_side_set_orders, fetch_side_set_side.
        by case_bool_decide; subst.
      - intros id' o' Ho' Hn. by apply Hreg. }
  pose proof (map_find_Some _ _ _ _ Hf) as Hk.
  destruct (sound_level _ Hs _ _ _ Hk) as [Hpp HX].
  set (X' := (remove_order X id (quantity o)).2).
  assert (HX' : price_point X' = price_point X ∧
                ∀ x, x ∈ order_queue X → x ≠ id → x ∈ order_queue X').
  { unfold X', remove_order. case_bool_decide; cbn [snd]; [|done].
    split; [done|]. intros x. apply elem_of_erase_first_ne. }
  destruct HX' as [Hpp' Hkeep].
  unfold cleanup_level.
  rewrite (map_find_update _ _ _ _ X' _ (sound_shape _ Hs _) Hf), Hf.
  simpl. rewrite decide_True by done.
  destruct (is_empty X') eqn:He.
  - apply is_empty_nil in He.
    apply (sound_remove st _ (is_buy o) k X Hs Hk).
    + intros b'. rewrite fetch_side_set_orders, fetch_side_set_side.
      case_bool_decide; [|done]. apply delete_insert_eq.
    + intros id' o' Ho' Hn. cbn [set_orders active_orders] in Ho'.
      destruct (Hreg _ _ Ho' Hn) as (Hne & k' & Y & HfY & Hin).
      exists k', Y. split; [done|]. split; [done|]. intros [= Hb ->].
      rewrite Hb in HfY. apply map_find_Some in HfY.
      assert (Y = X) as -> by congruence.
      specialize (Hkeep _ Hin Hne). rewrite He in Hkeep.
      by apply not_elem_of_nil in Hkeep.
  - assert (order_queue X' ≠ []).
    { intros Hq. apply is_empty_nil in Hq. congruence. }
    apply (sound_update st _ (is_buy o) (price o) k X X' Hs Hf); [done..| |].
    + intros b'. by rewrite fetch_side_set_orders, fetch_side_set_side.
    + intros id' o' Ho' Hn. cbn [set_orders active_orders] in Ho'.
      destruct (Hreg _ _ Ho' Hn) as (Hne & k' & Y & HfY & Hin).
      exists k', Y. split; [done|]. case_bool_decide as Heq; [|done].
      injection Heq as Hb ->. rewrite Hb in HfY. apply map_find_Some in HfY.
      assert (Y = X) as -> by congruence. by apply Hkeep.
Qed.

(** A level is rewritten with the queue it had ([update_volume]) and the
    registry keeps sides and prices. *)
Lemma sound_requantify st st' b p q :
  sound st →
  (∀ b', fetch_side st' b' =
         if bool_decide (b = b') then adjust_level (fetch_side st b) p q
         else fetch_side st b') →
  (∀ id o', active_orders st' !! id = Some o' →
     ∃ o, active_orders st !! id = Some o ∧
          price o' = price o ∧ is_buy o' = is_buy o) →
  sound st'.
Proof.
  intros Hs Hside Hreg.
  assert (Hloc : ∀ id o', active_orders st' !! id = Some o' →
            not_nan (price o') →
            ∃ k Y, map_find (fetch_side st (is_buy o')) (price o') = Some (k, Y) ∧
                   id ∈ order_queue Y).
  { intros id o' Ho' Hn. destruct (Hreg _ _ Ho') as (o & Ho & Hp & Hb).
    rewrite Hp, Hb in *. by apply (sound_order _ Hs). }
  unfold adjust_level in Hside.
  destruct (map_find (fetch_side st b) p) as [[k X]|] eqn:Hf.
  - apply (sound_update st st' b p k X (update_volume X q 0) Hs Hf);
      [done| |done|].
    + cbn [update_volume order_queue].
      apply map_find_Some in Hf. by destruct (sound_level _ Hs _ _ _ Hf).
    + intros id o' Ho' Hn. destruct (Hloc _ _ Ho' Hn) as (k' & Y & HfY & Hin).
      exists k', Y. split; [done|]. case_bool_decide as Heq; [|done].
      injection Heq as Hb ->. rewrite Hb in HfY.
      apply map_find_Some in HfY, Hf. by assert (Y = X) as -> by congruence.
  - apply (sound_same_sides st); [done| |done].
    intros b'. rewrite Hside. by case_bool_decide; subst.
Qed.

Lemma process_match_sound st bid_id ask_id :
  sound st → sound (process_match st bid_id ask_id).
Proof.
  intros Hs. unfold process_match.
  destruct (active_orders st !! bid_id) as [bo|] eqn:Hbo; [|done].
  destruct (active_orders st !! ask_id) as [ao|] eqn:Hao; [|done].
  cbn zeta. cbn [print active_orders bid_levels ask_levels set_orders set_side].
  set (m := Z.min (quantity bo) (quantity ao)).
  set (reg1 := <[bid_id := set_quantity bo (u64_sub (quantity bo) m)]>
                 (active_orders st)).
  set (reg2 := match reg1 !! ask_id with
               | Some a => <[ask_id := set_quantity a (u64_sub (quantity a) m)]>
                             reg1
               | None => reg1
               end).
  assert (Hreg1 : ∀ id o', reg1 !! id = Some o' →
            ∃ o, active_orders st !! id = Some o ∧
                 price o' = price o ∧ is_buy o' = is_buy o).
  { intros id o'. unfold reg1.
    intros [[<- <-]|[_ Ho']]%lookup_insert_Some; by eexists. }
  assert (Hreg2 : ∀ id o', reg2 !! id = Some o' →
            ∃ o, active_orders st !! id = Some o ∧
                 price o' = price o ∧ is_buy o' = is_buy o).
  { intros id o'. unfold reg2. destruct (reg1 !! ask_id) as [a|] eqn:Ha;
      [|apply Hreg1].
    intros [[<- <-]|[_ Ho']]%lookup_insert_Some; [|by apply Hreg1].
    by apply (Hreg1 _ _ Ha). }
  set (stB := mkBook (adjust_level (bid_levels st) (price bo) m)
                     (ask_levels st) reg2 _).
  assert (HsB : sound stB).
  { apply (sound_requantify st stB true (price bo) m Hs); [|done].
    by intros []. }
  set (stC := mkBook _ (adjust_level (ask_levels st) (price ao) m) reg2 _).
  assert (HsC : sound stC).
  { apply (sound_requantify stB stC false (price ao) m HsB);
      [by intros []|].
    intros id o' Ho'. by exists o'. }
  destruct (bool_decide _); destruct (bool_decide _);
    repeat apply cancel_order_sound; exact HsC.
Qed.

Lemma match_step_sound st st' :
  sound st → match_step st = Some st' → sound st'.
Proof.
  intros Hs. unfold match_step.
  destruct (map_rbegin (bid_levels st)) as [[pb bl]|]; [|done].
  destruct (map_begin (ask_levels st)) as [[pa al]|]; [|done].
  case_bool_decide; [done|].
  destruct (get_orders bl) as [|bid bq]; [done|].
  destruct (get_orders al) as [|ask aq]; [done|].
  intros [= <-]. by apply process_match_sound.
Qed.

Lemma execute_matching_sound fuel st st' :
  sound st → execute_matching fuel st = Some st' →
  sound st' ∧ match_step st' = None.
Proof.
  revert st. induction fuel as [|fuel IH]; intros st Hs; simpl.
  - destruct (match_step st) eqn:Hstep; [done|]. by intros [= <-].
  - destruct (match_step st) as [s1|] eqn:Hstep; [|by intros [= <-]].
    apply IH. by eapply match_step_sound.
Qed.

(** Why the loop stops in a sound book: a side is empty, or the best bid is
    priced below the best ask, and then every bid is below every ask. *)
Lemma match_step_None_sound st :
  sound st → match_step st = None → uncrossed st.
Proof.
  intros Hs Hstep pb lb pa la Hlb Hla. unfold match_step in Hstep.
  destruct (map_rbegin (bid_levels st)) as [[pb0 bl]|] eqn:Hb.
  2:{ apply map_rbegin_None in Hb. by rewrite Hb, lookup_empty in Hlb. }
  destruct (map_begin (ask_levels st)) as [[pa0 al]|] eqn:Ha.
  2:{ apply map_begin_None in Ha. by rewrite Ha, lookup_empty in Hla. }
  destruct (map_rbegin_Some _ _ _ Hb) as [Hbl Hmax].
  destruct (map_begin_Some _ _ _ Ha) as [Hal Hmin].
  destruct (sound_level _ Hs true _ _ Hbl) as [Hpb Hqb].
  destruct (sound_level _ Hs false _ _ Hal) as [Hpa Hqa].
  unfold get_price, get_orders in Hstep. rewrite Hpb, Hpa in Hstep.
  case_bool_decide as Hlt.
  2:{ destruct (order_queue bl); [done|]. by destruct (order_queue al). }
  destruct (dlt_not_nan _ _ Hlt) as [Hnb Hna].
  pose proof (shaped_key _ _ _ (sound_shape _ Hs true) Hbl Hnb) as Hfb.
  pose proof (shaped_key _ _ _ (sound_shape _ Hs false) Hal Hna) as Hfa.
  assert (not_nan pb) by (intros ->; cbn [fetch_side] in Hfb; congruence).
  assert (not_nan pa) by (intros ->; cbn [fetch_side] in Hfa; congruence).
  specialize (Hmax _ _ Hlb). specialize (Hmin _ _ Hla).
  apply (le_dlt_trans _ pb0); [done..|].
  by apply (dlt_le_trans _ pa0).
Qed.

Lemma add_order_sound fuel st o st' :
  sound st → add_order fuel st o = Some st' → sound st' ∧
  (uncrossed st → uncrossed st').
Proof.
  intros Hs. unfold add_order.
  destruct (active_orders st !! order_id o) eqn:Hid; [by intros [= <-]|].
  intros Hrun.
  destruct (execute_matching_sound _ _ _ (enqueue_sound _ _ Hs Hid) Hrun)
    as [Hs' Hstop].
  split; [done|]. intros _. by apply match_step_None_sound.
Qed.

Lemma amend_order_sound fuel st id p q r st' :
  sound st → amend_order fuel st id p q = Some (r, st') →
  sound st' ∧ (uncrossed st → uncrossed st').
Proof.
  intros Hs. unfold amend_order.
  destruct (active_orders st !! id) as [o|] eqn:Ho; [|by intros [= _ <-]].
  case_bool_decide as Hp.
  - destruct (add_order _ _ _) as [st1|] eqn:Hadd; [|done].
    simpl. intros [= _ <-].
    destruct (add_order_sound _ _ _ _ (cancel_order_sound _ id Hs) Hadd)
      as [Hs1 Hu1].
    split; [done|]. intros Hu. by apply Hu1, uncrossed_cancel.
  - destruct (map_find (fetch_side st (is_buy o)) (price o)) as [[k X]|] eqn:Hf;
      [|by intros [= _ <-]].
    intros [= _ <-]. pose proof (map_find_Some _ _ _ _ Hf) as Hk. split.
    + apply (sound_update st _ (is_buy o) (price o) k X
               (update_volume X (quantity o) q) Hs Hf); [done| | |].
      * cbn [update_volume order_queue].
        by destruct (sound_level _ Hs _ _ _ Hk).
      * intros b'. by rewrite fetch_side_set_orders, fetch_side_set_side.
      * intros id' o'. cbn [set_orders active_orders].
        intros Ho' Hn.
        assert (∃ o0, active_orders st !! id' = Some o0 ∧
                      price o' = price o0 ∧ is_buy o' = is_buy o0)
          as (o0 & Ho0 & Hp0 & Hb0).
        { apply lookup_insert_Some in Ho' as [[<- <-]|[_ Ho']];
            [by exists o|by exists o']. }
        rewrite Hp0, Hb0 in *.
        destruct (sound_order _ Hs _ _ Ho0 Hn) as (k' & Y & HfY & Hin).
        exists k', Y. split; [done|]. case_bool_decide as Heq; [|done].
        injection Heq as Hb ->. rewrite Hb in HfY.
        apply map_find_Some in HfY. by assert (Y = X) as -> by congruence.
    + intros Hu pb lb pa la Hlb Hla.
      assert (Hsub : ∀ b p' l,
                fetch_side (set_orders
                  (set_side st (is_buy o)
                     (<[k := update_volume X (quantity o) q]>
                        (fetch_side st (is_buy o))))
                  (<[id := set_quantity o q]> (active_orders st))) b !! p'
                  = Some l → is_Some (fetch_side st b !! p')).
      { intros b p' l. rewrite fetch_side_set_orders, fetch_side_set_side.
        case_bool_decide as Hb; [|by eexists]. subst b.
        intros [[<- _]|[_ Hl]]%lookup_insert_Some; by eexists. }
      destruct (Hsub true _ _ Hlb) as [lb' Hlb'].
      destruct (Hsub false _ _ Hla) as [la' Hla'].
      by eapply Hu.
Qed.

Lemma run_op_sound fuel op st st' :
  sound st → uncrossed st → run_op fuel op st = Some st' →
  sound st' ∧ uncrossed st'.
Proof.
  intros Hs Hu. destruct op as [o|id|id p q]; simpl.
  - intros Hrun. destruct (add_order_sound _ _ _ _ Hs Hrun). auto.
  - intros [= <-].
    split; [by apply cancel_order_sound | by apply uncrossed_cancel].
  - destruct (amend_order fuel st id p q) as [[r st1]|] eqn:Ham; [|done].
    simpl. intros [= <-]. destruct (amend_order_sound _ _ _ _ _ _ _ Hs Ham).
    auto.
Qed.

Lemma obtainable_inv st : obtainable st → sound st ∧ uncrossed st.
Proof.
  induction 1 as [|st op fuel st' _ [Hs Hu] Hv Hrun].
  - split; [apply sound_empty|].
    intros pb lb pa la H. simpl in H. by rewrite lookup_empty in H.
  - by eapply run_op_sound.
Qed.

(** ** Books obtained with a NaN price *)

Lemma reachable_obtainable st : reachable st → obtainable st.
Proof.
  induction 1 as [|st op fuel st' _ IH Hv Hrun]; [constructor|].
  apply (obtain_op st op fuel); [done| |done].
  destruct op as [o|id|id p q]; simpl in *; unfold valid_order in *; tauto.
Qed.

Lemma obtainable_book_nan_guest : obtainable book_nan_guest.
Proof.
  apply (obtain_op
           (default empty_book
              (add_order 0 empty_book bid50 ≫= λ st, add_order 0 st bidNaN))
           (AddOrder bid49) 0); [|by vm_compute|by_eval].
  apply (obtain_op (default empty_book (add_order 0 empty_book bid50))
                   (AddOrder bidNaN) 0); [|by vm_compute|by_eval].
  apply (obtain_op empty_book (AddOrder bid50) 0);
    [constructor|by vm_compute|by_eval].
Qed.

Lemma obtainable_book_nan_stale : obtainable book_nan_stale.
Proof.
  apply (obtain_op book_nan_guest (CancelOrder 2) 0);
    [apply obtainable_book_nan_guest|by vm_compute|by_eval].
Qed.

Lemma obtainable_book_nan_twice : obtainable book_nan_twice.
Proof.
  apply (obtain_op book_nan_stale (AddOrder bid50_again) 0);
    [apply obtainable_book_nan_stale|by vm_compute|by_eval].
Qed.

Lemma run_ops_obtainable fuel ops st st' :
  obtainable st → Forall typed_op ops → run_ops fuel ops st = Some st' →
  obtainable st'.
Proof.
  intros Hst Hops. revert st Hst.
  induction Hops as [|op ops Hop _ IH]; intros st Hst; simpl.
  - by intros [= <-].
  - destruct (run_op fuel op st) as [s1|] eqn:Hrun; [|done]. simpl.
    apply IH. by eapply obtain_op.
Qed.

(** * The claims *)

(** ** C1: the book is never left crossed *)


(** C1. After every completed public operation ([add_order], [cancel_order],
    [amend_order]), if the bid side and the ask side are both non-empty, the
    best bid (the level with the largest bid price) is priced strictly below
    the best ask (the level with the smallest ask price). *)
Theorem book_never_crossed st :
  reachable st → bid_levels st ≠ ∅ → ask_levels st ≠ ∅ →
  ∃ pb bl pa al,
    map_rbegin (bid_levels st) = Some (pb, bl) ∧
    (∀ p lv, bid_levels st !! p = Some lv → dle p pb) ∧
    map_begin (ask_levels st) = Some (pa, al) ∧
    (∀ p lv, ask_levels st !! p = Some lv → dle pa p) ∧
    get_price bl = pb ∧ get_price al = pa ∧
    dlt (get_price bl) (get_price al).
Proof.
  intros Hr Hb Ha. destruct (reachable_inv _ Hr) as [Hc Hu].
  destruct (map_rbegin_is_Some _ Hb) as [[pb bl] Hbest].
  destruct (map_begin_is_Some _ Ha) as [[pa al] Hbesta].
  destruct (map_rbegin_Some _ _ _ Hbest) as [Hbl Hmax].
  destruct (map_begin_Some _ _ _ Hbesta) as [Hal Hmin].
  destruct (cons_level _ Hc true _ _ Hbl) as (Hpb & _).
  destruct (cons_level _ Hc false _ _ Hal) as (Hpa & _).
  exists pb, bl, pa, al. unfold get_price. rewrite Hpb, Hpa.
  split; [done|]. split.
  { intros p lv Hlv. apply dle_iff. split; [by eapply (cons_key _ Hc true)|].
    split; [by eapply (cons_key _ Hc true) | by eapply Hmax]. }
  split; [done|]. split.
  { intros p lv Hlv. apply dle_iff. split; [by eapply (cons_key _ Hc false)|].
    split; [by eapply (cons_key _ Hc false) | by eapply Hmin]. }
  split; [done|]. split; [done|]. by eapply Hu.
Qed.

Lemma book_never_crossed_witness :
  reachable book_two_sided ∧
  ∃ pb bl pa al,
    map_rbegin (bid_levels book_two_sided) = Some (pb, bl) ∧
    (∀ p lv, bid_levels book_two_sided !! p = Some lv → dle p pb) ∧
    map_begin (ask_levels book_two_sided) = Some (pa, al) ∧
    (∀ p lv, ask_levels book_two_sided !! p = Some lv → dle pa p) ∧
    get_price bl = pb ∧ get_price al = pa ∧
    dlt (get_price bl) (get_price al).
Proof.
  split; [apply reachable_book_two_sided|].
  apply (book_never_crossed book_two_sided).
  - apply reachable_book_two_sided.
  - by_eval.
  - by_eval.
Defined.

(** ** C4: the sell of the demo is filled by the best bid *)

Lemma add_order_fuel fuel fuel' st o st' :
  add_order fuel st o = Some st' → (fuel ≤ fuel')%nat →
  add_order fuel' st o = Some st'.
Proof.
  unfold add_order. destruct (active_orders st !! order_id o); [done|].
  apply execute_matching_fuel.
Qed.

(** C4. From the book with bids [id=1, 100 @ 50.25] and [id=2, 200 @ 50.50]
    and no asks, [add_order] of the sell [id=3, 50 @ 50.25] runs one match,
    against the best bid 50.50: one line is printed for bid 2 and ask 3,
    [id=3] is filled and gone from the registry and from the ask side, and
    [id=2] rests with quantity 150 in a level of aggregate 150; [id=1] is
    untouched. *)
Theorem sell_fills_against_best_bid (fuel : nat) :
  map_rbegin (bid_levels book_bids) = Some (p50_50, mkLevel p50_50 [2] 200) ∧
  add_order (S fuel) book_bids sell3 = Some book_after_sell ∧
  match_step (enqueue book_bids sell3) = Some book_after_sell ∧
  active_orders book_after_sell !! 3 = None ∧
  ask_levels book_after_sell = ∅ ∧
  active_orders book_after_sell !! 2 = Some (set_quantity buy2 150) ∧
  bid_levels book_after_sell !! p50_50 = Some (mkLevel p50_50 [2] 150) ∧
  bid_levels book_after_sell !! p50_25 = Some (mkLevel p50_25 [1] 100) ∧
  cout book_after_sell = cout book_bids ++ trade_line 2 p50_50 3 p50_25.
Proof.
  split; [by_eval|]. split.
  - apply (add_order_fuel 1); [by_eval|lia].
  - repeat split; by_eval.
Qed.

(** ** C2: what a trade notification carries *)

Lemma process_match_cout st bid_id ask_id bo ao :
  active_orders st !! bid_id = Some bo →
  active_orders st !! ask_id = Some ao →
  cout (process_match st bid_id ask_id) =
    cout st ++ trade_line bid_id (price bo) ask_id (price ao).
Proof.
  intros Hb Ha. unfold process_match. rewrite Hb, Ha. cbn zeta.
  repeat case_bool_decide;
    rewrite ?cancel_order_cout, ?cout_set_side; reflexivity.
Qed.

(** C2, as the code has it. Every match prints one line, and the numbers on
    it are exactly four: the identifier and the price of the bid order and
    the identifier and the price of the ask order, in this order; both
    resting prices are reported and no execution price is computed. The line
    is the same for any two matches of orders with these identifiers and
    prices, whatever their quantities: the matched quantity is not on it. *)
Theorem trade_notification_fields st bid_id ask_id bo ao :
  active_orders st !! bid_id = Some bo →
  active_orders st !! ask_id = Some ao →
  emitted st (process_match st bid_id ask_id)
    = trade_line bid_id (price bo) ask_id (price ao) ∧
  payload (emitted st (process_match st bid_id ask_id))
    = [U64 bid_id; Dbl (price bo); U64 ask_id; Dbl (price ao)] ∧
  ∀ st2 bo2 ao2,
    active_orders st2 !! bid_id = Some bo2 →
    active_orders st2 !! ask_id = Some ao2 →
    price bo2 = price bo → price ao2 = price ao →
    emitted st2 (process_match st2 bid_id ask_id)
      = emitted st (process_match st bid_id ask_id).
Proof.
  assert (He : ∀ s b a,
            active_orders s !! bid_id = Some b →
            active_orders s !! ask_id = Some a →
            emitted s (process_match s bid_id ask_id)
              = trade_line bid_id (price b) ask_id (price a)).
  { intros s b a Hb Ha. unfold emitted.
    rewrite (process_match_cout _ _ _ _ _ Hb Ha). by rewrite drop_app_length. }
  intros Hb Ha. split; [by apply He|]. split; [by rewrite (He _ _ _ Hb Ha)|].
  intros st2 bo2 ao2 Hb2 Ha2 Hpb Hpa.
  by rewrite (He _ _ _ Hb Ha), (He _ _ _ Hb2 Ha2), Hpb, Hpa.
Qed.

Lemma trade_notification_fields_witness :
  emitted (enqueue book_bids sell3)
          (process_match (enqueue book_bids sell3) 2 3)
    = trade_line 2 (price buy2) 3 (price sell3) ∧
  payload (emitted (enqueue book_bids sell3)
                   (process_match (enqueue book_bids sell3) 2 3))
    = [U64 2; Dbl (price buy2); U64 3; Dbl (price sell3)] ∧
  ∀ st2 bo2 ao2,
    active_orders st2 !! 2 = Some bo2 →
    active_orders st2 !! 3 = Some ao2 →
    price bo2 = price buy2 → price ao2 = price sell3 →
    emitted st2 (process_match st2 2 3)
      = emitted (enqueue book_bids sell3)
                (process_match (enqueue book_bids sell3) 2 3).
Proof.
  apply (trade_notification_fields (enqueue book_bids sell3) 2 3 buy2 sell3).
  - by_eval.
  - by_eval.
Defined.

(** C2, as stated, fails. In the match of the demo (bid 2 with 200 left, ask
    3 with 50 left, matched quantity 50) the numbers printed are not the five
    values of the specified notification: the matched quantity is missing. *)
Lemma trade_notification_lacks_quantity :
  active_orders (enqueue book_bids sell3) !! 2 = Some buy2 ∧
  active_orders (enqueue book_bids sell3) !! 3 = Some sell3 ∧
  match_step (enqueue book_bids sell3)
    = Some (process_match (enqueue book_bids sell3) 2 3) ∧
  Z.min (quantity buy2) (quantity sell3) = 50 ∧
  ¬ payload (emitted (enqueue book_bids sell3)
                     (process_match (enqueue book_bids sell3) 2 3))
      ≡ₚ specified_notification 2 3 (price buy2) (price sell3) 50.
Proof.
  split; [by_eval|]. split; [by_eval|].
  split; [by_eval|]. split; [by_eval|].
  intros H%Permutation_length. vm_compute in H. discriminate.
Qed.

(** ** C3: aggregate of a level *)

Lemma sum_qty_nonneg reg q :
  (∀ id o, reg !! id = Some o → is_u64 (quantity o)) → 0 ≤ sum_qty reg q.
Proof.
  intros Hreg. induction q as [|x q IH]; [done|].
  rewrite sum_qty_cons. unfold qty_of at 1.
  destruct (reg !! x) as [o|] eqn:Ho; simpl; [|lia].
  destruct (Hreg _ _ Ho). lia.
Qed.

(** C3, as the code has it. After every completed public operation of a run
    in which every price given to the book is a number, the aggregate of
    every indexed level is the sum of the remaining quantities of the orders
    of its queue reduced modulo [2^64] (so it is that sum whenever the sum
    is below [2^64]), and no indexed level has an empty queue. *)
Theorem level_aggregate_mod st b p lv :
  reachable st → fetch_side st b !! p = Some lv →
  aggregate_volume lv
    = sum_qty (active_orders st) (order_queue lv) mod u64_modulus ∧
  (sum_qty (active_orders st) (order_queue lv) < u64_modulus →
   aggregate_volume lv = sum_qty (active_orders st) (order_queue lv)) ∧
  order_queue lv ≠ [].
Proof.
  intros Hr Hlv. pose proof (reachable_consistent _ Hr) as Hc.
  destruct (cons_level _ Hc _ _ _ Hlv) as (_ & Hne & _ & Hagg).
  split; [done|]. split; [|done].
  intros Hlt. rewrite Hagg. apply Z.mod_small. split; [|done].
  apply sum_qty_nonneg. intros id o Ho. by apply (cons_reg _ Hc id).
Qed.

Lemma level_aggregate_mod_witness :
  reachable book_after_sell ∧
  fetch_side book_after_sell true !! p50_50 = Some (mkLevel p50_50 [2] 150) ∧
  150 = sum_qty (active_orders book_after_sell) [2] mod u64_modulus ∧
  (sum_qty (active_orders book_after_sell) [2] < u64_modulus →
   150 = sum_qty (active_orders book_after_sell) [2]) ∧
  [2] ≠ [].
Proof.
  split; [apply reachable_book_after_sell|]. split; [by_eval|].
  apply (level_aggregate_mod book_after_sell true p50_50
           (mkLevel p50_50 [2] 150)).
  - apply reachable_book_after_sell.
  - by_eval.
Defined.

(** C3, as stated, fails. After two insertions of [2^63] units at one price
    the aggregate of the level has wrapped to 0 and is not the sum [2^64] of
    the two remaining quantities. And not even modulo [2^64] is the
    aggregate the sum once a price was NaN: after [add_order] of
    [id=1, 10 @ 50], [id=2, 10 @ NaN] and [id=3, 10 @ 49] and [cancel_order(2)]
    the level of 50 still has the queue [1; 2] and the aggregate 20, and the
    only order left of this queue has quantity 10. *)
Lemma aggregate_is_not_the_sum :
  ¬ (∀ st b p lv,
       reachable st → fetch_side st b !! p = Some lv →
       aggregate_volume lv = sum_qty (active_orders st) (order_queue lv)) ∧
  ¬ (∀ st b p lv,
       obtainable st → fetch_side st b !! p = Some lv →
       aggregate_volume lv
         = sum_qty (active_orders st) (order_queue lv) mod u64_modulus).
Proof.
  split.
  - intros H.
    specialize (H book_wrapped true p50_25 (mkLevel p50_25 [1; 2] 0)
                  reachable_book_wrapped).
    assert (Hl : fetch_side book_wrapped true !! p50_25
                 = Some (mkLevel p50_25 [1; 2] 0)) by by_eval.
    revert H. apply (bool_decide_unpack _). vm_compute. exact I.
  - intros H.
    specialize (H book_nan_stale true p50_00 (mkLevel p50_00 [1; 2] 20)
                  obtainable_book_nan_stale).
    assert (Hl : fetch_side book_nan_stale true !! p50_00
                 = Some (mkLevel p50_00 [1; 2] 20)) by by_eval.
    revert H. apply (bool_decide_unpack _). vm_compute. exact I.
Qed.

(** ** C6: cancel_order *)

(** C6, as the code has it. [cancel_order] of an identifier that is not in
    the registry returns [false] and the book is unchanged. For an
    identifier of the registry that is in the queue of the level that [find]
    returns for the price of its order, it returns [true]; the first
    occurrence of the identifier is erased from the queue of that level and
    the quantity of the order is subtracted (as [uint64_t]) from the
    aggregate; the level is evicted when its queue is now empty; the order
    leaves the registry; and nothing else changes, in any such book, crossed
    or not: no match is made and nothing is printed. In every book that the
    public operations build, whatever the prices they were given, every
    order of the registry whose price is a number is in this way in the
    queue of the level found for its price; and in a reachable book, that is
    after any run of operations whose prices are numbers, every order of
    the registry has a price that is a number, its level is indexed under
    this price and has the identifier once, so that the identifier is no
    longer in the queue. *)
Theorem cancel_order_spec st id :
  (active_orders st !! id = None → cancel_order st id = (false, st)) ∧
  (∀ o k lv,
     active_orders st !! id = Some o →
     shaped (fetch_side st (is_buy o)) →
     map_find (fetch_side st (is_buy o)) (price o) = Some (k, lv) →
     id ∈ order_queue lv →
     ∃ st',
       cancel_order st id = (true, st') ∧
       active_orders st' = delete id (active_orders st) ∧
       cout st' = cout st ∧
       fetch_side st' (negb (is_buy o)) = fetch_side st (negb (is_buy o)) ∧
       (∀ p, p ≠ k →
             fetch_side st' (is_buy o) !! p = fetch_side st (is_buy o) !! p) ∧
       fetch_side st' (is_buy o) !! k =
         match erase_first id (order_queue lv) with
         | [] => None
         | q' => Some (mkLevel (price_point lv) q'
                               (u64_sub (aggregate_volume lv) (quantity o)))
         end) ∧
  (obtainable st →
   ∀ o, active_orders st !! id = Some o → not_nan (price o) →
        shaped (fetch_side st (is_buy o)) ∧
        ∃ k lv,
          map_find (fetch_side st (is_buy o)) (price o) = Some (k, lv) ∧
          id ∈ order_queue lv ∧
          (k = price o ∨ fetch_side st (is_buy o) = {[NaN := lv]})) ∧
  (reachable st →
   ∀ o, active_orders st !! id = Some o →
        not_nan (price o) ∧
        ∃ lv,
          map_find (fetch_side st (is_buy o)) (price o)
            = Some (price o, lv) ∧
          id ∈ order_queue lv ∧ id ∉ erase_first id (order_queue lv)).
Proof.
  split; [apply cancel_order_unknown|]. split; [|split].
  - intros o k lv Ho Hsh Hf Hin. eexists.
    split; [by apply cancel_order_at|].
    split; [by destruct (is_buy o)|]. split; [by destruct (is_buy o)|].
    split; [by destruct (is_buy o)|].
    rewrite fetch_side_set_orders, fetch_side_set_side,
      bool_decide_eq_true_2 by done.
    split.
    + intros p Hp. rewrite evict_or_keep_lookup.
      by rewrite bool_decide_eq_false_2.
    + rewrite evict_or_keep_lookup, bool_decide_eq_true_2 by done.
      unfold is_empty, cancelled_level. cbn [order_queue].
      by destruct (erase_first id (order_queue lv)).
  - intros Hob o Ho Hn. destruct (obtainable_inv _ Hob) as [Hs _].
    split; [apply (sound_shape _ Hs)|].
    destruct (sound_order _ Hs _ _ Ho Hn) as (k & lv & Hf & Hin).
    exists k, lv. split; [done|]. split; [done|].
    pose proof (map_find_Some _ _ _ _ Hf) as Hlv.
    destruct (sound_shape _ Hs (is_buy o)) as [Hnf|[l Hl]].
    + left. rewrite map_find_number in Hf by done.
      destruct (fetch_side st (is_buy o) !! price o); by simplify_eq/=.
    + right. rewrite Hl in Hlv |- *.
      by apply lookup_singleton_Some in Hlv as [_ ->].
  - intros Hr o Ho. pose proof (reachable_consistent _ Hr) as Hc.
    split; [by eapply consistent_price|].
    destruct (cons_order _ Hc _ _ Ho) as (lv & Hlv & Hin).
    exists lv. split; [|split; [done|]].
    + by apply map_find_lookup; [apply consistent_nan_free|].
    + destruct (cons_level _ Hc _ _ _ Hlv) as (_ & _ & Hnd & _).
      rewrite elem_of_erase_first by done. by intros [_ ?].
Qed.

Lemma cancel_order_spec_witness :
  cancel_order book_bids 9999 = (false, book_bids) ∧
  (∃ st',
     cancel_order book_bids 2 = (true, st') ∧
     active_orders st' = delete 2 (active_orders book_bids) ∧
     cout st' = cout book_bids ∧
     fetch_side st' false = fetch_side book_bids false ∧
     (∀ p, p ≠ p50_50 →
           fetch_side st' true !! p = fetch_side book_bids true !! p) ∧
     fetch_side st' true !! p50_50 = None) ∧
  (∃ st',
     cancel_order book_nan_twice 2 = (true, st') ∧
     active_orders st' = delete 2 (active_orders book_nan_twice) ∧
     cout st' = cout book_nan_twice ∧
     fetch_side st' false = fetch_side book_nan_twice false ∧
     (∀ p, p ≠ p50_00 →
           fetch_side st' true !! p = fetch_side book_nan_twice true !! p) ∧
     fetch_side st' true !! p50_00 = Some (mkLevel p50_00 [1; 2] 20)).
Proof.
  destruct (cancel_order_spec book_bids 9999) as (Hno & _ & _).
  destruct (cancel_order_spec book_bids 2) as (_ & Hyes & _).
  destruct (cancel_order_spec book_nan_twice 2) as (_ & Hdup & _).
  split; [|split].
  - apply Hno. by_eval.
  - apply (Hyes buy2 p50_50 (mkLevel p50_50 [2] 200)).
    + by_eval.
    + left. by_eval.
    + by_eval.
    + unfold order_queue. apply list_elem_of_singleton. reflexivity.
  - apply (Hdup bid50_again p50_00 (mkLevel p50_00 [1; 2; 2] 25)).
    + by_eval.
    + left. by_eval.
    + by_eval.
    + by_eval.
Defined.

(** C6, as stated, fails. After [add_order] of [id=1, 10 @ 50],
    [id=2, 10 @ NaN] and [id=3, 10 @ 49] the order 2 is in the registry and
    in the queue of the level of 50. [cancel_order(2)] returns [true] and
    takes the order out of the registry, and leaves the bid side as it was:
    the identifier is still in the queue [1; 2] of the level of 50 and the
    aggregate of that level is still 20. What a NaN has left behind is in
    the way of later orders, whatever their price: after [add_order] of a
    new order [id=2, 5 @ 50] the queue of the level of 50 is [1; 2; 2], and
    [cancel_order(2)] returns [true] and leaves the identifier in that
    queue. *)
Lemma cancel_order_misses_nan_order :
  (obtainable book_nan_guest ∧
   active_orders book_nan_guest !! 2 = Some bidNaN ∧
   bid_levels book_nan_guest !! p50_00 = Some (mkLevel p50_00 [1; 2] 20) ∧
   cancel_order book_nan_guest 2 = (true, book_nan_stale) ∧
   active_orders book_nan_stale !! 2 = None ∧
   bid_levels book_nan_stale = bid_levels book_nan_guest ∧
   bid_levels book_nan_stale !! p50_00 = Some (mkLevel p50_00 [1; 2] 20)) ∧
  (obtainable book_nan_twice ∧
   active_orders book_nan_twice !! 2 = Some bid50_again ∧
   bid_levels book_nan_twice !! p50_00 = Some (mkLevel p50_00 [1; 2; 2] 25) ∧
   cancel_order book_nan_twice 2 = (true, book_nan_stale) ∧
   2 ∈ level_queue book_nan_stale true p50_00).
Proof.
  split.
  - split; [apply obtainable_book_nan_guest|]. repeat split; by_eval.
  - split; [apply obtainable_book_nan_twice|]. repeat split; by_eval.
Qed.

(** ** C7: a duplicate identifier *)

(** C7. [add_order] of an order whose identifier is in the registry returns
    the book it was given: registry, both sides, every queue and aggregate
    and the output are the same, in any book, so no match was made; and
    doing it again changes nothing either. *)
Theorem add_order_duplicate fuel st o o' :
  active_orders st !! order_id o = Some o' →
  add_order fuel st o = Some st ∧
  (add_order fuel st o ≫= λ st', add_order fuel st' o) = Some st.
Proof.
  intros Hdup.
  assert (H1 : add_order fuel st o = Some st).
  { unfold add_order. by rewrite Hdup. }
  split; [done|]. by rewrite H1.
Qed.

Lemma add_order_duplicate_witness :
  add_order 0 book_bids (mkOrder 2 false p49_75 7 5) = Some book_bids ∧
  (add_order 0 book_bids (mkOrder 2 false p49_75 7 5)
     ≫= λ st', add_order 0 st' (mkOrder 2 false p49_75 7 5)) = Some book_bids.
Proof.
  apply (add_order_duplicate 0 book_bids (mkOrder 2 false p49_75 7 5) buy2).
  by_eval.
Defined.

(** ** C10: a same-price amendment to quantity zero *)

(** C10, as the code has it. In every book that the public operations
    build, whatever the prices they were given, [amend_order id (price o) 0]
    for an order [o] of the registry whose price is a number returns
    [true]; the order stays in the registry with quantity 0 and its other
    fields, and stays in the queue of its level, the one [find] returns for
    its price, which is still indexed and has the same queue; the aggregate
    of the level is its old value minus the old quantity of the order (as
    [uint64_t]); the other side and the output are unchanged. The level is
    indexed under the price of the order, unless the only key of the side is
    NaN; in a reachable book it always is. *)
Theorem amend_to_zero_keeps_order fuel st id o :
  obtainable st → active_orders st !! id = Some o → not_nan (price o) →
  ∃ k lv st',
    map_find (fetch_side st (is_buy o)) (price o) = Some (k, lv) ∧
    fetch_side st (is_buy o) !! k = Some lv ∧
    id ∈ order_queue lv ∧
    (k = price o ∨ fetch_side st (is_buy o) = {[NaN := lv]}) ∧
    (reachable st → k = price o) ∧
    amend_order fuel st id (price o) 0 = Some (true, st') ∧
    active_orders st' = <[id := set_quantity o 0]> (active_orders st) ∧
    active_orders st' !! id = Some (set_quantity o 0) ∧
    fetch_side st' (is_buy o) =
      <[k := mkLevel (price_point lv) (order_queue lv)
               (u64_sub (aggregate_volume lv) (quantity o))]>
        (fetch_side st (is_buy o)) ∧
    level_queue st' (is_buy o) k = level_queue st (is_buy o) k ∧
    id ∈ level_queue st' (is_buy o) k ∧
    fetch_side st' (negb (is_buy o)) = fetch_side st (negb (is_buy o)) ∧
    cout st' = cout st.
Proof.
  intros Hob Ho Hn. destruct (obtainable_inv _ Hob) as [Hs _].
  destruct (sound_order _ Hs _ _ Ho Hn) as (k & lv & Hf & Hin).
  pose proof (map_find_Some _ _ _ _ Hf) as Hlv.
  assert (Hnf : fetch_side st (is_buy o) !! NaN = None → k = price o).
  { intros Hnf. rewrite map_find_number in Hf by done.
    destruct (fetch_side st (is_buy o) !! price o); by simplify_eq/=. }
  exists k, lv. eexists. split; [done|]. split; [done|]. split; [done|].
  split.
  { destruct (sound_shape _ Hs (is_buy o)) as [Hnf'|[l Hl]]; [left; auto|].
    right. rewrite Hl in Hlv |- *.
    by apply lookup_singleton_Some in Hlv as [_ ->]. }
  split.
  { intros Hr. by apply Hnf, consistent_nan_free, reachable_consistent. }
  split.
  { unfold amend_order. rewrite Ho.
    rewrite bool_decide_eq_false_2 by (by apply dne_refl).
    by rewrite Hf. }
  assert (Hagg : u64_add (u64_sub (aggregate_volume lv) (quantity o)) 0
                 = u64_sub (aggregate_volume lv) (quantity o)).
  { unfold u64_add. rewrite Z.add_0_r. unfold u64_sub. apply Z.mod_mod.
    by compute. }
  split; [by destruct (is_buy o)|].
  split; [cbn [set_orders active_orders]; apply lookup_insert_eq|].
  assert (Hside : fetch_side
            (set_orders
               (set_side st (is_buy o)
                  (<[k := update_volume lv (quantity o) 0]>
                     (fetch_side st (is_buy o))))
               (<[id := set_quantity o 0]> (active_orders st))) (is_buy o)
          = <[k := mkLevel (price_point lv) (order_queue lv)
                     (u64_sub (aggregate_volume lv) (quantity o))]>
              (fetch_side st (is_buy o))).
  { rewrite fetch_side_set_orders, fetch_side_set_side,
      bool_decide_eq_true_2 by done.
    unfold update_volume. by rewrite Hagg. }
  split; [done|].
  assert (Hq : level_queue
            (set_orders
               (set_side st (is_buy o)
                  (<[k := update_volume lv (quantity o) 0]>
                     (fetch_side st (is_buy o))))
               (<[id := set_quantity o 0]> (active_orders st)))
            (is_buy o) k = level_queue st (is_buy o) k).
  { unfold level_queue. by rewrite Hside, lookup_insert_eq, Hlv. }
  split; [done|]. split.
  { rewrite Hq. unfold level_queue. by rewrite Hlv. }
  split; by destruct (is_buy o).
Qed.

Lemma amend_to_zero_keeps_order_witness :
  obtainable book_nan_guest ∧
  ∃ k lv st',
    map_find (fetch_side book_nan_guest true) p50_00 = Some (k, lv) ∧
    fetch_side book_nan_guest true !! k = Some lv ∧
    1 ∈ order_queue lv ∧
    (k = p50_00 ∨ fetch_side book_nan_guest true = {[NaN := lv]}) ∧
    (reachable book_nan_guest → k = p50_00) ∧
    amend_order 0 book_nan_guest 1 p50_00 0 = Some (true, st') ∧
    active_orders st'
      = <[1 := set_quantity bid50 0]> (active_orders book_nan_guest) ∧
    active_orders st' !! 1 = Some (set_quantity bid50 0) ∧
    fetch_side st' true =
      <[k := mkLevel (price_point lv) (order_queue lv)
               (u64_sub (aggregate_volume lv) 10)]>
        (fetch_side book_nan_guest true) ∧
    level_queue st' true k = level_queue book_nan_guest true k ∧
    1 ∈ level_queue st' true k ∧
    fetch_side st' false = fetch_side book_nan_guest false ∧
    cout st' = cout book_nan_guest.
Proof.
  split; [apply obtainable_book_nan_guest|].
  apply (amend_to_zero_keeps_order 0 book_nan_guest 1 bid50).
  - apply obtainable_book_nan_guest.
  - by_eval.
  - by_eval.
Defined.

(** C10, as stated, fails. After [add_order] of [id=1, 10 @ 50],
    [id=2, 10 @ NaN] and [id=3, 10 @ 49] the order 2 is in the registry with
    the price NaN and in the queue of the level of 50.
    [amend_order(2, NaN, 0)], an amendment to the price the order has,
    returns [true] and does not take the same-price path, a NaN being
    different from itself: the aggregate of the level of 50 is still 20, not
    decreased by the 10 of the order, and the identifier is now also at the
    tail of the queue of the level of 49. *)
Lemma amend_to_zero_requeues_nan_order :
  obtainable book_nan_guest ∧
  active_orders book_nan_guest !! 2 = Some bidNaN ∧
  bid_levels book_nan_guest !! p50_00 = Some (mkLevel p50_00 [1; 2] 20) ∧
  bid_levels book_nan_guest !! p49_00 = Some (mkLevel p49_00 [3] 10) ∧
  amend_order 0 book_nan_guest 2 (price bidNaN) 0
    = Some (true, book_nan_moved) ∧
  bid_levels book_nan_moved !! p50_00 = Some (mkLevel p50_00 [1; 2] 20) ∧
  bid_levels book_nan_moved !! p49_00 = Some (mkLevel p49_00 [3; 2] 10).
Proof.
  split; [apply obtainable_book_nan_guest|]. repeat split; by_eval.
Qed.

(** ** Queues after an operation *)

Lemma enqueue_level_queue st o b p :
  consistent st → not_nan (price o) →
  level_queue (enqueue st o) b p =
    if bool_decide (b = is_buy o ∧ p = price o)
    then level_queue st b p ++ [order_id o]
    else level_queue st b p.
Proof.
  intros Hc Hn. unfold level_queue. rewrite enqueue_side by done.
  case_bool_decide as Hb.
  - subst b. destruct (decide (p = price o)) as [->|Hp].
    + rewrite lookup_insert_eq, bool_decide_eq_true_2 by done.
      by destruct (fetch_side st (is_buy o) !! price o).
    + rewrite lookup_insert_ne by done.
      rewrite bool_decide_eq_false_2; [done|]. by intros [_ ?].
  - rewrite bool_decide_eq_false_2; [done|]. intros [? _]. congruence.
Qed.

Lemma consistent_notin st id b p :
  consistent st →
  (∀ o, active_orders st !! id = Some o → (b, p) ≠ (is_buy o, price o)) →
  id ∉ level_queue st b p.
Proof.
  intros Hc Hid. unfold level_queue.
  destruct (fetch_side st b !! p) as [lv|] eqn:Hlv; [|apply not_elem_of_nil].
  intros Hin. destruct (cons_queue _ Hc _ _ _ _ Hlv Hin) as (o & Ho & <- & <-).
  by apply (Hid o).
Qed.

Lemma cancel_level_queue st id b p :
  consistent st →
  level_queue (cancel_order st id).2 b p = erase_first id (level_queue st b p).
Proof.
  intros Hc. destruct (active_orders st !! id) as [o|] eqn:Ho.
  - destruct (cons_order _ Hc _ _ Ho) as (lv & Hlv & Hin).
    rewrite (cancel_order_active _ _ _ _ Hc Ho Hlv Hin). cbn [snd].
    destruct (decide ((b, p) = (is_buy o, price o))) as [[= -> ->]|Hne].
    + unfold level_queue.
      rewrite fetch_side_set_orders, fetch_side_set_side,
        bool_decide_eq_true_2, evict_or_keep_lookup, bool_decide_eq_true_2,
        Hlv by done.
      unfold is_empty, cancelled_level. cbn [order_queue].
      by destruct (erase_first id (order_queue lv)).
    + rewrite erase_first_notin
        by (apply consistent_notin; [done|]; intros o' ?; congruence).
      unfold level_queue.
      rewrite fetch_side_set_orders, fetch_side_set_side.
      case_bool_decide as Hb; [|done]. subst b.
      rewrite evict_or_keep_lookup, bool_decide_eq_false_2; [done|].
      congruence.
  - rewrite cancel_order_unknown by done. cbn [snd].
    rewrite erase_first_notin; [done|].
    apply consistent_notin; [done|]. intros o' ?; congruence.
Qed.

(** ** C5: an amendment that changes the price *)

(** C5. In a reachable book, for an order [o] of the registry under [id]
    and a new price different from its price, [amend_order] is [cancel_order]
    followed by [add_order] of the order with the same identifier (and side
    and timestamp), the new price and the new quantity. The insertion is not
    taken for a duplicate: it puts [id] at the tail of the queue of the new
    price (when this is a number), behind everything resting there, and then
    runs the matching loop (which in some books makes a match). *)
Theorem amend_price_is_cancel_then_add fuel st id o p q :
  reachable st → active_orders st !! id = Some o → dne (price o) p →
  let st1 := (cancel_order st id).2 in
  let o' := mkOrder id (is_buy o) p q (timestamp_ns o) in
  amend_order fuel st id p q = cancel_then_add fuel st id p q ∧
  cancel_order st id = (true, st1) ∧
  amend_order fuel st id p q
    = ((λ st2, (true, st2)) <$> execute_matching fuel (enqueue st1 o')) ∧
  (not_nan p →
   level_queue (enqueue st1 o') (is_buy o) p
     = level_queue st (is_buy o) p ++ [id]) ∧
  ∃ fuel2 st2 id2 p2 q2 st3,
    reachable st2 ∧ amend_order fuel2 st2 id2 p2 q2 = Some (true, st3) ∧
    emitted st2 st3 ≠ [].
Proof.
  intros Hr Ho Hp st1 o'. pose proof (reachable_consistent _ Hr) as Hc.
  destruct (cons_reg _ Hc _ _ Ho) as [Hid _].
  assert (Hnone : active_orders st1 !! order_id o' = None).
  { unfold st1. rewrite cancel_order_orders. apply lookup_delete_eq. }
  assert (Hadd : add_order fuel st1 o' = execute_matching fuel (enqueue st1 o')).
  { unfold add_order. by rewrite Hnone. }
  assert (Ham : amend_order fuel st id p q
                = ((λ st2, (true, st2)) <$> add_order fuel st1 o')).
  { unfold amend_order. rewrite Ho, bool_decide_eq_true_2 by done.
    rewrite Hid. fold o' st1. by destruct (add_order fuel st1 o'). }
  split.
  { rewrite Ham. unfold cancel_then_add. rewrite Ho.
    fold st1. destruct (cancel_order st id) as [r s] eqn:Hcancel.
    unfold st1. cbn [snd]. fold o'. by destruct (add_order fuel s o'). }
  split.
  { unfold st1, cancel_order. by rewrite Ho. }
  split; [by rewrite Ham, Hadd|]. split.
  { intros Hn.
    rewrite enqueue_level_queue, bool_decide_eq_true_2;
      [|done|by apply consistent_cancel|done].
    unfold st1. rewrite cancel_level_queue by done.
    rewrite erase_first_notin; [done|].
    apply consistent_notin; [done|]. intros o2 Ho2 [= _ Heq].
    assert (o2 = o) as -> by congruence. rewrite <- Heq in Hp.
    revert Hp. rewrite dne_number by done. congruence. }
  exists 1%nat, book_two_sided, 4, p50_25, 70,
    (default empty_book (snd <$> amend_order 1 book_two_sided 4 p50_25 70)).
  split; [apply reachable_book_two_sided|]. split; by_eval.
Qed.

Lemma amend_price_is_cancel_then_add_witness :
  reachable book_bids ∧
  amend_order 0 book_bids 2 p49_75 300
    = cancel_then_add 0 book_bids 2 p49_75 300 ∧
  level_queue (enqueue (cancel_order book_bids 2).2
                       (mkOrder 2 true p49_75 300 1000000001)) true p49_75
    = level_queue book_bids true p49_75 ++ [2].
Proof.
  split; [apply reachable_book_bids|].
  destruct (amend_price_is_cancel_then_add 0 book_bids 2 buy2 p49_75 300)
    as (H1 & _ & _ & H4 & _).
  - apply reachable_book_bids.
  - by_eval.
  - by_eval.
  - split; [exact H1|]. apply H4. by_eval.
Defined.

(** ** Queues during the matching loop *)










(** ** C8: arrival order within a level *)



(** ** C9: the matching loop terminates *)

(** C9, as the code has it. In a reachable book, that is after any run of
    operations whose prices are numbers, [add_order] of any order whose
    price is a number returns: with more fuel than the registry has orders,
    the matching loop it runs comes to its end. It leaves the loop in a book
    where the bid side is empty, or the ask side is empty, or the best bid
    is priced below the best ask; a duplicate identifier returns at once,
    without the loop. *)
Theorem matching_loop_terminates st o fuel :
  reachable st → valid_order o →
  (size (active_orders st) < fuel)%nat →
  ∃ st',
    add_order fuel st o = Some st' ∧
    (is_Some (active_orders st !! order_id o) → st' = st) ∧
    (active_orders st !! order_id o = None →
     execute_matching fuel (enqueue st o) = Some st' ∧
     loop_state (enqueue st o) st' ∧
     match_step st' = None ∧
     (bid_levels st' = ∅ ∨ ask_levels st' = ∅ ∨
      ∃ pb bl pa al,
        map_rbegin (bid_levels st') = Some (pb, bl) ∧
        map_begin (ask_levels st') = Some (pa, al) ∧
        dlt (get_price bl) (get_price al))).
Proof.
  intros Hr (_ & Hq & _ & Hn) Hfuel.
  pose proof (reachable_consistent _ Hr) as Hc.
  unfold add_order.
  destruct (active_orders st !! order_id o) as [o'|] eqn:Hid.
  - exists st. split; [done|]. split; [done|]. intros [=].
  - pose proof (consistent_enqueue _ _ Hc Hid Hq Hn) as Hc1.
    destruct (execute_matching_terminates fuel (enqueue st o) Hc1)
      as [st' Hrun].
    { rewrite enqueue_orders, map_size_insert_None by done. lia. }
    destruct (execute_matching_inv _ _ _ Hc1 Hrun) as (Hc' & Hstop & Hl).
    exists st'. split; [done|]. split; [by intros [? [=]]|]. intros _.
    split; [done|]. split; [done|]. split; [done|].
    destruct (match_step_None _ Hc' Hstop)
      as [?|[?|(pb & bl & pa & al & ? & ? & ? & _)]]; [by left|by right; left|].
    right. right. by exists pb, bl, pa, al.
Qed.

Lemma matching_loop_terminates_witness :
  reachable book_bids ∧
  ∃ st',
    add_order 3 book_bids sell3 = Some st' ∧
    (is_Some (active_orders book_bids !! 3) → st' = book_bids) ∧
    (active_orders book_bids !! 3 = None →
     execute_matching 3 (enqueue book_bids sell3) = Some st' ∧
     loop_state (enqueue book_bids sell3) st' ∧
     match_step st' = None ∧
     (bid_levels st' = ∅ ∨ ask_levels st' = ∅ ∨
      ∃ pb bl pa al,
        map_rbegin (bid_levels st') = Some (pb, bl) ∧
        map_begin (ask_levels st') = Some (pa, al) ∧
        dlt (get_price bl) (get_price al))).
Proof.
  split; [apply reachable_book_bids|].
  apply (matching_loop_terminates book_bids sell3 3).
  - apply reachable_book_bids.
  - by vm_compute.
  - vm_compute. lia.
Defined.

(** C9, as stated, fails. After [add_order] of [id=1, 10 @ 50],
    [id=2, 10 @ NaN] and [id=3, 10 @ 49] and [cancel_order(2)], the
    identifier 2 is in the queue of the level of 50 and not in the registry.
    [add_order] of the sell [id=4, 20 @ 50] then fills the bid 1 and meets
    the identifier 2 at the head of the best bid level: [process_match]
    returns at once, the book is as it was, and the loop goes on for ever. *)
Lemma matching_loop_spins_on_stale_head :
  obtainable book_nan_stale ∧
  ¬ ∃ fuel st', add_order fuel book_nan_stale sell50 = Some st'.
Proof.
  split; [apply obtainable_book_nan_stale|]. intros (fuel & st' & Hrun).
  assert (H0 : match_step (enqueue book_nan_stale sell50)
               = Some book_nan_spin) by by_eval.
  assert (H1 : match_step book_nan_spin = Some book_nan_spin) by by_eval.
  rewrite add_order_fresh in Hrun by by_eval.
  rewrite (execute_matching_step _ _ _ H0) in Hrun.
  destruct fuel as [|fuel]; [discriminate Hrun|].
  rewrite (execute_matching_stuck _ _ H1) in Hrun. discriminate Hrun.
Qed.

(** * Further properties of the code *)

(** ** The registry and the levels agree *)

(** X1. In a reachable book, that is after any run of operations whose prices
    are numbers, every order of the registry is stored under its own
    identifier, has a quantity that fits [uint64_t] and a price that is a
    number, and rests in the queue of the level of its side and price and in
    no other queue; every identifier of a queue is in the registry; no queue
    holds an identifier twice; and every level is indexed under its own
    price, a number. *)
Theorem registry_and_levels_agree st :
  reachable st →
  (∀ id o, active_orders st !! id = Some o →
     order_id o = id ∧ is_u64 (quantity o) ∧ not_nan (price o) ∧
     id ∈ level_queue st (is_buy o) (price o) ∧
     ∀ b p, id ∈ level_queue st b p → b = is_buy o ∧ p = price o) ∧
  (∀ b p id, id ∈ level_queue st b p → is_Some (active_orders st !! id)) ∧
  (∀ b p, NoDup (level_queue st b p)) ∧
  (∀ b p lv, fetch_side st b !! p = Some lv → get_price lv = p ∧ not_nan p).
Proof.
  intros Hr. pose proof (reachable_consistent _ Hr) as Hc.
  split; [|split; [|split]].
  - intros id o Ho. destruct (cons_reg _ Hc _ _ Ho) as [Hid Hq].
    destruct (cons_order _ Hc _ _ Ho) as (lv & Hlv & Hin).
    split; [done|]. split; [done|].
    split; [by eapply consistent_price|]. split.
    + unfold level_queue. by rewrite Hlv.
    + intros b p. unfold level_queue.
      destruct (fetch_side st b !! p) as [l|] eqn:Hl;
        [|by intros ?%not_elem_of_nil].
      intros Hin'. by eapply consistent_where.
  - intros b p id. unfold level_queue.
    destruct (fetch_side st b !! p) as [l|] eqn:Hl;
      [|by intros ?%not_elem_of_nil].
    intros Hin. destruct (cons_queue _ Hc _ _ _ _ Hl Hin) as (o & Ho & _).
    by eexists.
  - intros b p. unfold level_queue.
    destruct (fetch_side st b !! p) as [l|] eqn:Hl; [|apply NoDup_nil_2].
    by destruct (cons_level _ Hc _ _ _ Hl) as (_ & _ & ? & _).
  - intros b p lv Hlv. split; [|by eapply (cons_key _ Hc)].
    by destruct (cons_level _ Hc _ _ _ Hlv) as (? & _).
Qed.

Lemma registry_and_levels_agree_witness :
  (∀ id o, active_orders book_after_sell !! id = Some o →
     order_id o = id ∧ is_u64 (quantity o) ∧ not_nan (price o) ∧
     id ∈ level_queue book_after_sell (is_buy o) (price o) ∧
     ∀ b p, id ∈ level_queue book_after_sell b p →
            b = is_buy o ∧ p = price o) ∧
  (∀ b p id, id ∈ level_queue book_after_sell b p →
             is_Some (active_orders book_after_sell !! id)) ∧
  (∀ b p, NoDup (level_queue book_after_sell b p)) ∧
  (∀ b p lv, fetch_side book_after_sell b !! p = Some lv →
             get_price lv = p ∧ not_nan p).
Proof.
  apply (registry_and_levels_agree book_after_sell).
  apply reachable_book_after_sell.
Defined.

(** ** What one match does to the two orders *)

Lemma process_match_registry st bid_id ask_id bo ao bl al :
  consistent st →
  bid_levels st !! price bo = Some bl →
  ask_levels st !! price ao = Some al →
  active_orders st !! bid_id = Some bo →
  active_orders st !! ask_id = Some ao →
  is_buy bo = true → is_buy ao = false →
  let m := Z.min (quantity bo) (quantity ao) in
  (∀ id, id ≠ bid_id → id ≠ ask_id →
         active_orders (process_match st bid_id ask_id) !! id
           = active_orders st !! id) ∧
  active_orders (process_match st bid_id ask_id) !! bid_id =
    (if bool_decide (quantity bo ≤ quantity ao) then None
     else Some (set_quantity bo (quantity bo - m))) ∧
  active_orders (process_match st bid_id ask_id) !! ask_id =
    (if bool_decide (quantity ao ≤ quantity bo) then None
     else Some (set_quantity ao (quantity ao - m))).
Proof.
  intros Hc Hbl Hal Hbo Hao Hbuy Hsell m.
  assert (Hne : bid_id ≠ ask_id) by (intros ->; congruence).
  destruct (process_match_orders _ _ _ _ _ _ _ Hc Hbl Hal Hbo Hao Hbuy Hsell)
    as (gb & ga & _ & Hgb & Hga & ->).
  destruct (match_qty_bounds _ _ _ _ _ Hc Hbo Hao) as [Hmb Hma].
  destruct (cons_reg _ Hc _ _ Hbo) as [_ Hqb].
  destruct (cons_reg _ Hc _ _ Hao) as [_ Hqa].
  unfold matched_book. cbn [active_orders]. fold m.
  rewrite !u64_sub_exact by done.
  split; [|split].
  - intros k Hb Ha.
    destruct gb, ga; cbn [id];
      by rewrite ?lookup_delete_ne, ?lookup_insert_ne by done.
  - case_bool_decide as Hle.
    + apply Hgb in Hle. subst gb.
      destruct ga; cbn [id]; rewrite ?lookup_delete_ne by done;
        apply lookup_delete_eq.
    + assert (gb = false) as -> by (destruct gb; [tauto|done]).
      destruct ga; cbn [id];
        by rewrite ?lookup_delete_ne, lookup_insert_ne, lookup_insert_eq
          by done.
  - case_bool_decide as Hle.
    + apply Hga in Hle. subst ga. apply lookup_delete_eq.
    + assert (ga = false) as -> by (destruct ga; [tauto|done]).
      destruct gb; cbn [id];
        by rewrite ?lookup_delete_ne, lookup_insert_eq by done.
Qed.

(** X2. In an iteration of the matching loop started by an insertion, at a
    price that is a number, into a reachable book (a book obtained by
    operations whose prices are numbers), the heads [bid] and [ask] of the
    two best levels trade
    the smaller of their two remaining quantities: the order with the smaller
    quantity leaves the registry (both do when the quantities are equal), the
    other one keeps its identifier, side, price and timestamp and is left
    with the difference, and no other order of the registry changes. *)
Theorem match_fills_smaller_order st o s s' :
  reachable st → valid_order o → active_orders st !! order_id o = None →
  loop_state (enqueue st o) s → match_step s = Some s' →
  ∃ pb bl bid bq pa al ask aq bo ao,
    map_rbegin (bid_levels s) = Some (pb, bl) ∧ order_queue bl = bid :: bq ∧
    map_begin (ask_levels s) = Some (pa, al) ∧ order_queue al = ask :: aq ∧
    active_orders s !! bid = Some bo ∧ active_orders s !! ask = Some ao ∧
    (∀ id, id ≠ bid → id ≠ ask →
           active_orders s' !! id = active_orders s !! id) ∧
    active_orders s' !! bid =
      (if bool_decide (quantity bo ≤ quantity ao) then None
       else Some (set_quantity bo (quantity bo - quantity ao))) ∧
    active_orders s' !! ask =
      (if bool_decide (quantity ao ≤ quantity bo) then None
       else Some (set_quantity ao (quantity ao - quantity bo))).
Proof.
  intros Hr (_ & Hq & _ & Hn) Hid Hl Hstep.
  assert (Hc : consistent s).
  { eapply loop_state_consistent; [|done].
    apply consistent_enqueue; [by apply reachable_consistent|done..]. }
  destruct (match_step_Some _ _ Hc Hstep)
    as (pb & bl & bid & bq & pa & al & ask & aq & bo & ao & Hbest & Hbq &
        Hbesta & Haq & Hbl & Hal & Hbo & Hbuy & Hpb & Hao & Hsell & Hpa &
        _ & ->).
  subst pb pa.
  destruct (process_match_registry _ _ _ _ _ _ _ Hc Hbl Hal Hbo Hao
              Hbuy Hsell) as (Hrest & Hb & Ha).
  exists (price bo), bl, bid, bq, (price ao), al, ask, aq, bo, ao.
  do 6 (split; [done|]). split; [exact Hrest|]. split.
  - rewrite Hb.
    destruct (bool_decide (quantity bo ≤ quantity ao)) eqn:Hle; [done|].
    apply bool_decide_eq_false in Hle. do 2 f_equal. lia.
  - rewrite Ha.
    destruct (bool_decide (quantity ao ≤ quantity bo)) eqn:Hle; [done|].
    apply bool_decide_eq_false in Hle. do 2 f_equal. lia.
Qed.

Lemma match_fills_smaller_order_witness :
  ∃ pb bl bid bq pa al ask aq bo ao,
    map_rbegin (bid_levels (enqueue book_bids sell3)) = Some (pb, bl) ∧
    order_queue bl = bid :: bq ∧
    map_begin (ask_levels (enqueue book_bids sell3)) = Some (pa, al) ∧
    order_queue al = ask :: aq ∧
    active_orders (enqueue book_bids sell3) !! bid = Some bo ∧
    active_orders (enqueue book_bids sell3) !! ask = Some ao ∧
    (∀ id, id ≠ bid → id ≠ ask →
           active_orders book_after_sell !! id
             = active_orders (enqueue book_bids sell3) !! id) ∧
    active_orders book_after_sell !! bid =
      (if bool_decide (quantity bo ≤ quantity ao) then None
       else Some (set_quantity bo (quantity bo - quantity ao))) ∧
    active_orders book_after_sell !! ask =
      (if bool_decide (quantity ao ≤ quantity bo) then None
       else Some (set_quantity ao (quantity ao - quantity bo))).
Proof.
  apply (match_fills_smaller_order book_bids sell3).
  - apply reachable_book_bids.
  - by vm_compute.
  - by_eval.
  - apply loop_enter.
  - by_eval.
Defined.

(** ** Matches happen at crossing prices only *)

(** X3. Every match made by the loop of an insertion, at a price that is a
    number, into a reachable book (a book obtained by operations whose
    prices are numbers) pairs the oldest order of the highest bid price with
    the oldest order of the lowest ask price, that ask price is not above
    that bid price, and the line printed names these two orders with these
    two prices. *)
Theorem matches_only_at_crossing_prices st o s s' :
  reachable st → valid_order o → active_orders st !! order_id o = None →
  loop_state (enqueue st o) s → match_step s = Some s' →
  ∃ pb bl bid bq pa al ask aq,
    map_rbegin (bid_levels s) = Some (pb, bl) ∧ order_queue bl = bid :: bq ∧
    map_begin (ask_levels s) = Some (pa, al) ∧ order_queue al = ask :: aq ∧
    (∀ p lv, bid_levels s !! p = Some lv → dle p pb) ∧
    (∀ p lv, ask_levels s !! p = Some lv → dle pa p) ∧
    dle pa pb ∧
    emitted s s' = trade_line bid pb ask pa.
Proof.
  intros Hr (_ & Hq & _ & Hn) Hid Hl Hstep.
  assert (Hc : consistent s).
  { eapply loop_state_consistent; [|done].
    apply consistent_enqueue; [by apply reachable_consistent|done..]. }
  destruct (match_step_Some _ _ Hc Hstep)
    as (pb & bl & bid & bq & pa & al & ask & aq & bo & ao & Hbest & Hbq &
        Hbesta & Haq & Hbl & Hal & Hbo & Hbuy & Hpb & Hao & Hsell & Hpa &
        Hcross & ->).
  destruct (map_rbegin_Some _ _ _ Hbest) as [_ Hmax].
  destruct (map_begin_Some _ _ _ Hbesta) as [_ Hmin].
  exists pb, bl, bid, bq, pa, al, ask, aq.
  pose proof (cons_key _ Hc true _ _ Hbl) as Hnb.
  pose proof (cons_key _ Hc false _ _ Hal) as Hna.
  do 4 (split; [done|]). split.
  { intros p lv Hlv. apply dle_iff. split; [by eapply (cons_key _ Hc true)|].
    split; [done | by eapply Hmax]. }
  split.
  { intros p lv Hlv. apply dle_iff. split; [done|].
    split; [by eapply (cons_key _ Hc false) | by eapply Hmin]. }
  split; [by apply dle_iff|].
  unfold emitted. rewrite (process_match_cout _ _ _ _ _ Hbo Hao), Hpb, Hpa.
  by rewrite drop_app_length.
Qed.

Lemma matches_only_at_crossing_prices_witness :
  ∃ pb bl bid bq pa al ask aq,
    map_rbegin (bid_levels (enqueue book_bids sell3)) = Some (pb, bl) ∧
    order_queue bl = bid :: bq ∧
    map_begin (ask_levels (enqueue book_bids sell3)) = Some (pa, al) ∧
    order_queue al = ask :: aq ∧
    (∀ p lv, bid_levels (enqueue book_bids sell3) !! p = Some lv →
             dle p pb) ∧
    (∀ p lv, ask_levels (enqueue book_bids sell3) !! p = Some lv →
             dle pa p) ∧
    dle pa pb ∧
    emitted (enqueue book_bids sell3) book_after_sell
      = trade_line bid pb ask pa.
Proof.
  apply (matches_only_at_crossing_prices book_bids sell3).
  - apply reachable_book_bids.
  - by vm_compute.
  - by_eval.
  - apply loop_enter.
  - by_eval.
Defined.

(** ** An order that does not cross rests *)

Lemma match_step_uncrossed st :
  consistent st → uncrossed st → match_step st = None.
Proof.
  intros Hc Hu. unfold match_step.
  destruct (map_rbegin (bid_levels st)) as [[pb bl]|] eqn:Hb; [|done].
  destruct (map_begin (ask_levels st)) as [[pa al]|] eqn:Ha; [|done].
  destruct (map_rbegin_Some _ _ _ Hb) as [Hbl _].
  destruct (map_begin_Some _ _ _ Ha) as [Hal _].
  destruct (cons_level _ Hc true _ _ Hbl) as (Hpb & _).
  destruct (cons_level _ Hc false _ _ Hal) as (Hpa & _).
  unfold get_price. rewrite Hpb, Hpa.
  rewrite bool_decide_eq_true_2; [done|]. by eapply Hu.
Qed.

Lemma execute_matching_stop fuel st :
  match_step st = None → execute_matching fuel st = Some st.
Proof. intros H. destruct fuel; simpl; by rewrite H. Qed.

Lemma enqueue_side_sub st o b p l :
  consistent st → not_nan (price o) →
  fetch_side (enqueue st o) b !! p = Some l →
  (b = is_buy o ∧ p = price o) ∨ is_Some (fetch_side st b !! p).
Proof.
  intros Hc Hn.
  rewrite enqueue_side by done. case_bool_decide as Hb; [|right; by eexists].
  subst b. intros [[<- _]|[_ Hl]]%lookup_insert_Some; [by left|].
  right. by eexists.
Qed.

Lemma enqueue_uncrossed st o :
  consistent st → uncrossed st → not_nan (price o) → rests st o →
  uncrossed (enqueue st o).
Proof.
  intros Hc Hu Hn Hrest pb lb pa la Hlb Hla.
  destruct (enqueue_side_sub st o true _ _ Hc Hn Hlb) as [[Hb ->]|[lb' Hlb']];
    destruct (enqueue_side_sub st o false _ _ Hc Hn Hla)
      as [[Ha ->]|[la' Hla']].
  - congruence.
  - unfold rests in Hrest. rewrite <- Hb in Hrest.
    destruct (map_begin (ask_levels st)) as [[pa0 la0]|] eqn:Hbest.
    + destruct (map_begin_Some _ _ _ Hbest) as [Hla0 Hmin].
      specialize (Hmin _ _ Hla').
      apply (dlt_le_trans _ pa0); [|done..|];
        by eapply (cons_key _ Hc false).
    + apply map_begin_None in Hbest. cbn [fetch_side] in Hla'.
      by rewrite Hbest, lookup_empty in Hla'.
  - unfold rests in Hrest. rewrite <- Ha in Hrest.
    destruct (map_rbegin (bid_levels st)) as [[pb0 lb0]|] eqn:Hbest.
    + destruct (map_rbegin_Some _ _ _ Hbest) as [Hlb0 Hmax].
      specialize (Hmax _ _ Hlb').
      apply (le_dlt_trans _ pb0); [| |done..];
        by eapply (cons_key _ Hc true).
    + apply map_rbegin_None in Hbest. cbn [fetch_side] in Hlb'.
      by rewrite Hbest, lookup_empty in Hlb'.
  - by eapply Hu.
Qed.

Lemma add_order_resting fuel st o :
  consistent st → uncrossed st → is_u64 (quantity o) → not_nan (price o) →
  active_orders st !! order_id o = None → rests st o →
  add_order fuel st o = Some (enqueue st o).
Proof.
  intros Hc Hu Hq Hn Hid Hrest. unfold add_order. rewrite Hid.
  apply execute_matching_stop, match_step_uncrossed.
  - by apply consistent_enqueue.
  - by apply enqueue_uncrossed.
Qed.

(** X4. [add_order], in a reachable book, of a valid order with a new identifier
    whose price stays below every ask price (a buy) or above every bid price
    (a sell) makes no match and prints nothing, with any fuel: the order is
    registered and rests at the tail of the queue of its price, and nothing
    else changes. *)
Theorem passive_order_rests fuel st o :
  reachable st → valid_order o → active_orders st !! order_id o = None →
  rests st o →
  add_order fuel st o = Some (enqueue st o) ∧
  cout (enqueue st o) = cout st ∧
  active_orders (enqueue st o) = <[order_id o := o]> (active_orders st) ∧
  ∀ b p, level_queue (enqueue st o) b p =
         if bool_decide (b = is_buy o ∧ p = price o)
         then level_queue st b p ++ [order_id o]
         else level_queue st b p.
Proof.
  intros Hr (_ & Hq & _ & Hn) Hid Hrest.
  destruct (reachable_inv _ Hr) as [Hc Hu].
  split; [by apply add_order_resting|].
  split; [apply enqueue_cout|]. split; [apply enqueue_orders|].
  intros b p. by apply enqueue_level_queue.
Qed.

Lemma passive_order_rests_witness :
  add_order 0 book_bids sell2001 = Some (enqueue book_bids sell2001) ∧
  cout (enqueue book_bids sell2001) = cout book_bids ∧
  active_orders (enqueue book_bids sell2001)
    = <[order_id sell2001 := sell2001]> (active_orders book_bids) ∧
  ∀ b p, level_queue (enqueue book_bids sell2001) b p =
         if bool_decide (b = is_buy sell2001 ∧ p = price sell2001)
         then level_queue book_bids b p ++ [order_id sell2001]
         else level_queue book_bids b p.
Proof.
  apply (passive_order_rests 0 book_bids sell2001).
  - apply reachable_book_bids.
  - by vm_compute.
  - by_eval.
  - vm_compute. reflexivity.
Defined.

(** ** After a cancellation the identifier is unknown *)

(** X5. After [cancel_order id], in any book, the identifier is not in the
    registry: a second [cancel_order] and an [amend_order] of it return
    [false] and change nothing, and [add_order] of an order with this
    identifier is not taken for a duplicate, it inserts the order and runs
    the matching loop. *)
Theorem cancelled_id_is_unknown fuel st id b p q t np nq :
  let st1 := (cancel_order st id).2 in
  active_orders st1 !! id = None ∧
  cancel_order st1 id = (false, st1) ∧
  amend_order fuel st1 id np nq = Some (false, st1) ∧
  add_order fuel st1 (mkOrder id b p q t)
    = execute_matching fuel (enqueue st1 (mkOrder id b p q t)).
Proof.
  intros st1.
  assert (Hnone : active_orders st1 !! id = None).
  { unfold st1. rewrite cancel_order_orders. apply lookup_delete_eq. }
  split; [done|]. split; [by apply cancel_order_unknown|]. split.
  - unfold amend_order. by rewrite Hnone.
  - unfold add_order. cbn [order_id]. by rewrite Hnone.
Qed.

(** ** Cancelling an order and adding it again *)

Lemma consistent_level_Some st b p :
  consistent st →
  is_Some (fetch_side st b !! p) ↔ level_queue st b p ≠ [].
Proof.
  intros Hc. unfold level_queue. split.
  - intros [lv Hlv]. rewrite Hlv.
    by destruct (cons_level _ Hc _ _ _ Hlv) as (_ & ? & _).
  - destruct (fetch_side st b !! p); [by eexists|done].
Qed.

Lemma consistent_level_determined st b p lv :
  consistent st → fetch_side st b !! p = Some lv →
  lv = mkLevel p (level_queue st b p)
         (sum_qty (active_orders st) (level_queue st b p) mod u64_modulus).
Proof.
  intros Hc Hlv. destruct (cons_level _ Hc _ _ _ Hlv) as (Hp & _ & _ & Ha).
  unfold level_queue. rewrite Hlv. destruct lv as [pp q a]. simpl in *.
  by subst.
Qed.

Lemma erase_first_last id q :
  NoDup q → last q = Some id → erase_first id q ++ [id] = q.
Proof.
  intros Hnd Hlast. apply last_Some in Hlast as [r ->].
  apply NoDup_app in Hnd as (_ & Hdisj & _).
  assert (Hr : id ∉ r).
  { intros Hin. apply (Hdisj _ Hin). by apply list_elem_of_singleton. }
  f_equal. clear Hdisj. induction r as [|x r IH]; simpl.
  - by rewrite bool_decide_eq_true_2.
  - apply not_elem_of_cons in Hr as [Hx Hr].
    rewrite bool_decide_eq_false_2 by done. by rewrite IH.
Qed.

(** X6. In a reachable book, that is after any run of operations whose prices
    are numbers, [cancel_order id] followed by [add_order] of the same order
    makes no match and prints nothing; the registry and every level (its
    price, its aggregate) are as before, but for the queue of the level of
    the order, where the identifier has moved to the tail. When it was at
    the tail already, the book is the one before the two calls. *)
Theorem cancel_then_add_moves_to_tail fuel st id o :
  reachable st → active_orders st !! id = Some o →
  let st1 := (cancel_order st id).2 in
  add_order fuel st1 o = Some (enqueue st1 o) ∧
  active_orders (enqueue st1 o) = active_orders st ∧
  cout (enqueue st1 o) = cout st ∧
  (∀ b p, level_queue (enqueue st1 o) b p =
          if bool_decide (b = is_buy o ∧ p = price o)
          then erase_first id (level_queue st b p) ++ [id]
          else level_queue st b p) ∧
  (∀ b p, fetch_side (enqueue st1 o) b !! p =
          (λ lv, mkLevel (price_point lv) (level_queue (enqueue st1 o) b p)
                         (aggregate_volume lv)) <$> fetch_side st b !! p) ∧
  (last (level_queue st (is_buy o) (price o)) = Some id →
   enqueue st1 o = st).
Proof.
  intros Hr Ho st1. destruct (reachable_inv _ Hr) as [Hc Hu].
  destruct (cons_reg _ Hc _ _ Ho) as [Hoid Hq].
  destruct (cons_order _ Hc _ _ Ho) as (lv & Hlv & Hin).
  destruct (cons_level _ Hc _ _ _ Hlv) as (_ & _ & Hnd & _).
  pose proof (consistent_price _ _ _ Hc Ho) as Hn.
  assert (Hc1 : consistent st1) by by apply consistent_cancel.
  assert (Hnone : active_orders st1 !! order_id o = None).
  { unfold st1. rewrite cancel_order_orders, Hoid. apply lookup_delete_eq. }
  pose proof (consistent_enqueue _ _ Hc1 Hnone Hq Hn) as Hc2.
  assert (Hreg : active_orders (enqueue st1 o) = active_orders st).
  { rewrite enqueue_orders. unfold st1. rewrite cancel_order_orders, Hoid.
    by apply insert_delete_id. }
  assert (Hqueue : ∀ b p, level_queue (enqueue st1 o) b p =
            if bool_decide (b = is_buy o ∧ p = price o)
            then erase_first id (level_queue st b p) ++ [id]
            else level_queue st b p).
  { intros b p. rewrite enqueue_level_queue by done. unfold st1.
    rewrite cancel_level_queue by done. rewrite Hoid.
    case_bool_decide as Hbp; [done|].
    apply erase_first_notin, consistent_notin; [done|].
    intros o' Ho'. assert (o' = o) as -> by congruence.
    intros [= -> ->]. by apply Hbp. }
  assert (Hsome : ∀ b p, is_Some (fetch_side (enqueue st1 o) b !! p)
                         ↔ is_Some (fetch_side st b !! p)).
  { intros b p. rewrite !consistent_level_Some, Hqueue by done.
    case_bool_decide as Hbp; [|done]. destruct Hbp as [-> ->].
    unfold level_queue at 2. rewrite Hlv. split.
    - intros _ Hnil. rewrite Hnil in Hin. by apply not_elem_of_nil in Hin.
    - intros _. by destruct (erase_first id (level_queue st _ _)). }
  assert (Hsum : ∀ b p, sum_qty (active_orders st) (level_queue (enqueue st1 o) b p)
                        = sum_qty (active_orders st) (level_queue st b p)).
  { intros b p. rewrite Hqueue. case_bool_decide as Hbp; [|done].
    destruct Hbp as [-> ->]. unfold level_queue. rewrite Hlv.
    rewrite sum_qty_app, sum_qty_erase, sum_qty_cons by done.
    simpl. lia. }
  assert (Hlevels : ∀ b p, fetch_side (enqueue st1 o) b !! p =
            (λ l, mkLevel (price_point l) (level_queue (enqueue st1 o) b p)
                          (aggregate_volume l)) <$> fetch_side st b !! p).
  { intros b p. specialize (Hsome b p).
    destruct (fetch_side (enqueue st1 o) b !! p) as [l2|] eqn:Hl2;
      destruct (fetch_side st b !! p) as [l|] eqn:Hl; simpl.
    - rewrite (consistent_level_determined _ _ _ _ Hc2 Hl2), Hreg, Hsum.
      rewrite (consistent_level_determined _ _ _ _ Hc Hl) at 1 2.
      done.
    - destruct Hsome as [[? [=]] _]. by eexists.
    - destruct Hsome as [_ [? [=]]]. by eexists.
    - done. }
  assert (Hu2 : uncrossed (enqueue st1 o)).
  { intros pb lb pa la Hlb Hla.
    destruct (proj1 (Hsome true pb)) as [lb' Hlb']; [by eexists|].
    destruct (proj1 (Hsome false pa)) as [la' Hla']; [by eexists|].
    by eapply Hu. }
  split.
  { unfold add_order. rewrite Hnone.
    by apply execute_matching_stop, match_step_uncrossed. }
  split; [done|]. split.
  { rewrite enqueue_cout. apply cancel_order_cout. }
  split; [done|]. split; [done|].
  intros Hlast.
  assert (Hsame : ∀ b p, fetch_side (enqueue st1 o) b !! p
                         = fetch_side st b !! p).
  { intros b p. rewrite Hlevels.
    destruct (fetch_side st b !! p) as [l|] eqn:Hl; [|done]. simpl.
    rewrite Hqueue. f_equal.
    assert (Hql : level_queue st b p = order_queue l).
    { unfold level_queue. by rewrite Hl. }
    case_bool_decide as Hbp.
    - destruct Hbp as [-> ->]. assert (l = lv) as -> by congruence.
      rewrite erase_first_last; [|by rewrite Hql|done].
      rewrite Hql. by destruct lv.
    - rewrite Hql. by destruct l. }
  assert (Hb : bid_levels (enqueue st1 o) = bid_levels st).
  { apply map_eq. intros p. apply (Hsame true p). }
  assert (Ha : ask_levels (enqueue st1 o) = ask_levels st).
  { apply map_eq. intros p. apply (Hsame false p). }
  assert (Hcout : cout (enqueue st1 o) = cout st).
  { rewrite enqueue_cout. apply cancel_order_cout. }
  destruct (enqueue st1 o) as [b2 a2 r2 c2], st as [b0 a0 r0 c0].
  simpl in *. by subst.
Qed.

Lemma cancel_then_add_moves_to_tail_witness :
  level_queue book_wrapped true p50_25 = [1; 2] ∧
  add_order 0 (cancel_order book_wrapped 1).2 (mkOrder 1 true p50_25 (2 ^ 63) 0)
    = Some (enqueue (cancel_order book_wrapped 1).2
                    (mkOrder 1 true p50_25 (2 ^ 63) 0)) ∧
  level_queue (enqueue (cancel_order book_wrapped 1).2
                       (mkOrder 1 true p50_25 (2 ^ 63) 0)) true p50_25
    = [2; 1] ∧
  enqueue (cancel_order book_wrapped 2).2 (mkOrder 2 true p50_25 (2 ^ 63) 1)
    = book_wrapped.
Proof.
  destruct (cancel_then_add_moves_to_tail 0 book_wrapped 1
              (mkOrder 1 true p50_25 (2 ^ 63) 0))
    as (H1 & _ & _ & H4 & _ & _);
    [apply reachable_book_wrapped | by_eval |].
  destruct (cancel_then_add_moves_to_tail 0 book_wrapped 2
              (mkOrder 2 true p50_25 (2 ^ 63) 1))
    as (_ & _ & _ & _ & _ & H6);
    [apply reachable_book_wrapped | by_eval |].
  split; [by_eval|]. split; [exact H1|]. split.
  - rewrite (H4 true p50_25). by_eval.
  - apply H6. by_eval.
Defined.

(** ** Amending a quantity and amending it back *)

Lemma book_eq st st' :
  (∀ b, fetch_side st b = fetch_side st' b) →
  active_orders st = active_orders st' → cout st = cout st' → st = st'.
Proof.
  intros Hs Hr Hc. pose proof (Hs true) as Hb. pose proof (Hs false) as Ha.
  destruct st, st'. simpl in *. by subst.
Qed.

Lemma update_volume_back lv q q' :
  is_u64 (aggregate_volume lv) →
  update_volume (update_volume lv q q') q' q = lv.
Proof.
  intros Ha. destruct lv as [pp qu a]. unfold update_volume. simpl in *.
  f_equal. unfold u64_add, u64_sub.
  rewrite (Zplus_mod_idemp_l (a - q)), (Zminus_mod_idemp_l (a - q + q')),
    (Zplus_mod_idemp_l (a - q + q' - q')).
  replace (a - q + q' - q' + q) with a by lia.
  by apply Z.mod_small.
Qed.

(** X7. In a reachable book, that is after any run of operations whose prices
    are numbers, a same-price [amend_order] to another quantity followed by
    a same-price [amend_order] to the old quantity gives the book back; both
    calls return [true]. *)
Theorem amend_quantity_round_trip fuel st id o q' :
  reachable st → active_orders st !! id = Some o → is_u64 q' →
  ∃ st1,
    amend_order fuel st id (price o) q' = Some (true, st1) ∧
    active_orders st1 !! id = Some (set_quantity o q') ∧
    amend_order fuel st1 id (price o) (quantity o) = Some (true, st).
Proof.
  intros Hr Ho Hq'. pose proof (reachable_consistent _ Hr) as Hc.
  destruct (cons_order _ Hc _ _ Ho) as (lv & Hlv & Hin).
  destruct (cons_level _ Hc _ _ _ Hlv) as (_ & _ & _ & Hagg).
  assert (Ha : is_u64 (aggregate_volume lv)).
  { rewrite Hagg. apply Z.mod_pos_bound, u64_modulus_pos. }
  set (st1 := set_orders
                (set_side st (is_buy o)
                   (<[price o := update_volume lv (quantity o) q']>
                      (fetch_side st (is_buy o))))
                (<[id := set_quantity o q']> (active_orders st))).
  assert (Hreg1 : active_orders st1
                  = <[id := set_quantity o q']> (active_orders st)) by done.
  assert (Hside1 : ∀ b, fetch_side st1 b =
            if bool_decide (is_buy o = b)
            then <[price o := update_volume lv (quantity o) q']>
                   (fetch_side st b)
            else fetch_side st b).
  { intros b. unfold st1. rewrite fetch_side_set_orders, fetch_side_set_side.
    by case_bool_decide; subst. }
  pose proof (consistent_price _ _ _ Hc Ho) as Hn.
  pose proof (consistent_nan_free _ (is_buy o) Hc) as Hnf.
  pose proof (dne_refl _ Hn) as Hsame.
  exists st1. split.
  { unfold amend_order. rewrite Ho, bool_decide_eq_false_2 by done.
    by rewrite (map_find_lookup _ _ _ Hnf Hlv). }
  split; [rewrite Hreg1; apply lookup_insert_eq|].
  unfold amend_order. rewrite Hreg1, lookup_insert_eq.
  cbn [set_quantity price is_buy quantity order_id timestamp_ns].
  rewrite bool_decide_eq_false_2 by done.
  rewrite (Hside1 (is_buy o)), bool_decide_eq_true_2 by done.
  rewrite (map_find_lookup _ (price o) (update_volume lv (quantity o) q'))
    by (by rewrite ?lookup_insert_eq, ?lookup_insert_ne).
  do 2 f_equal. apply book_eq.
  - intros b. rewrite fetch_side_set_orders, fetch_side_set_side.
    case_bool_decide as Hb; [|by rewrite Hside1, bool_decide_eq_false_2].
    subst b. rewrite update_volume_back by done.
    by rewrite insert_insert_eq, insert_id.
  - cbn [set_orders active_orders]. rewrite insert_insert_eq.
    apply insert_id. rewrite Ho. f_equal. by destruct o.
  - cbn [set_orders cout]. rewrite cout_set_side. unfold st1.
    cbn [set_orders cout]. apply cout_set_side.
Qed.

Lemma amend_quantity_round_trip_witness :
  ∃ st1,
    amend_order 0 book_bids 2 (price buy2) 75 = Some (true, st1) ∧
    active_orders st1 !! 2 = Some (set_quantity buy2 75) ∧
    amend_order 0 st1 2 (price buy2) (quantity buy2) = Some (true, book_bids).
Proof.
  apply (amend_quantity_round_trip 0 book_bids 2 buy2 75).
  - apply reachable_book_bids.
  - by_eval.
  - by vm_compute.
Defined.

(** ** LevelManager: pushing and removing *)

Lemma erase_first_app_new id q : id ∉ q → erase_first id (q ++ [id]) = q.
Proof.
  induction q as [|x q IH]; simpl; intros Hin.
  - by rewrite bool_decide_eq_true_2.
  - apply not_elem_of_cons in Hin as [Hx Hq].
    rewrite bool_decide_eq_false_2 by done. by rewrite IH.
Qed.

(** X8. [remove_order] of an identifier that is not in the queue returns [false]
    and leaves the level as it is (the aggregate is not decremented); and
    [remove_order] after [push_order] of a new identifier, with the same
    quantity, returns [true] and gives back the level, whatever the quantity
    (the two wrap-arounds cancel). *)
Theorem push_then_remove lv id qty :
  id ∉ order_queue lv → is_u64 (aggregate_volume lv) →
  remove_order lv id qty = (false, lv) ∧
  remove_order (push_order lv id qty) id qty = (true, lv).
Proof.
  intros Hin Ha. split.
  - unfold remove_order. by rewrite bool_decide_eq_false_2.
  - unfold remove_order, push_order. cbn [order_queue price_point
      aggregate_volume].
    rewrite bool_decide_eq_true_2
      by (apply elem_of_app; right; by apply list_elem_of_singleton).
    rewrite erase_first_app_new by done.
    unfold u64_sub, u64_add. rewrite Zminus_mod_idemp_l.
    replace (aggregate_volume lv + qty - qty) with (aggregate_volume lv)
      by lia.
    rewrite Z.mod_small by done. by destruct lv.
Qed.

Lemma push_then_remove_witness :
  remove_order (mkLevel p50_25 [1] 100) 7 (2 ^ 64 - 1)
    = (false, mkLevel p50_25 [1] 100) ∧
  remove_order (push_order (mkLevel p50_25 [1] 100) 7 (2 ^ 64 - 1)) 7
               (2 ^ 64 - 1)
    = (true, mkLevel p50_25 [1] 100).
Proof.
  apply (push_then_remove (mkLevel p50_25 [1] 100) 7 (2 ^ 64 - 1)).
  - by_eval.
  - by vm_compute.
Defined.

(** ** Creating a level and cleaning it up *)

(** X9. On a side whose keys are numbers, [get_or_create_level] of a number
    returns the level indexed at the price when there is one and leaves the
    side as it is; otherwise it indexes a new empty level with aggregate 0,
    which [cleanup_level] removes again; and [cleanup_level] does nothing at
    a price that is not indexed or whose level has a non-empty queue. With
    NaN the comparisons of [find] are all false: [get_or_create_level] of
    NaN returns the first level of a side that has one, and indexes a new
    level under NaN on an empty side only; and on a side whose only key is
    NaN it returns the level of that key, whatever the price. *)
Theorem create_then_cleanup side p :
  (side !! NaN = None → not_nan p →
   (side !! p = None →
    get_or_create_level side p = (<[p := new_level p]> side, p, new_level p) ∧
    cleanup_level (get_or_create_level side p).1.1 p = side ∧
    cleanup_level side p = side) ∧
   (∀ lv, side !! p = Some lv →
      get_or_create_level side p = (side, p, lv) ∧
      (order_queue lv ≠ [] → cleanup_level side p = side) ∧
      (order_queue lv = [] → cleanup_level side p = delete p side))) ∧
  get_or_create_level side NaN =
    match map_begin side with
    | Some (k, lv) => (side, k, lv)
    | None => (<[NaN := new_level NaN]> side, NaN, new_level NaN)
    end ∧
  (map_begin side = None ↔ side = ∅) ∧
  ∀ lv, get_or_create_level {[NaN := lv]} p = ({[NaN := lv]}, NaN, lv).
Proof.
  split; [|split; [|split]].
  - intros Hn Hp. split.
    + intros Hnone. unfold get_or_create_level.
      rewrite map_find_number, Hnone by done. cbn [fst fmap option_fmap
        option_map].
      split; [done|]. split.
      * rewrite cleanup_level_insert by done. unfold evict_or_keep. simpl.
        by apply delete_id.
      * unfold cleanup_level. by rewrite map_find_number, Hnone.
    + intros lv Hlv. unfold get_or_create_level, cleanup_level.
      rewrite (map_find_lookup _ _ _ Hn Hlv).
      split; [done|]. unfold is_empty.
      split; intros Hq; by destruct (order_queue lv).
  - unfold get_or_create_level. rewrite map_find_NaN.
    by destruct (map_begin side) as [[k lv]|].
  - split; [apply map_begin_None|].
    intros ->. unfold map_begin. by rewrite (proj2 (map_entries_nil ∅)).
  - intros lv. unfold get_or_create_level.
    by rewrite map_find_singleton_NaN.
Qed.

Lemma create_then_cleanup_witness :
  cleanup_level (get_or_create_level (bid_levels book_bids) p49_75).1.1 p49_75
    = bid_levels book_bids ∧
  get_or_create_level (bid_levels book_bids) p50_50
    = (bid_levels book_bids, p50_50, mkLevel p50_50 [2] 200).
Proof.
  destruct (create_then_cleanup (bid_levels book_bids) p49_75)
    as [Hnum _].
  destruct Hnum as [Hnew _]; [by_eval|by_eval|].
  destruct (create_then_cleanup (bid_levels book_bids) p50_50)
    as [Hnum _].
  destruct Hnum as [_ Hold]; [by_eval|by_eval|].
  split.
  - apply Hnew. by_eval.
  - apply (Hold (mkLevel p50_50 [2] 200)). by_eval.
Defined.

(** ** A queued identifier that is missing from the registry *)

(** X10. When the best bid level is not priced below the best ask level and
    the head of one of their queues is not in the registry, [process_match]
    returns at once and the loop of [execute_matching] evaluates the same
    book again: it never ends, whatever the fuel. In a book in which
    registry and levels agree both heads are in the registry; the loop of
    an insertion into a book obtained with a NaN price can meet such a
    head. *)
Theorem missing_order_never_terminates st pb bl pa al bid bq ask aq fuel :
  map_rbegin (bid_levels st) = Some (pb, bl) →
  map_begin (ask_levels st) = Some (pa, al) →
  ¬ dlt (get_price bl) (get_price al) →
  order_queue bl = bid :: bq → order_queue al = ask :: aq →
  (active_orders st !! bid = None ∨ active_orders st !! ask = None →
   match_step st = Some st ∧ execute_matching fuel st = None) ∧
  (consistent st →
   is_Some (active_orders st !! bid) ∧ is_Some (active_orders st !! ask)).
Proof.
  intros Hb Ha Hcross Hbq Haq. split.
  - intros Hmiss.
    assert (Hstep : match_step st = Some st).
    { unfold match_step. rewrite Hb, Ha, bool_decide_eq_false_2 by done.
      unfold get_orders. rewrite Hbq, Haq. f_equal.
      by apply process_match_missing. }
    split; [done|]. by apply execute_matching_stuck.
  - intros Hc.
    destruct (map_rbegin_Some _ _ _ Hb) as [Hbl _].
    destruct (map_begin_Some _ _ _ Ha) as [Hal _].
    destruct (cons_queue _ Hc true pb bl bid) as (bo & Hbo & _);
      [done|rewrite Hbq; by left|].
    destruct (cons_queue _ Hc false pa al ask) as (ao & Hao & _);
      [done|rewrite Haq; by left|].
    split; by eexists.
Qed.

Lemma missing_order_never_terminates_witness :
  obtainable book_nan_stale ∧
  match_step (enqueue book_nan_stale sell50) = Some book_nan_spin ∧
  match_step book_nan_spin = Some book_nan_spin ∧
  execute_matching 1000 book_nan_spin = None.
Proof.
  split; [apply obtainable_book_nan_stale|]. split; [by_eval|].
  apply (missing_order_never_terminates book_nan_spin
           p50_00 (mkLevel p50_00 [2] 10) p50_00 (mkLevel p50_00 [4] 10)
           2 [] 4 []).
  - by_eval.
  - by_eval.
  - by_eval.
  - reflexivity.
  - reflexivity.
  - left. by_eval.
Defined.

(** ** An order that crosses trades at once *)

Lemma process_match_cout_prefix st bid_id ask_id :
  cout st `prefix_of` cout (process_match st bid_id ask_id).
Proof.
  destruct (active_orders st !! bid_id) as [bo|] eqn:Hb;
    [|rewrite process_match_missing; [done|by left]].
  destruct (active_orders st !! ask_id) as [ao|] eqn:Ha;
    [|rewrite process_match_missing; [done|by right]].
  rewrite (process_match_cout _ _ _ _ _ Hb Ha). by eexists.
Qed.

Lemma match_step_cout_prefix st st' :
  match_step st = Some st' → cout st `prefix_of` cout st'.
Proof.
  unfold match_step.
  destruct (map_rbegin (bid_levels st)) as [[pb bl]|]; [|done].
  destruct (map_begin (ask_levels st)) as [[pa al]|]; [|done].
  case_bool_decide; [done|].
  destruct (get_orders bl) as [|bid bq]; [done|].
  destruct (get_orders al) as [|ask aq]; [done|].
  intros [= <-]. apply process_match_cout_prefix.
Qed.

Lemma execute_matching_cout_prefix fuel st st' :
  execute_matching fuel st = Some st' → cout st `prefix_of` cout st'.
Proof.
  revert st. induction fuel as [|fuel IH]; intros st; simpl.
  - destruct (match_step st); [done|]. by intros [= <-].
  - destruct (match_step st) as [s1|] eqn:Hstep; [|by intros [= <-]].
    intros Hrun. etrans; [by apply match_step_cout_prefix|by apply IH].
Qed.

Lemma execute_matching_first fuel st s1 st' :
  match_step st = Some s1 → execute_matching fuel st = Some st' →
  cout s1 `prefix_of` cout st'.
Proof.
  intros Hstep. destruct fuel as [|fuel]; simpl; rewrite Hstep; [done|].
  apply execute_matching_cout_prefix.
Qed.

(** X11. [add_order], in a reachable book (a book obtained by operations
    whose prices are numbers), of an order with a new identifier whose price
    is a number and reaches the best price of the opposite side returns,
    with more fuel than the registry has orders, and trades at once: the
    first line it prints pairs the new order, at its own price, with the
    oldest order of the best opposite level, at the price of that level. *)
Theorem crossing_order_trades fuel st o :
  reachable st → valid_order o → active_orders st !! order_id o = None →
  ¬ rests st o → (size (active_orders st) < fuel)%nat →
  ∃ st' other po lo waiting,
    add_order fuel st o = Some st' ∧
    (if is_buy o then map_begin (ask_levels st)
     else map_rbegin (bid_levels st)) = Some (po, lo) ∧
    order_queue lo = other :: waiting ∧
    (cout st ++
       (if is_buy o then trade_line (order_id o) (price o) other po
        else trade_line other po (order_id o) (price o)))
      `prefix_of` cout st'.
Proof.
  intros Hr (_ & Hq & _ & Hn) Hid Hnot Hfuel.
  destruct (reachable_inv _ Hr) as [Hc Hu].
  pose proof (consistent_enqueue _ _ Hc Hid Hq Hn) as Hc1.
  destruct (execute_matching_terminates fuel (enqueue st o) Hc1)
    as [st' Hadd].
  { rewrite enqueue_orders, map_size_insert_None by done. lia. }
  exists st'. rewrite (add_order_fresh _ _ _ Hid).
  assert (Hreg : active_orders (enqueue st o) !! order_id o = Some o).
  { rewrite enqueue_orders. apply lookup_insert_eq. }
  unfold rests in Hnot. destruct (is_buy o) eqn:Hside.
  - destruct (map_begin (ask_levels st)) as [[pa la]|] eqn:Hbest; [|done].
    destruct (map_begin_Some _ _ _ Hbest) as [Hla Hmin].
    destruct (cons_level _ Hc false _ _ Hla) as (Hpp & Hne & _).
    destruct (order_queue la) as [|other waiting] eqn:Hqla; [done|].
    destruct (cons_queue _ Hc false pa la other Hla) as (ao & Hao & _ & Hpa);
      [rewrite Hqla; by left|].
    exists other, pa, la, waiting.
    split; [done|]. split; [done|]. split; [done|].
    assert (Hnew : bid_levels st !! price o = None).
    { destruct (bid_levels st !! price o) as [l|] eqn:Hl; [|done].
      by specialize (Hu _ _ _ _ Hl Hla). }
    assert (Hasks : ask_levels (enqueue st o) = ask_levels st).
    { pose proof (enqueue_side st o false Hc Hn) as Hs.
      rewrite Hside in Hs. by rewrite bool_decide_eq_false_2 in Hs. }
    assert (Hbids : bid_levels (enqueue st o) =
              <[price o := push_order (new_level (price o)) (order_id o)
                             (quantity o)]> (bid_levels st)).
    { pose proof (enqueue_side st o true Hc Hn) as Hs.
      rewrite Hside, bool_decide_eq_true_2 in Hs by done.
      cbn [fetch_side] in Hs. by rewrite Hnew in Hs. }
    assert (Hstep : match_step (enqueue st o)
              = Some (process_match (enqueue st o) (order_id o) other)).
    { unfold match_step. rewrite Hasks, Hbest, Hbids.
      rewrite (map_rbegin_max _ (price o)
                 (push_order (new_level (price o)) (order_id o) (quantity o))).
      - unfold get_price, get_orders. cbn [push_order new_level price_point
          order_queue app]. rewrite Hpp, Hqla.
        by rewrite bool_decide_eq_false_2.
      - rewrite lookup_insert_ne by done.
        apply (consistent_nan_free _ true Hc).
      - apply lookup_insert_eq.
      - intros k v [[<- _]|[_ Hk]]%lookup_insert_Some; [apply dlt_irrefl|].
        specialize (Hu _ _ _ _ Hk Hla). intros Hlt. apply Hnot.
        by eapply dlt_trans. }
    pose proof (execute_matching_first _ _ _ _ Hstep Hadd) as Hpre.
    rewrite (process_match_cout _ _ _ o ao) in Hpre; [|done|].
    + by rewrite enqueue_cout, Hpa in Hpre.
    + rewrite enqueue_orders, lookup_insert_ne; [done|]. congruence.
  - destruct (map_rbegin (bid_levels st)) as [[pb lb]|] eqn:Hbest; [|done].
    destruct (map_rbegin_Some _ _ _ Hbest) as [Hlb Hmax].
    destruct (cons_level _ Hc true _ _ Hlb) as (Hpp & Hne & _).
    destruct (order_queue lb) as [|other waiting] eqn:Hqlb; [done|].
    destruct (cons_queue _ Hc true pb lb other Hlb) as (bo & Hbo & _ & Hpb);
      [rewrite Hqlb; by left|].
    exists other, pb, lb, waiting.
    split; [done|]. split; [done|]. split; [done|].
    assert (Hnew : ask_levels st !! price o = None).
    { destruct (ask_levels st !! price o) as [l|] eqn:Hl; [|done].
      by specialize (Hu _ _ _ _ Hlb Hl). }
    assert (Hbids : bid_levels (enqueue st o) = bid_levels st).
    { pose proof (enqueue_side st o true Hc Hn) as Hs.
      rewrite Hside in Hs. by rewrite bool_decide_eq_false_2 in Hs. }
    assert (Hasks : ask_levels (enqueue st o) =
              <[price o := push_order (new_level (price o)) (order_id o)
                             (quantity o)]> (ask_levels st)).
    { pose proof (enqueue_side st o false Hc Hn) as Hs.
      rewrite Hside, bool_decide_eq_true_2 in Hs by done.
      cbn [fetch_side] in Hs. by rewrite Hnew in Hs. }
    assert (Hstep : match_step (enqueue st o)
              = Some (process_match (enqueue st o) other (order_id o))).
    { unfold match_step. rewrite Hbids, Hbest, Hasks.
      rewrite (map_begin_min _ (price o)
                 (push_order (new_level (price o)) (order_id o) (quantity o))).
      - unfold get_price, get_orders. cbn [push_order new_level price_point
          order_queue app]. rewrite Hpp, Hqlb.
        by rewrite bool_decide_eq_false_2.
      - rewrite lookup_insert_ne by done.
        apply (consistent_nan_free _ false Hc).
      - apply lookup_insert_eq.
      - intros k v [[<- _]|[_ Hk]]%lookup_insert_Some; [apply dlt_irrefl|].
        specialize (Hu _ _ _ _ Hlb Hk). intros Hlt. apply Hnot.
        by eapply dlt_trans. }
    pose proof (execute_matching_first _ _ _ _ Hstep Hadd) as Hpre.
    rewrite (process_match_cout _ _ _ bo o) in Hpre; [|  |done].
    + by rewrite enqueue_cout, Hpb in Hpre.
    + rewrite enqueue_orders, lookup_insert_ne; [done|]. congruence.
Qed.

Lemma crossing_order_trades_witness :
  ∃ st' other po lo waiting,
    add_order 3 book_bids sell3 = Some st' ∧
    map_rbegin (bid_levels book_bids) = Some (po, lo) ∧
    order_queue lo = other :: waiting ∧
    (cout book_bids ++ trade_line other po (order_id sell3) (price sell3))
      `prefix_of` cout st'.
Proof.
  apply (crossing_order_trades 3 book_bids sell3).
  - apply reachable_book_bids.
  - by vm_compute.
  - by_eval.
  - vm_compute. intros H. discriminate H.
  - vm_compute. lia.
Defined.

(** ** Matching only takes quantity away *)

Lemma filled_from_refl o : 0 ≤ quantity o → filled_from o o.
Proof. intros H. unfold filled_from. repeat split; done || lia. Qed.

Lemma filled_from_trans o1 o2 o3 :
  filled_from o1 o2 → filled_from o2 o3 → filled_from o1 o3.
Proof.
  unfold filled_from. intros (? & ? & ? & ? & ?) (? & ? & ? & ? & ?).
  repeat split; congruence || lia.
Qed.

Lemma match_step_registry st st' id o' :
  consistent st → match_step st = Some st' →
  active_orders st' !! id = Some o' →
  ∃ o, active_orders st !! id = Some o ∧ filled_from o o'.
Proof.
  intros Hc Hstep Ho'.
  destruct (match_step_Some _ _ Hc Hstep)
    as (pb & bl & bid & bq & pa & al & ask & aq & bo & ao & _ & _ & _ & _ &
        Hbl & Hal & Hbo & Hbuy & Hpb & Hao & Hsell & Hpa & _ & ->).
  subst pb pa.
  destruct (process_match_registry _ _ _ _ _ _ _ Hc Hbl Hal Hbo Hao
              Hbuy Hsell) as (Hrest & Hb & Ha).
  destruct (cons_reg _ Hc _ _ Hbo) as [_ Hqb].
  destruct (cons_reg _ Hc _ _ Hao) as [_ Hqa].
  unfold is_u64 in *.
  destruct (decide (id = bid)) as [->|Hnb].
  { cbv zeta in Hb. rewrite Hb in Ho'.
    destruct (bool_decide (quantity bo ≤ quantity ao)) eqn:Hle; [done|].
    apply bool_decide_eq_false in Hle. injection Ho' as <-.
    exists bo. split; [done|]. unfold filled_from. simpl.
    repeat split; lia. }
  destruct (decide (id = ask)) as [->|Hna].
  { cbv zeta in Ha. rewrite Ha in Ho'.
    destruct (bool_decide (quantity ao ≤ quantity bo)) eqn:Hle; [done|].
    apply bool_decide_eq_false in Hle. injection Ho' as <-.
    exists ao. split; [done|]. unfold filled_from. simpl.
    repeat split; lia. }
  rewrite Hrest in Ho' by done. exists o'. split; [done|].
  apply filled_from_refl. destruct (cons_reg _ Hc _ _ Ho') as [_ Hq]. apply Hq.
Qed.

Lemma loop_state_registry st0 st id o' :
  consistent st0 → loop_state st0 st →
  active_orders st !! id = Some o' →
  ∃ o, active_orders st0 !! id = Some o ∧ filled_from o o'.
Proof.
  intros Hc Hl. revert o'.
  induction Hl as [|st st' Hl IH Hstep]; intros o' Ho'.
  - exists o'. split; [done|]. apply filled_from_refl.
    destruct (cons_reg _ Hc _ _ Ho') as [_ Hq]. apply Hq.
  - destruct (match_step_registry st st' id o') as (o1 & Ho1 & H1);
      [by eapply loop_state_consistent|done..|].
    destruct (IH _ Ho1) as (o & Ho & H0). exists o. split; [done|].
    by eapply filled_from_trans.
Qed.

(** X12. In a reachable book, [add_order] of a valid order leaves in the registry
    only orders that were there and the new order; each of them has the
    identifier, side, price and timestamp it had, and a remaining quantity
    between 0 and the quantity it had. *)
Theorem add_order_only_fills fuel st o st' id o' :
  reachable st → valid_order o → add_order fuel st o = Some st' →
  active_orders st' !! id = Some o' →
  ∃ o0, (active_orders st !! id = Some o0 ∨
         (active_orders st !! id = None ∧ id = order_id o ∧ o0 = o)) ∧
        filled_from o0 o'.
Proof.
  intros Hr (_ & Hq & _ & Hn) Hadd Ho'.
  pose proof (reachable_consistent _ Hr) as Hc.
  unfold add_order in Hadd.
  destruct (active_orders st !! order_id o) as [od|] eqn:Hid.
  - injection Hadd as <-. exists o'. split; [by left|].
    apply filled_from_refl. destruct (cons_reg _ Hc _ _ Ho') as [_ H]. apply H.
  - pose proof (consistent_enqueue _ _ Hc Hid Hq Hn) as Hc1.
    destruct (execute_matching_inv _ _ _ Hc1 Hadd) as (_ & _ & Hl).
    destruct (loop_state_registry _ _ _ _ Hc1 Hl Ho') as (o1 & Ho1 & H1).
    exists o1. split; [|done]. rewrite enqueue_orders in Ho1.
    apply lookup_insert_Some in Ho1 as [[<- <-]|[Hne Ho1]].
    + by right.
    + by left.
Qed.

Lemma add_order_only_fills_witness :
  ∃ o0, (active_orders book_bids !! 2 = Some o0 ∨
         (active_orders book_bids !! 2 = None ∧ 2 = order_id sell3 ∧
          o0 = sell3)) ∧
        filled_from o0 (set_quantity buy2 150).
Proof.
  apply (add_order_only_fills 1 book_bids sell3 book_after_sell 2).
  - apply reachable_book_bids.
  - by vm_compute.
  - by_eval.
  - by_eval.
Defined.

(** ** What amend_order returns *)

Lemma add_order_returns fuel st o :
  consistent st → is_u64 (quantity o) → not_nan (price o) →
  (size (active_orders st) < fuel)%nat → is_Some (add_order fuel st o).
Proof.
  intros Hc Hq Hn Hfuel. unfold add_order.
  destruct (active_orders st !! order_id o) eqn:Hid; [by eexists|].
  apply execute_matching_terminates; [by apply consistent_enqueue|].
  rewrite enqueue_orders, map_size_insert_None by done. lia.
Qed.

(** X13. In a reachable book (a book obtained by operations whose prices are
    numbers), with more fuel than the registry has orders, [amend_order] to
    a price that is a number returns. It returns [true] exactly when the
    identifier is
    in the registry, and with [false] the book is unchanged. When the order
    is still in the registry afterwards, it has the price given to
    [amend_order], the side and timestamp it had, and at most the quantity
    given to [amend_order]. *)
Theorem amend_order_result fuel st id np nq :
  reachable st → is_u64 nq → not_nan np →
  (size (active_orders st) < fuel)%nat →
  ∃ r st',
    amend_order fuel st id np nq = Some (r, st') ∧
    (r = true ↔ is_Some (active_orders st !! id)) ∧
    (r = false → st' = st) ∧
    ∀ o o', active_orders st !! id = Some o →
            active_orders st' !! id = Some o' →
            order_id o' = id ∧ is_buy o' = is_buy o ∧ price o' = np ∧
            timestamp_ns o' = timestamp_ns o ∧ 0 ≤ quantity o' ≤ nq.
Proof.
  intros Hr Hq Hn Hfuel. pose proof (reachable_consistent _ Hr) as Hc.
  unfold amend_order.
  destruct (active_orders st !! id) as [o|] eqn:Ho.
  2:{ exists false, st. split; [done|]. split; [|split; [done|]].
      - split; [done|]. by intros [? [=]].
      - by intros o o' [=]. }
  destruct (cons_reg _ Hc _ _ Ho) as [Hoid _].
  case_bool_decide as Hp.
  - set (o2 := mkOrder (order_id o) (is_buy o) np nq (timestamp_ns o)).
    set (st1 := (cancel_order st id).2).
    assert (Hc1 : consistent st1) by by apply consistent_cancel.
    assert (Hnone : active_orders st1 !! order_id o2 = None).
    { unfold st1. rewrite cancel_order_orders. cbn [o2 order_id].
      rewrite Hoid. apply lookup_delete_eq. }
    destruct (add_order_returns fuel st1 o2 Hc1 Hq Hn) as [st' Hadd].
    { unfold st1. rewrite cancel_order_orders.
      eapply Nat.le_lt_trans; [apply map_subseteq_size, delete_subseteq|done]. }
    rewrite Hadd. simpl. exists true, st'. split; [done|].
    split; [split; [by eexists|done]|]. split; [done|].
    intros o0 o' [= <-] Ho'.
    unfold add_order in Hadd. rewrite Hnone in Hadd.
    pose proof (consistent_enqueue _ _ Hc1 Hnone Hq Hn) as Hc2.
    destruct (execute_matching_inv _ _ _ Hc2 Hadd) as (_ & _ & Hl).
    destruct (loop_state_registry _ _ _ _ Hc2 Hl Ho') as (o1 & Ho1 & H1).
    rewrite enqueue_orders in Ho1. cbn [o2 order_id] in Ho1.
    rewrite Hoid, lookup_insert_eq in Ho1. injection Ho1 as <-.
    destruct H1 as (H1 & H2 & H3 & H4 & H5). cbn in *.
    repeat split; congruence || lia.
  - destruct (cons_order _ Hc _ _ Ho) as (lv & Hlv & _).
    rewrite (map_find_lookup _ _ _ (consistent_nan_free _ _ Hc) Hlv).
    eexists true, _. split; [done|].
    split; [split; [by eexists|done]|]. split; [done|].
    intros o0 o' [= <-]. cbn [set_orders active_orders].
    rewrite lookup_insert_eq. intros [= <-]. cbn.
    assert (price o = np).
    { rewrite dne_number in Hp by eauto using consistent_price.
      destruct (decide (price o = np)); tauto. }
    unfold is_u64 in Hq. repeat split; done || lia.
Qed.

Lemma amend_order_result_witness :
  ∃ r st',
    amend_order 3 book_bids 2 p49_75 300 = Some (r, st') ∧
    (r = true ↔ is_Some (active_orders book_bids !! 2)) ∧
    (r = false → st' = book_bids) ∧
    ∀ o o', active_orders book_bids !! 2 = Some o →
            active_orders st' !! 2 = Some o' →
            order_id o' = 2 ∧ is_buy o' = is_buy o ∧ price o' = p49_75 ∧
            timestamp_ns o' = timestamp_ns o ∧ 0 ≤ quantity o' ≤ 300.
Proof.
  apply (amend_order_result 3 book_bids 2 p49_75 300).
  - apply reachable_book_bids.
  - by vm_compute.
  - by vm_compute.
  - vm_compute. lia.
Defined.

(** ** Iterating over a side *)

Lemma StronglySorted_reverse {A} (R : relation A) (l : list A) :
  StronglySorted R l → StronglySorted (flip R) (reverse l).
Proof.
  induction 1 as [|x l Hs IH Hall]; [constructor|].
  rewrite reverse_cons. apply StronglySorted_app. split; [|split].
  - intros y z Hy ->%list_elem_of_singleton. unfold flip.
    rewrite Forall_forall in Hall. apply Hall. by apply elem_of_reverse.
  - done.
  - repeat constructor.
Qed.

Lemma StronglySorted_take {A} (R : relation A) (l : list A) n :
  StronglySorted R l → StronglySorted R (take n l).
Proof.
  intros Hs. rewrite <- (take_drop n l) in Hs.
  by apply StronglySorted_app_1_l in Hs.
Qed.

(** ** get_snapshot *)

Lemma snapshot_loop_take depth iter out :
  snapshot_loop depth iter out
    = out ++ take (depth - length out) (level_entry <$> iter).
Proof.
  revert out. induction iter as [|e iter IH]; intros out; simpl.
  - by rewrite take_nil, app_nil_r.
  - case_bool_decide as Hlt.
    + rewrite IH, length_app. simpl. rewrite <- app_assoc. f_equal.
      replace (depth - length out)%nat
        with (S (depth - (length out + 1)))%nat by lia.
      done.
    + replace (depth - length out)%nat with 0%nat by lia.
      by rewrite app_nil_r.
Qed.

Lemma get_snapshot_take st depth bids asks :
  get_snapshot st depth bids asks =
    (take depth (level_entry <$> reverse (map_entries (bid_levels st))),
     take depth (level_entry <$> map_entries (ask_levels st))).
Proof.
  unfold get_snapshot. rewrite !snapshot_loop_take. simpl.
  by rewrite Nat.sub_0_r.
Qed.

(** X14. [get_snapshot] discards what the two vectors held and fills each with
    one entry per level of its side, at most [depth] of them: the number of
    entries is the smaller of [depth] and the number of levels of the side.
    The snapshot of a smaller depth is a prefix of that of a larger one, and
    with depth 0 both vectors are empty. *)
Theorem get_snapshot_size st depth depth' bids asks bids' asks' :
  length (get_snapshot st depth bids asks).1
    = (depth `min` size (bid_levels st))%nat ∧
  length (get_snapshot st depth bids asks).2
    = (depth `min` size (ask_levels st))%nat ∧
  get_snapshot st depth bids asks = get_snapshot st depth bids' asks' ∧
  ((depth ≤ depth')%nat →
   (get_snapshot st depth bids asks).1
     `prefix_of` (get_snapshot st depth' bids asks).1 ∧
   (get_snapshot st depth bids asks).2
     `prefix_of` (get_snapshot st depth' bids asks).2) ∧
  get_snapshot st 0 bids asks = ([], []).
Proof.
  rewrite !get_snapshot_take. cbn [fst snd].
  rewrite !length_take, !length_fmap, length_reverse, !length_map_entries.
  split; [done|]. split; [done|]. split; [done|]. split; [|done].
  intros Hle.
  assert (Hpre : ∀ l : list PriceLevel, take depth l `prefix_of` take depth' l).
  { intros l. replace depth with (depth `min` depth')%nat at 1 by lia.
    rewrite <- take_take. apply prefix_take. }
  split; apply Hpre.
Qed.

Lemma level_entry_consistent st b :
  consistent st →
  level_entry <$> map_entries (fetch_side st b)
    = (λ e, mkPriceLevel e.1 (aggregate_volume e.2))
        <$> map_entries (fetch_side st b).
Proof.
  intros Hc. apply list_fmap_ext. intros i [k v] Hi.
  apply list_elem_of_lookup_2, elem_of_map_entries in Hi.
  destruct (cons_level _ Hc _ _ _ Hi) as (Hp & _).
  unfold level_entry, get_price, get_volume. simpl. by rewrite Hp.
Qed.

Lemma snapshot_entry_level st b (l : list (double * LevelManager)) n x :
  consistent st → (∀ e, e ∈ l → e ∈ map_entries (fetch_side st b)) →
  x ∈ take n ((λ e, mkPriceLevel e.1 (aggregate_volume e.2)) <$> l) →
  ∃ lv, fetch_side st b !! level_price x = Some lv ∧
        total_quantity x = aggregate_volume lv ∧
        total_quantity x
          = sum_qty (active_orders st) (order_queue lv) mod u64_modulus.
Proof.
  intros Hc Hl Hx. apply subseteq_take in Hx.
  apply list_elem_of_fmap in Hx as ([k v] & -> & He).
  apply Hl, elem_of_map_entries in He. exists v. simpl.
  split; [done|]. split; [done|].
  by destruct (cons_level _ Hc _ _ _ He) as (_ & _ & _ & ?).
Qed.

(** X15. In a reachable book, that is after any run of operations whose
    prices are numbers, the bid vector of [get_snapshot] is in strictly
    descending price order and the ask vector in strictly ascending price
    order; every entry is the price and the aggregate of a level indexed on
    its side (the sum of the remaining quantities of its queue, modulo
    [2^64]); every bid entry is priced below every ask entry; with a
    positive depth the first entries are the best bid and best ask levels,
    those the matching loop looks at; and a side with at most [depth] levels
    is reported whole. *)
Theorem get_snapshot_best_first st depth bids asks :
  reachable st →
  let bs := (get_snapshot st depth bids asks).1 in
  let sk := (get_snapshot st depth bids asks).2 in
  StronglySorted (λ x y, dlt (level_price y) (level_price x)) bs ∧
  StronglySorted (λ x y, dlt (level_price x) (level_price y)) sk ∧
  (∀ x, x ∈ bs →
     ∃ lv, bid_levels st !! level_price x = Some lv ∧
           total_quantity x = aggregate_volume lv ∧
           total_quantity x
             = sum_qty (active_orders st) (order_queue lv) mod u64_modulus) ∧
  (∀ x, x ∈ sk →
     ∃ lv, ask_levels st !! level_price x = Some lv ∧
           total_quantity x = aggregate_volume lv ∧
           total_quantity x
             = sum_qty (active_orders st) (order_queue lv) mod u64_modulus) ∧
  (∀ x y, x ∈ bs → y ∈ sk → dlt (level_price x) (level_price y)) ∧
  ((0 < depth)%nat →
   head bs = level_entry <$> map_rbegin (bid_levels st) ∧
   head sk = level_entry <$> map_begin (ask_levels st)) ∧
  ((size (bid_levels st) ≤ depth)%nat →
   ∀ p lv, bid_levels st !! p = Some lv →
           mkPriceLevel p (aggregate_volume lv) ∈ bs) ∧
  ((size (ask_levels st) ≤ depth)%nat →
   ∀ p lv, ask_levels st !! p = Some lv →
           mkPriceLevel p (aggregate_volume lv) ∈ sk).
Proof.
  intros Hr bs sk. destruct (reachable_inv _ Hr) as [Hc Hu].
  set (g := λ e : double * LevelManager,
              mkPriceLevel e.1 (aggregate_volume e.2)).
  assert (Hbs : bs = take depth (g <$> reverse (map_entries (bid_levels st)))).
  { unfold bs. rewrite get_snapshot_take. cbn [fst].
    rewrite !fmap_reverse. f_equal. f_equal.
    apply (level_entry_consistent st true Hc). }
  assert (Hsk : sk = take depth (g <$> map_entries (ask_levels st))).
  { unfold sk. rewrite get_snapshot_take. cbn [snd]. f_equal.
    apply (level_entry_consistent st false Hc). }
  assert (Hbl : ∀ x, x ∈ bs →
            ∃ lv, bid_levels st !! level_price x = Some lv ∧
                  total_quantity x = aggregate_volume lv ∧
                  total_quantity x
                    = sum_qty (active_orders st) (order_queue lv)
                        mod u64_modulus).
  { intros x Hx. rewrite Hbs in Hx.
    apply (snapshot_entry_level st true _ _ _ Hc) in Hx; [done|].
    intros e He. exact (proj1 (elem_of_reverse _ _) He). }
  assert (Hal : ∀ x, x ∈ sk →
            ∃ lv, ask_levels st !! level_price x = Some lv ∧
                  total_quantity x = aggregate_volume lv ∧
                  total_quantity x
                    = sum_qty (active_orders st) (order_queue lv)
                        mod u64_modulus).
  { intros x Hx. rewrite Hsk in Hx.
    by apply (snapshot_entry_level st false _ _ _ Hc) in Hx. }
  split.
  { rewrite Hbs. apply StronglySorted_take.
    apply (StronglySorted_fmap g
             (flip (λ e e' : double * LevelManager, dlt e.1 e'.1))).
    - by intros x y.
    - apply StronglySorted_reverse, map_entries_sorted.
      apply (consistent_nan_free _ true Hc). }
  split.
  { rewrite Hsk. apply StronglySorted_take.
    apply (StronglySorted_fmap g
             (λ e e' : double * LevelManager, dlt e.1 e'.1)).
    - by intros x y.
    - apply map_entries_sorted. apply (consistent_nan_free _ false Hc). }
  split; [done|]. split; [done|]. split.
  { intros x y Hx Hy. destruct (Hbl _ Hx) as (lb & Hlb & _).
    destruct (Hal _ Hy) as (la & Hla & _). by eapply Hu. }
  split.
  { intros Hd. unfold bs, sk. rewrite get_snapshot_take. cbn [fst snd].
    destruct depth as [|d]; [lia|]. split.
    - unfold map_rbegin. rewrite <- head_reverse.
      by destruct (reverse (map_entries (bid_levels st))).
    - unfold map_begin.
      by destruct (map_entries (ask_levels st)). }
  split.
  - intros Hsz p lv Hlv. rewrite Hbs, take_ge.
    + apply list_elem_of_fmap. exists (p, lv). split; [done|].
      apply (proj2 (elem_of_reverse _ _)). by apply elem_of_map_entries.
    + by rewrite length_fmap, length_reverse, length_map_entries.
  - intros Hsz p lv Hlv. rewrite Hsk, take_ge.
    + apply list_elem_of_fmap. exists (p, lv). split; [done|].
      by apply elem_of_map_entries.
    + by rewrite length_fmap, length_map_entries.
Qed.

Lemma get_snapshot_best_first_witness :
  (get_snapshot book_bids 1 [] []).1 = [mkPriceLevel p50_50 200] ∧
  ∀ x, x ∈ (get_snapshot book_bids 1 [] []).1 →
       ∃ lv, bid_levels book_bids !! level_price x = Some lv ∧
             total_quantity x = aggregate_volume lv ∧
             total_quantity x
               = sum_qty (active_orders book_bids) (order_queue lv)
                   mod u64_modulus.
Proof.
  split; [by_eval|].
  destruct (get_snapshot_best_first book_bids 1 [] [] reachable_book_bids)
    as (_ & _ & H & _).
  exact H.
Defined.

(** ** Adding a resting order and cancelling it *)

Lemma cancelled_level_push lv id qty :
  id ∉ order_queue lv → is_u64 (aggregate_volume lv) →
  cancelled_level (push_order lv id qty) id qty = lv.
Proof.
  intros Hin Ha. unfold cancelled_level, push_order.
  cbn [order_queue price_point aggregate_volume].
  rewrite erase_first_app_new by done.
  unfold u64_sub, u64_add. rewrite Zminus_mod_idemp_l.
  replace (aggregate_volume lv + qty - qty) with (aggregate_volume lv) by lia.
  rewrite Z.mod_small by done. by destruct lv.
Qed.

Lemma cancel_enqueue st o :
  consistent st → active_orders st !! order_id o = None →
  not_nan (price o) →
  cancel_order (enqueue st o) (order_id o) = (true, st).
Proof.
  intros Hc Hid Hn.
  set (side := fetch_side st (is_buy o)).
  set (lv0 := default (new_level (price o)) (side !! price o)).
  assert (Hlv0 : (order_id o ∉ order_queue lv0) ∧
                 is_u64 (aggregate_volume lv0)).
  { unfold lv0. destruct (side !! price o) as [l|] eqn:Hl; simpl.
    - split; [by eapply consistent_fresh|].
      destruct (cons_level _ Hc _ _ _ Hl) as (_ & _ & _ & ->).
      apply Z.mod_pos_bound, u64_modulus_pos.
    - split; [apply not_elem_of_nil|done]. }
  destruct Hlv0 as [Hnotin Hagg].
  assert (Hs : fetch_side (enqueue st o) (is_buy o)
               = <[price o := push_order lv0 (order_id o) (quantity o)]> side).
  { by rewrite enqueue_side, bool_decide_eq_true_2. }
  rewrite (cancel_order_found _ _ o
             (push_order lv0 (order_id o) (quantity o))).
  - f_equal. rewrite cancelled_level_push by done. rewrite Hs.
    apply book_eq.
    + intros b. rewrite fetch_side_set_orders, fetch_side_set_side.
      case_bool_decide as Hb.
      * subst b. unfold evict_or_keep, lv0. fold side.
        destruct (side !! price o) as [l|] eqn:Hl; simpl.
        -- destruct (cons_level _ Hc _ _ _ Hl) as (_ & Hne & _).
           unfold is_empty. destruct (order_queue l); [done|].
           by rewrite insert_insert_eq, insert_id.
        -- by apply delete_insert_id.
      * rewrite enqueue_side by done. by rewrite bool_decide_eq_false_2.
    + cbn [set_orders active_orders]. rewrite enqueue_orders.
      by apply delete_insert_id.
    + cbn [set_orders cout]. rewrite cout_set_side. apply enqueue_cout.
  - rewrite Hs, lookup_insert_ne by done. by apply consistent_nan_free.
  - rewrite enqueue_orders. apply lookup_insert_eq.
  - rewrite Hs. apply lookup_insert_eq.
  - cbn [push_order order_queue]. apply elem_of_app. right.
    by apply list_elem_of_singleton.
Qed.

(** X16. In a reachable book, [add_order] of a valid order with a new identifier
    that does not cross, followed by [cancel_order] of that identifier,
    gives the book back: the level created for the order, if any, is
    evicted again, and the aggregate of an existing level returns to its
    value. *)
Theorem add_then_cancel_round_trip fuel st o :
  reachable st → valid_order o → active_orders st !! order_id o = None →
  rests st o →
  ∃ st1, add_order fuel st o = Some st1 ∧
         active_orders st1 !! order_id o = Some o ∧
         cancel_order st1 (order_id o) = (true, st).
Proof.
  intros Hr (_ & Hq & _ & Hn) Hid Hrest.
  destruct (reachable_inv _ Hr) as [Hc Hu].
  exists (enqueue st o). split; [by apply add_order_resting|]. split.
  - rewrite enqueue_orders. apply lookup_insert_eq.
  - by apply cancel_enqueue.
Qed.

Lemma add_then_cancel_round_trip_witness :
  ∃ st1, add_order 0 book_bids sell2001 = Some st1 ∧
         active_orders st1 !! order_id sell2001 = Some sell2001 ∧
         cancel_order st1 (order_id sell2001) = (true, book_bids).
Proof.
  apply (add_then_cancel_round_trip 0 book_bids sell2001).
  - apply reachable_book_bids.
  - by vm_compute.
  - by_eval.
  - vm_compute. reflexivity.
Defined.

(** ** Running the matching loop again *)

(** X17. The book that [execute_matching] returns is one it leaves as it is:
    running the loop again, with any fuel, makes no match and prints
    nothing. The same holds for every reachable book. *)
Theorem matching_is_idempotent fuel fuel' st st' :
  execute_matching fuel st = Some st' →
  execute_matching fuel' st' = Some st' ∧
  (∀ s, reachable s → execute_matching fuel' s = Some s).
Proof.
  intros Hrun. split.
  - apply execute_matching_stop. revert st Hrun.
    induction fuel as [|fuel IH]; intros st; simpl.
    + destruct (match_step st) eqn:Hstep; [done|]. by intros [= <-].
    + destruct (match_step st) as [s1|] eqn:Hstep; [apply IH|].
      by intros [= <-].
  - intros s Hs. destruct (reachable_inv _ Hs) as [Hc Hu].
    by apply execute_matching_stop, match_step_uncrossed.
Qed.

Lemma matching_is_idempotent_witness :
  execute_matching 0 book_after_sell = Some book_after_sell ∧
  (∀ s, reachable s → execute_matching 0 s = Some s).
Proof.
  apply (matching_is_idempotent 1 0 (enqueue book_bids sell3) book_after_sell).
  by_eval.
Defined.

(** ** Prices that are NaN *)

Lemma obtainable_book_nan_two_sided : obtainable book_nan_two_sided.
Proof.
  apply (run_ops_obtainable 0
           [AddOrder bid50; AddOrder bidNaN; AddOrder sell60] empty_book);
    [constructor| |by_eval].
  repeat constructor; by vm_compute.
Qed.

(** X18. In every book that the public operations build, whatever the prices
    they were given, the keys of a side are numbers or the side has the one
    key NaN; every level has the price it is indexed under and a queue that
    is not empty; and every order of the registry whose price is a number
    is in the queue of the level that [find] returns for its price. *)
Theorem any_prices_keep_levels st :
  obtainable st →
  (∀ b, fetch_side st b !! NaN = None ∨
        ∃ lv, fetch_side st b = {[NaN := lv]}) ∧
  (∀ b p lv, fetch_side st b !! p = Some lv →
             get_price lv = p ∧ order_queue lv ≠ []) ∧
  (∀ id o, active_orders st !! id = Some o → not_nan (price o) →
     ∃ k lv, map_find (fetch_side st (is_buy o)) (price o) = Some (k, lv) ∧
             id ∈ order_queue lv).
Proof.
  intros Hob. destruct (obtainable_inv _ Hob) as [Hs _].
  split; [apply (sound_shape _ Hs)|].
  split; [apply (sound_level _ Hs) | apply (sound_order _ Hs)].
Qed.

Lemma any_prices_keep_levels_witness :
  obtainable book_nan_stale ∧
  (∀ b, fetch_side book_nan_stale b !! NaN = None ∨
        ∃ lv, fetch_side book_nan_stale b = {[NaN := lv]}) ∧
  (∀ b p lv, fetch_side book_nan_stale b !! p = Some lv →
             get_price lv = p ∧ order_queue lv ≠ []) ∧
  (∀ id o, active_orders book_nan_stale !! id = Some o → not_nan (price o) →
     ∃ k lv,
       map_find (fetch_side book_nan_stale (is_buy o)) (price o)
         = Some (k, lv) ∧
       id ∈ order_queue lv).
Proof.
  split; [apply obtainable_book_nan_stale|].
  apply (any_prices_keep_levels book_nan_stale).
  apply obtainable_book_nan_stale.
Defined.

(** X19. The book is not left crossed by operations given any prices: after
    every completed public operation, NaN prices or not, if both sides have
    levels, every price of the book is a number and the best bid is priced
    below the best ask. *)
Theorem any_prices_never_crossed st :
  obtainable st → bid_levels st ≠ ∅ → ask_levels st ≠ ∅ →
  ∃ pb bl pa al,
    map_rbegin (bid_levels st) = Some (pb, bl) ∧
    (∀ p lv, bid_levels st !! p = Some lv → dle p pb) ∧
    map_begin (ask_levels st) = Some (pa, al) ∧
    (∀ p lv, ask_levels st !! p = Some lv → dle pa p) ∧
    get_price bl = pb ∧ get_price al = pa ∧
    dlt (get_price bl) (get_price al).
Proof.
  intros Hob Hb Ha. destruct (obtainable_inv _ Hob) as [Hs Hu].
  destruct (map_rbegin_is_Some _ Hb) as [[pb bl] Hbest].
  destruct (map_begin_is_Some _ Ha) as [[pa al] Hbesta].
  destruct (map_rbegin_Some _ _ _ Hbest) as [Hbl Hmax].
  destruct (map_begin_Some _ _ _ Hbesta) as [Hal Hmin].
  destruct (sound_level _ Hs true _ _ Hbl) as (Hpb & _).
  destruct (sound_level _ Hs false _ _ Hal) as (Hpa & _).
  exists pb, bl, pa, al. unfold get_price. rewrite Hpb, Hpa.
  destruct (dlt_not_nan _ _ (Hu _ _ _ _ Hbl Hal)) as [Hnb Hna].
  split; [done|]. split.
  { intros p lv Hlv. apply dle_iff.
    destruct (dlt_not_nan _ _ (Hu _ _ _ _ Hlv Hal)) as [Hn _].
    split; [done|]. split; [done | by eapply Hmax]. }
  split; [done|]. split.
  { intros p lv Hlv. apply dle_iff.
    destruct (dlt_not_nan _ _ (Hu _ _ _ _ Hbl Hlv)) as [_ Hn].
    split; [done|]. split; [done | by eapply Hmin]. }
  split; [done|]. split; [done|]. by eapply Hu.
Qed.

Lemma any_prices_never_crossed_witness :
  obtainable book_nan_two_sided ∧
  active_orders book_nan_two_sided !! 2 = Some bidNaN ∧
  ∃ pb bl pa al,
    map_rbegin (bid_levels book_nan_two_sided) = Some (pb, bl) ∧
    (∀ p lv, bid_levels book_nan_two_sided !! p = Some lv → dle p pb) ∧
    map_begin (ask_levels book_nan_two_sided) = Some (pa, al) ∧
    (∀ p lv, ask_levels book_nan_two_sided !! p = Some lv → dle pa p) ∧
    get_price bl = pb ∧ get_price al = pa ∧
    dlt (get_price bl) (get_price al).
Proof.
  split; [apply obtainable_book_nan_two_sided|]. split; [by_eval|].
  apply (any_prices_never_crossed book_nan_two_sided).
  - apply obtainable_book_nan_two_sided.
  - by_eval.
  - by_eval.
Defined.

